(** * The device configuration script engine of bmp-script.c

    A shallow embedding of [source/bmp-script.c] (Black Magic Probe Book):
    the MCU family matcher, the script line parser, the loader of the
    hard-coded scripts, the script iterator and the formatter that renders an
    instruction as a GDB [set] command.

    Conventions of the embedding.
    - A C string is the list of its characters before the terminating NUL
      (so a list never holds the NUL character itself); a pointer into a
      string is the suffix that starts there, or an offset from the start of
      the string where the code subtracts or compares pointers.
    - A character is a byte. A plain [char] is signed, as it is for the
      compilers of the x86 targets: where the code compares a [char] with
      [' '] or subtracts ['0'] from it, a byte from 0x80 on is a negative
      value. The functions of <ctype.h> see such a byte as no digit, no
      letter and no white space.
    - [uint32_t] is a [Z] in [0, 2^32), with the wrap-around written out.
    - The build is the debug build: [assert] is active, and a failing
      assertion ends the run ([AssertFail]).
    - Memory allocation ([malloc], [realloc], [strdup]) succeeds. *)

From Stdlib Require Import Ascii String.
From Stdlib Require Import List ZArith Lia Bool Arith.
Import ListNotations.

Open Scope string_scope.
Open Scope nat_scope.
Open Scope bool_scope.
Open Scope list_scope.

(** ** Outcomes of a run *)

Inductive outcome (A : Type) : Type :=
| Ok (a : A)          (* the function returned [a] *)
| AssertFail          (* an [assert] of the debug build failed *)
| Undefined           (* the code reads outside the object a pointer refers to *)
| NoFuel.             (* the bound that the model gives a loop was too small *)

Arguments Ok {A} a.
Arguments AssertFail {A}.
Arguments Undefined {A}.
Arguments NoFuel {A}.

Definition bind {A B : Type} (m : outcome A) (k : A -> outcome B) : outcome B :=
  match m with
  | Ok a => k a
  | AssertFail => AssertFail
  | Undefined => Undefined
  | NoFuel => NoFuel
  end.

Definition assert (b : bool) : outcome unit :=
  if b then Ok tt else AssertFail.

Declare Scope outcome_scope.
Delimit Scope outcome_scope with outcome.
Notation "x <- m ;; k" := (bind m (fun x => k))
  (at level 61, m at next level, right associativity) : outcome_scope.
Notation "m ;;; k" := (bind m (fun _ => k))
  (at level 61, right associativity) : outcome_scope.
Open Scope outcome_scope.

(** ** Characters and C strings *)

Definition cstring : Type := list ascii.

Definition code (c : ascii) : nat := nat_of_ascii c.

Definition LF : ascii := ascii_of_nat 10.

(** The reader of a C string literal: the escape [\n] is the line feed, any
    other character stands for itself. *)
Fixpoint cstr (s : string) : cstring :=
  match s with
  | EmptyString => []
  | String "\" (String "n" s') => LF :: cstr s'
  | String c s' => c :: cstr s'
  end.

(** [*p] for a pointer [p] into a string: the NUL at the end of the string. *)
Definition NUL : ascii := ascii_of_nat 0.

Definition deref (p : cstring) : ascii :=
  match p with
  | [] => NUL
  | c :: _ => c
  end.

(** [s[i]], for [i <= strlen(s)]. *)
Definition char_at (s : cstring) (i : nat) : ascii := nth i s NUL.

Definition ceqb (a b : ascii) : bool := Ascii.eqb a b.

(** The value of a [char]: plain [char] is signed, so that the bytes from
    0x80 on are the values from -128 to -1. *)
Definition char_value (c : ascii) : Z :=
  if code c <? 128 then Z.of_nat (code c) else (Z.of_nat (code c) - 256)%Z.

(** [c <= ' '] and [c > ' ']. *)
Definition le_space (c : ascii) : bool := (char_value c <=? 32)%Z.
Definition gt_space (c : ascii) : bool := (32 <? char_value c)%Z.

(** <ctype.h>, in the "C" locale. *)
Definition isdigit (c : ascii) : bool := (48 <=? code c) && (code c <=? 57).
Definition isupper (c : ascii) : bool := (65 <=? code c) && (code c <=? 90).
Definition islower (c : ascii) : bool := (97 <=? code c) && (code c <=? 122).
Definition isalnum (c : ascii) : bool := isdigit c || isupper c || islower c.
Definition isspace (c : ascii) : bool :=
  (code c =? 32) || ((9 <=? code c) && (code c <=? 13)).
Definition toupper (c : ascii) : ascii :=
  if islower c then ascii_of_nat (code c - 32) else c.
Definition tolower (c : ascii) : ascii :=
  if isupper c then ascii_of_nat (code c + 32) else c.

(** [strchr(s, c)] for [c <> '\0']: the offset of the first [c], if any. *)
Fixpoint strchr (s : cstring) (c : ascii) : option nat :=
  match s with
  | [] => None
  | a :: s' => if ceqb a c then Some 0
               else match strchr s' c with
                    | Some i => Some (S i)
                    | None => None
                    end
  end.

(** [strrchr(s, c)] for [c <> '\0']: the offset of the last [c], if any. *)
Fixpoint strrchr (s : cstring) (c : ascii) : option nat :=
  match s with
  | [] => None
  | a :: s' => match strrchr s' c with
               | Some i => Some (S i)
               | None => if ceqb a c then Some 0 else None
               end
  end.

(** [strcmp(a, b) == 0]. *)
Fixpoint streq (a b : cstring) : bool :=
  match a, b with
  | [], [] => true
  | x :: a', y :: b' => ceqb x y && streq a' b'
  | _, _ => false
  end.

(** [stricmp(a, b) == 0] (strcasecmp): equality after [tolower]. *)
Fixpoint strieq (a b : cstring) : bool :=
  match a, b with
  | [], [] => true
  | x :: a', y :: b' => ceqb (tolower x) (tolower y) && strieq a' b'
  | _, _ => false
  end.

(** [strncmp(a, b, n) == 0]: the first [n] characters agree, or both strings
    end, at the same place, before that. *)
Fixpoint strneq (a b : cstring) (n : nat) {struct n} : bool :=
  match n with
  | O => true
  | S n' =>
      match a, b with
      | [], [] => true
      | x :: a', y :: b' => ceqb x y && strneq a' b' n'
      | _, _ => false
      end
  end.

(** ** 32-bit unsigned arithmetic *)

Definition wrap32 (z : Z) : Z := (z mod 4294967296)%Z.

(** [~v] on a [uint32_t]. *)
Definition not32 (v : Z) : Z := Z.lxor (wrap32 v) 4294967295.

(** ** strtoul(s, &end, 0)

    Leading white space and a sign are accepted; the base is 16 after [0x] or
    [0X] followed by a hexadecimal digit, 8 after a leading [0], else 10.
    With no digits the value is 0 and [end] is [s] itself. [unsigned long] has
    64 bits (LP64); a value out of range is [ULONG_MAX]. *)

Definition ULONG_MAX : Z := 18446744073709551615%Z.

Definition digit_val (c : ascii) : option Z :=
  if isdigit c then Some (Z.of_nat (code c - 48))
  else if islower c then Some (Z.of_nat (code c - 97 + 10))
  else if isupper c then Some (Z.of_nat (code c - 65 + 10))
  else None.

Definition digit_in (base : Z) (c : ascii) : option Z :=
  match digit_val c with
  | Some d => if (d <? base)%Z then Some d else None
  | None => None
  end.

(** The digits of the number in the given base: the accumulated value and the
    rest of the string. *)
Fixpoint digits_from (base : Z) (acc : Z) (s : cstring) : Z * cstring :=
  match s with
  | [] => (acc, [])
  | c :: s' =>
      match digit_in base c with
      | Some d => digits_from base (acc * base + d)%Z s'
      | None => (acc, s)
      end
  end.

Fixpoint skip_isspace (s : cstring) : cstring :=
  match s with
  | c :: s' => if isspace c then skip_isspace s' else s
  | [] => []
  end.

Definition is_x (c : ascii) : bool := ceqb c "x"%char || ceqb c "X"%char.

Definition strtoul (s : cstring) : Z * cstring :=
  let s1 := skip_isspace s in
  let '(neg, s2) :=
    match s1 with
    | c :: r => if ceqb c "-"%char then (true, r)
                else if ceqb c "+"%char then (false, r)
                else (false, s1)
    | [] => (false, s1)
    end in
  let '(base, s3) :=
    match s2 with
    | z :: x :: h :: r =>
        if ceqb z "0"%char && is_x x
           && match digit_in 16 h with Some _ => true | None => false end
        then (16%Z, h :: r)
        else if ceqb z "0"%char then (8%Z, s2) else (10%Z, s2)
    | z :: _ => if ceqb z "0"%char then (8%Z, s2) else (10%Z, s2)
    | [] => (10%Z, s2)
    end in
  match s3 with
  | c :: _ =>
      match digit_in base c with
      | None => (0%Z, s)     (* no conversion: end = s *)
      | Some _ =>
          let '(v, rest) := digits_from base 0 s3 in
          let v' := if (ULONG_MAX <? v)%Z then ULONG_MAX
                    else if neg then ((ULONG_MAX + 1 - v) mod (ULONG_MAX + 1))%Z
                    else v in
          (v', rest)
      end
  | [] => (0%Z, s)
  end.

(** ** sprintf("%x", v) for an [unsigned int] *)

Definition hex_digit (d : Z) : ascii :=
  if (d <? 10)%Z then ascii_of_nat (48 + Z.to_nat d)
  else ascii_of_nat (97 + Z.to_nat d - 10).

Fixpoint hex_loop (fuel : nat) (v : Z) (acc : cstring) : cstring :=
  match fuel with
  | O => acc
  | S fuel' =>
      if (v =? 0)%Z then acc
      else hex_loop fuel' (v / 16)%Z (hex_digit (v mod 16)%Z :: acc)
  end.

(** Eight digits are all a 32-bit value has. *)
Definition fmt_x (v : Z) : cstring :=
  let v := wrap32 v in
  if (v =? 0)%Z then cstr "0" else hex_loop 8 v [].


(** ** Scanning helpers of the source *)

(** [skipleading(str)]: the pointer moved past the characters [<= ' ']. *)
Fixpoint skipleading (str : cstring) : cstring :=
  match str with
  | c :: str' => if le_space c then skipleading str' else str
  | [] => []
  end.

(** [skiptrailing(base, end)], with [end] and the result as offsets from
    [base]: [end] moved back over the characters [<= ' ']. *)
Fixpoint skiptrailing (base : cstring) (e : nat) : nat :=
  match e with
  | O => O
  | S e' => if le_space (char_at base e') then skiptrailing base e' else e
  end.

(** ** The matcher *)

(** [architecture_match(architecture, mcufamily)]: the two strings have the
    same length and agree character by character, where a lower case [x] in
    [architecture] stands for any character and case is ignored. *)
Fixpoint architecture_match (architecture mcufamily : cstring) : bool :=
  match architecture, mcufamily with
  | a :: architecture', m :: mcufamily' =>
      if negb (ceqb a "x"%char) && negb (ceqb (toupper a) (toupper m))
      then false
      else architecture_match architecture' mcufamily'
  | [], [] => true
  | _, _ => false
  end.

(** [sizearray(matchname)] and [sizearray(mcuname)]. *)
Definition matchname_size : nat := 50.

(** The offset of [separator] from [head]: the first comma, or the end. *)
Definition item_separator (head : cstring) : nat :=
  match strchr head ","%char with
  | Some i => i
  | None => length head
  end.

(** The next [head]: [skipleading(separator + 1)] when [separator] is at a
    comma, [separator] itself when it is at the end of the list. *)
Definition next_item (head : cstring) : cstring :=
  match skipn (item_separator head) head with
  | [] => []
  | _ :: after => skipleading after
  end.

(** The first loop of [mcu_match]: items of the same length as the name. At
    most one iteration per character of the list, which [fuel] bounds. *)
Fixpoint exact_pass (fuel : nat) (mcufamily : cstring) (namelen : nat)
    (head : cstring) : outcome bool :=
  match head with
  | [] => Ok false
  | _ :: _ =>
      match fuel with
      | O => NoFuel
      | S fuel' =>
          let separator := item_separator head in
          let tail := skiptrailing head separator in
          let matchlen := tail in
          if (matchlen =? namelen) && (matchlen <? matchname_size)
             && architecture_match (firstn matchlen head) mcufamily
          then Ok true   (* exact match *)
          else exact_pass fuel' mcufamily namelen (next_item head)
      end
  end.

(** The second loop: items with a wildcard, matched on the prefix. *)
Fixpoint prefix_pass (fuel : nat) (mcufamily : cstring) (namelen : nat)
    (head : cstring) : outcome bool :=
  match head with
  | [] => Ok false
  | _ :: _ =>
      match fuel with
      | O => NoFuel
      | S fuel' =>
          let separator := item_separator head in
          let tail := skiptrailing head separator in
          let continue := prefix_pass fuel' mcufamily namelen (next_item head) in
          match strchr head "*"%char with
          | Some wildcard =>
              if wildcard <? tail then
                let matchlen := wildcard in
                let after := char_at head (wildcard + 1) in
                assert (ceqb after ","%char || ceqb after " "%char || ceqb after NUL) ;;;
                if matchlen =? 0 then Ok true   (* match-all wildcard *)
                else if (matchlen <? namelen) && (matchlen <? matchname_size)
                        && architecture_match (firstn matchlen head)
                                              (firstn matchlen mcufamily)
                     then Ok true   (* match on prefix *)
                     else continue
              else continue
          | None => continue
          end
      end
  end.

(** The length of the MCU name in [mcu_match]: the name may have a suffix for
    the architecture (M3, M4 or M3/M4) behind its last space, and this suffix
    is stripped off. *)
Definition stripped_length (mcufamily : cstring) : outcome nat :=
  let namelen := length mcufamily in
  match strrchr mcufamily " "%char with
  | Some separator =>
      if ceqb (char_at mcufamily (separator + 1)) "M"%char
         && isdigit (char_at mcufamily (separator + 2))
      then
        let separator := skiptrailing mcufamily separator in
        assert ((0 <? separator) && gt_space (char_at mcufamily (separator - 1))) ;;;
        Ok separator
      else Ok namelen
  | None => Ok namelen
  end.

(** [mcu_match(mcufamily, list)]. *)
Definition mcu_match (mcufamily list : cstring) : outcome bool :=
  let namelen := length mcufamily in
  (* name should never be empty and should not have leading or trailing
     whitespace *)
  assert ((0 <? namelen) && gt_space (char_at mcufamily 0)
          && gt_space (char_at mcufamily (namelen - 1))) ;;;
  namelen <- stripped_length mcufamily ;;
  exact <- exact_pass (S (length list)) mcufamily namelen (skipleading list) ;;
  if (exact : bool) then Ok true
  else
    (* no exact match found, try matching items on prefix *)
    prefix_pass (S (length list)) mcufamily namelen (skipleading list).

(** ** Data structures *)

(** [REG_DEF]: a register definition. [mcu_list] is NULL in the table of a
    session. *)
Record REG_DEF : Type := {
  reg_name : cstring;
  reg_address : Z;
  reg_size : Z;
  reg_mcu_list : option cstring
}.

(** [SCRIPT_DEF]: a hard-coded script. *)
Record SCRIPT_DEF : Type := {
  def_name : cstring;
  def_mcu_list : cstring;
  def_script : cstring
}.

(** [SCRIPTLINE]: an interpreted script instruction; [oper] is one of the
    characters [=], [|], [&] and [~]. *)
Record SCRIPTLINE : Type := {
  line_address : Z;
  line_value : Z;
  line_size : Z;
  line_oper : ascii
}.

(** [SCRIPT]: an entry of the linked list that hangs off [script_root]; the
    array [lines] with its [count] is a list. *)
Record SCRIPT : Type := {
  script_name : cstring;
  script_lines : list SCRIPTLINE
}.

Definition script_count (s : SCRIPT) : nat := length (script_lines s).

(** [REG_CACHE]: the cursor. [name] is NULL when the cache is clear. *)
Record REG_CACHE : Type := {
  cache_name : option cstring;
  cache_lines : list SCRIPTLINE;
  cache_index : nat
}.

Definition cache_count (c : REG_CACHE) : nat := length (cache_lines c).

(** The two static variables of the file: [script_root] (its [name] and the
    list behind its [next]) and [cache]. *)
Record session : Type := {
  root_name : option cstring;
  scripts : list SCRIPT;
  cache : REG_CACHE
}.

Definition cache_clear : REG_CACHE :=
  {| cache_name := None; cache_lines := []; cache_index := 0 |}.

(** The state a program starts in. *)
Definition session_init : session :=
  {| root_name := None; scripts := []; cache := cache_clear |}.

(** Modelled from the spec: the macro [SCRIPT_MAGIC] of bmp-script.h, which
    is not among the sources. The spec reserves the range
    [MAGIC .. MAGIC+15] for parameter references and recommends
    [0xFFFF_FFF0]. *)
Definition SCRIPT_MAGIC : Z := 4294967280%Z.

(** ** The parser *)

Notation "' p <- m ;; k" := (bind m (fun x => let 'p := x in k))
  (at level 61, p pattern, m at next level, right associativity) : outcome_scope.

(** The length of the identifier at [line]: the loop
    [for (tail = line; isalnum( *tail) || *tail == '_'; tail++)]. *)
Fixpoint ident_len (line : cstring) : nat :=
  match line with
  | c :: line' => if isalnum c || ceqb c "_"%char then S (ident_len line') else 0
  | [] => 0
  end.

(** The loop over [r]: the first register whose name gives
    [strncmp(line, registers[r].name, tail - line) == 0]. *)
Definition lookup_register (line : cstring) (len : nat) (registers : list REG_DEF)
  : option REG_DEF :=
  find (fun r => strneq line (reg_name r) len) registers.

(** A parameter reference [$d] at [line]: [SCRIPT_MAGIC + (line[1] - '0')] as
    a [uint32_t], and [line + 2]. When [$] is the last character, [line + 2]
    is past the terminator. *)
Definition param_ref (line : cstring) : outcome (Z * cstring) :=
  match line with
  | _ :: d :: rest => Ok (wrap32 (SCRIPT_MAGIC + (char_value d - 48)), rest)
  | _ => Undefined
  end.

Definition is_operator (c : ascii) : bool :=
  ceqb c "="%char || ceqb c "|"%char || ceqb c "&"%char || ceqb c "~"%char.

(** The loop of the debug build that runs to the end of the line:
    [while ( *line != 0 && *line != '\n' && *line <= ' ') line++]. *)
Fixpoint skip_to_eol (line : cstring) : cstring :=
  match line with
  | c :: line' => if negb (ceqb c LF) && le_space c then skip_to_eol line' else line
  | [] => []
  end.

(** The first part of [parseline], "memory address or register": the address,
    the size and the pointer behind the destination. *)
Definition parse_destination (line : cstring) (registers : list REG_DEF)
  : outcome (Z * Z * cstring) :=
  if isdigit (deref line) then
    let '(v, rest) := strtoul line in Ok (wrap32 v, 4%Z, rest)
  else if ceqb (deref line) "$"%char then
    '(a, rest) <- param_ref line ;; Ok (a, 4%Z, rest)
  else
    let len := ident_len line in
    match lookup_register line len registers with
    | None => AssertFail   (* assert(r < reg_count) *)
    | Some r => Ok (reg_address r, reg_size r, skipn len line)
    end.

(** The second part, "operation": the operator, the [invert] flag and the
    pointer at the source. [a ~= b] means [a &= ~b]. *)
Definition parse_operation (line : cstring) : outcome (ascii * bool * cstring) :=
  let invert := false in
  let line := skipleading line in
  assert (is_operator (deref line)) ;;;
  let oper := deref line in
  let line := tl line in
  let '(oper, invert) :=
    if ceqb oper "~"%char then ("&"%char, xorb invert true) else (oper, invert) in
  (* allow |= to mean | and &= to mean & *)
  let line := if ceqb (deref line) "="%char then tl line else line in
  let line := skipleading line in
  let '(invert, line) :=
    if ceqb (deref line) "~"%char then (xorb invert true, skipleading (tl line))
    else (invert, line) in
  Ok (oper, invert, line).

(** The third part, "parameter": the final operator, the value and the
    pointer behind the source. Parameter inversion is only supported with
    [&=]. *)
Definition parse_source (oper : ascii) (invert : bool) (line : cstring)
  : outcome (ascii * Z * cstring) :=
  if ceqb (deref line) "$"%char then
    '(v, rest) <- param_ref line ;;
    assert (negb invert || ceqb oper "&"%char) ;;;
    Ok (if ceqb oper "&"%char && invert then "~"%char else oper, v, rest)
  else
    let '(v, rest) := strtoul line in
    Ok (oper, if invert then not32 v else wrap32 v, rest).

(** [parseline(line, registers, reg_count, &oper, &address, &value, &size)]:
    the returned pointer and the four results. *)
Definition parseline (line : cstring) (registers : list REG_DEF)
  : outcome (cstring * SCRIPTLINE) :=
  (* ignore any "set" command *)
  let line := skipleading line in
  let line := if strneq line (cstr "set") 3 && le_space (char_at line 3)
              then skipleading (skipn 3 line) else line in
  '(address, size, line) <- parse_destination line registers ;;
  '(oper, invert, line) <- parse_operation line ;;
  '(oper, value, line) <- parse_source oper invert line ;;
  let line := skip_to_eol line in
  assert (ceqb (deref line) LF || match line with [] => true | _ => false end) ;;;
  Ok (skipleading line,
      {| line_address := address; line_value := value;
         line_size := size; line_oper := oper |}).

(** ** The hard-coded tables *)

Definition reg (name : string) (address : Z) (size : Z) (mcu_list : string) : REG_DEF :=
  {| reg_name := cstr name; reg_address := address; reg_size := size;
     reg_mcu_list := Some (cstr mcu_list) |}.

Definition register_defaults : list REG_DEF := [
  reg "SYSCON_SYSMEMREMAP" 0x40048000 4 "LPC8xx,LPC11xx*,LPC11Uxx,LPC12xx,LPC13xx";
  reg "SYSCON_SYSMEMREMAP" 0x40074000 4 "LPC15xx";
  reg "SCB_MEMMAP"         0x400FC040 4 "LPC17xx";
  reg "SCB_MEMMAP"         0xE01FC040 4 "LPC21xx,LPC22xx,LPC23xx,LPC24xx";
  reg "M4MEMMAP"           0x40043100 4 "LPC43xx*";

  reg "RCC_APB2ENR"        0x40021018 4 "STM32F1*";
  reg "AFIO_MAPR"          0x40010004 4 "STM32F1*";
  reg "RCC_AHB1ENR"        0x40023830 4 "STM32F4*,STM32F7*";
  reg "GPIOB_MODER"        0x40020400 4 "STM32F4*,STM32F7*";
  reg "GPIOB_AFRL"         0x40020420 4 "STM32F4*,STM32F7*";
  reg "GPIOB_OSPEEDR"      0x40020408 4 "STM32F4*,STM32F7*";
  reg "GPIOB_PUPDR"        0x4002040C 4 "STM32F4*,STM32F7*";
  reg "DBGMCU_CR"          0xE0042004 4
      "STM32F03,STM32F05,STM32F07,STM32F09,STM32F1*,STM32F2*,STM32F3*,STM32F4*,STM32F7*";

  reg "TRACECLKDIV"        0x400480AC 4 "LPC13xx";
  reg "TRACECLKDIV"        0x400740D8 4 "LPC15xx";
  reg "IOCON_PIO0_9"       0x40044024 4 "LPC13xx";

  reg "SCB_DHCSR"          0xE000EDF0 4 "*";
  reg "SCB_DCRSR"          0xE000EDF4 4 "*";
  reg "SCB_DCRDR"          0xE000EDF8 4 "*";
  reg "SCB_DEMCR"          0xE000EDFC 4 "*";

  reg "TPIU_SSPSR"         0xE0040000 4 "*";
  reg "TPIU_CSPSR"         0xE0040004 4 "*";
  reg "TPIU_ACPR"          0xE0040010 4 "*";
  reg "TPIU_SPPR"          0xE00400F0 4 "*";
  reg "TPIU_FFCR"          0xE0040304 4 "*";
  reg "TPIU_DEVID"         0xE0040FC8 4 "*";

  reg "DWT_CTRL"           0xE0001000 4 "*";
  reg "DWT_CYCCNT"         0xE0001004 4 "*";

  reg "ITM_TER"            0xE0000E00 4 "*";
  reg "ITM_TPR"            0xE0000E40 4 "*";
  reg "ITM_TCR"            0xE0000E80 4 "*";
  reg "ITM_LAR"            0xE0000FB0 4 "*";
  reg "ITM_IWR"            0xE0000EF8 4 "*";
  reg "ITM_IRR"            0xE0000EFC 4 "*";
  reg "ITM_IMCR"           0xE0000F00 4 "*";
  reg "ITM_LSR"            0xE0000FB4 4 "*"
]%Z.

(** A script body is the concatenation of the adjacent string literals. *)
Definition script (name mcu_list : string) (body : list string) : SCRIPT_DEF :=
  {| def_name := cstr name; def_mcu_list := cstr mcu_list;
     def_script := concat (map cstr body) |}.

Definition script_defaults : list SCRIPT_DEF := [
  (* memory mapping (for Flash programming) *)
  script "memremap" "LPC8xx,LPC11xx*,LPC11Uxx,LPC12xx,LPC13xx"
    [ "SYSCON_SYSMEMREMAP = 2" ];
  script "memremap" "LPC15xx"
    [ "SYSCON_SYSMEMREMAP = 2" ];
  script "memremap" "LPC17xx"
    [ "SCB_MEMMAP = 1" ];
  script "memremap" "LPC21xx,LPC22xx,LPC23xx,LPC24xx"
    [ "SCB_MEMMAP = 1" ];
  script "memremap" "LPC43xx*"
    [ "M4MEMMAP = 0" ];

  (* MCU-specific & generic configuration for SWO tracing *)
  script "swo_device" "STM32F1*"
    [ "RCC_APB2ENR |= 1 \n";
      "AFIO_MAPR |= 0x2000000 \n";
      "DBGMCU_CR |= 0x20 \n" ];
  script "swo_device" "STM32F03,STM32F05,STM32F07,STM32F09,STM32F2*,STM32F3*"
    [ "DBGMCU_CR |= 0x20 \n" ];
  script "swo_device" "STM32F4*,STM32F7*"
    [ "RCC_AHB1ENR |= 0x02 \n";
      "GPIOB_MODER ~= 0x00c0 \n";
      "GPIOB_MODER |= 0x0080 \n";
      "GPIOB_AFRL ~= 0xf000 \n";
      "GPIOB_OSPEEDR |= 0x00c0 \n";
      "GPIOB_PUPDR ~= 0x00c0 \n";
      "DBGMCU_CR |= 0x20 \n" ];
  script "swo_device" "LPC13xx"
    [ "TRACECLKDIV = 1 \n";
      "IOCON_PIO0_9 = 0x93 \n" ];
  script "swo_device" "LPC15xx"
    [ "TRACECLKDIV = 1\n" ];

  (* swo_generic: $0 = mode, $1 = CPU clock divider, $2 = baudrate,
     $3 = memory address for variable; Cortex M0/M0+ *)
  script "swo_generic" "*"
    [ "SCB_DEMCR = 0x1000000 \n";
      "TPIU_CSPSR = 1 \n";
      "TPIU_SPPR = $0 \n";
      "TPIU_ACPR = $1 \n";
      "TPIU_FFCR = 0 \n";
      "ITM_LAR = 0xC5ACCE55 \n";
      "ITM_TCR = 0x11 \n";
      "ITM_TPR = 0 \n" ];
  script "swo_generic" "[M0]"
    [ "$3 = $2 \n" ];

  (* swo_channels: $0 = enabled channel bit-mask,
     $1 = memory address for variable; Cortex M0/M0+ *)
  script "swo_channels" "*"
    [ "ITM_TER = $0 \n" ];
  script "swo_channels" "[M0]"
    [ "$1 = $0 \n" ]
].

(** ** The loader *)

(** The cache of the script most recently found is cleared. *)
Definition bmscript_clearcache (st : session) : session :=
  {| root_name := root_name st; scripts := scripts st; cache := cache_clear |}.

(** [bmscript_clear()]: the cache is cleared, every script is unlinked and
    freed, and the name in the root is freed and set to NULL. *)
Definition bmscript_clear (st : session) : session :=
  {| root_name := None; scripts := []; cache := cache_clear |}.

(** The number of scripts behind [script_root.next]. *)
Definition count_scripts (st : session) : nat := length (scripts st).

(** A new script goes to the front of the list:
    [script->next = script_root.next; script_root.next = script]. The hard-coded
    scripts and the scripts of the support file are added by the same code. *)
Definition add_script (s : SCRIPT) (st : session) : session :=
  {| root_name := root_name st; scripts := s :: scripts st; cache := cache st |}.

(** First step of the register list: the hard-coded registers that match the
    MCU, in the order of the table and with [mcu_list] set to NULL. *)
Fixpoint load_registers (mcu : cstring) (defaults : list REG_DEF)
  : outcome (list REG_DEF) :=
  match defaults with
  | [] => Ok []
  | d :: defaults' =>
      m <- mcu_match mcu (match reg_mcu_list d with Some l => l | None => [] end) ;;
      rest <- load_registers mcu defaults' ;;
      Ok (if (m : bool)
          then {| reg_name := reg_name d; reg_address := reg_address d;
                  reg_size := reg_size d; reg_mcu_list := None |} :: rest
          else rest)
  end.

(** The loop [while ( *head != 0)] over the text of a hard-coded script. Each
    instruction takes at least one character, so [fuel] is the length of the
    text. *)
Fixpoint parse_script (fuel : nat) (head : cstring) (registers : list REG_DEF)
  : outcome (list SCRIPTLINE) :=
  match head with
  | [] => Ok []
  | _ :: _ =>
      match fuel with
      | O => NoFuel
      | S fuel' =>
          '(head', l) <- parseline head registers ;;
          rest <- parse_script fuel' head' registers ;;
          Ok (l :: rest)
      end
  end.

(** [mcu_match(mcu, list) || (arch_name[0] != 0 && mcu_match(arch_name, list))]. *)
Definition script_applies (mcu arch_name list : cstring) : outcome bool :=
  m <- mcu_match mcu list ;;
  if (m : bool) then Ok true
  else match arch_name with
       | [] => Ok false
       | _ :: _ => mcu_match arch_name list
       end.

(** The loop over [script_defaults]. *)
Fixpoint load_scripts (mcu arch_name : cstring) (registers : list REG_DEF)
    (defaults : list SCRIPT_DEF) (st : session) : outcome session :=
  match defaults with
  | [] => Ok st
  | d :: defaults' =>
      a <- script_applies mcu arch_name (def_mcu_list d) ;;
      st' <- (if (a : bool) then
                let head := skipleading (def_script d) in
                lines <- parse_script (length head) head registers ;;
                Ok (add_script {| script_name := def_name d; script_lines := lines |} st)
              else Ok st) ;;
      load_scripts mcu arch_name registers defaults' st'
  end.

(** [sizearray(arch_name)]. *)
Definition arch_name_size : nat := 50.

(** [bmscript_load(mcu, arch)] in a run where the support file
    [<AppData>/BlackMagic/bmscript] cannot be opened, so that the two steps
    that read it are skipped. [arch] may be NULL. The result is the number of
    scripts. Nothing in the source assigns [script_root.name]. *)
Definition bmscript_load (mcu : cstring) (arch : option cstring) (st : session)
  : outcome (nat * session) :=
  if match root_name st with
     | Some n => streq n mcu
     | None => false
     end
  then Ok (count_scripts st, st)
  else
    let st := bmscript_clear st in
    registers <- load_registers mcu register_defaults ;;
    arch_name <-
      match arch with
      | Some ((_ :: _) as a) =>
          assert (length a <? arch_name_size - 2) ;;;
          Ok (cstr "[" ++ a ++ cstr "]")
      | _ => Ok []
      end ;;
    st <- load_scripts mcu arch_name registers script_defaults st ;;
    Ok (count_scripts st, st).

(** ** The iterator and the formatter *)

(** The search [for (script = script_root.next; ...; script = script->next)]
    for the first script with [stricmp(name, script->name) == 0]. *)
Definition find_script (name : cstring) (st : session) : option SCRIPT :=
  find (fun s => strieq name (script_name s)) (scripts st).

Definition set_cache (c : REG_CACHE) (st : session) : session :=
  {| root_name := root_name st; scripts := scripts st; cache := c |}.

(** [bmscript_line(name, &oper, &address, &value, &size)]: [Some] instruction
    for the result 1, [None] for the result 0. [name] may be NULL. *)
Definition bmscript_line (name : option cstring) (st : session)
  : outcome (option SCRIPTLINE * session) :=
  name <- match name with
          | Some n => Ok n
          | None => match cache_name (cache st) with
                    | Some n => Ok n
                    | None => AssertFail   (* assert(name != NULL) *)
                    end
          end ;;
  let lookup :=
    match cache_name (cache st) with
    | None => true
    | Some n => negb (streq name n)
    end in
  let found :=
    if lookup then
      match find_script name st with
      | None => None   (* no script with matching name is found *)
      | Some script =>
          Some (set_cache {| cache_name := Some (script_name script);
                             cache_lines := script_lines script;
                             cache_index := 0 |} st)
      end
    else Some st in
  match found with
  | None => Ok (None, st)
  | Some st =>
      let c := cache st in
      assert (cache_index c <=? cache_count c) ;;;
      if cache_index c =? cache_count c then Ok (None, st)   (* end of script reached *)
      else
        match nth_error (cache_lines c) (cache_index c) with
        | None => Undefined
        | Some l =>
            Ok (Some l,
                set_cache {| cache_name := cache_name c; cache_lines := cache_lines c;
                             cache_index := cache_index c + 1 |} st)
        end
  end.

(** [params[i]] converted to [uint32_t]; [params] may be NULL, and an index
    past the end of the caller's array reads outside it. *)
Definition param_value (params : option (list Z)) (i : Z) : outcome Z :=
  match params with
  | None => AssertFail   (* assert(params != NULL) *)
  | Some ps =>
      match nth_error ps (Z.to_nat i) with
      | Some v => Ok (wrap32 v)
      | None => Undefined
      end
  end.

Definition is_param (v : Z) : bool := (Z.land v 4294967280 =? SCRIPT_MAGIC)%Z.

(** The [switch (size)] of the formatter: the type name in the command and the
    value as it is printed. *)
Definition size_type (size : Z) (value : Z) : option (cstring * Z) :=
  if (size =? 1)%Z then Some (cstr "char", Z.land value 255)
  else if (size =? 2)%Z then Some (cstr "short", Z.land value 65535)
  else if (size =? 4)%Z then Some (cstr "int", value)
  else None.

(** The [switch (oper)] of the formatter. *)
Definition operator_text (oper : ascii) : option cstring :=
  if ceqb oper "="%char then Some (cstr "=")
  else if ceqb oper "|"%char then Some (cstr "|=")
  else if ceqb oper "&"%char then Some (cstr "&=")
  else if ceqb oper "~"%char then Some (cstr "&= ~")
  else None.

(** [bmscript_line_fmt(name, line, params)]: [Some] text written to [line]
    for the result 1, [None] for the result 0. *)
Definition bmscript_line_fmt (name : option cstring) (params : option (list Z))
    (st : session) : outcome (option cstring * session) :=
  '(next, st) <- bmscript_line name st ;;
  match next with
  | None => Ok (None, st)
  | Some l =>
      operstr <- match operator_text (line_oper l) with
                 | Some t => Ok t
                 | None => AssertFail
                 end ;;
      let address := line_address l in
      let value := line_value l in
      resolved <-
        (if is_param address then
           a <- param_value params (Z.land address 15) ;;   (* replace parameters *)
           Ok (if (a =? 4294967295)%Z then None else Some a)
         else Ok (Some address)) ;;
      match resolved with
      | None => Ok (None, st)   (* invalid address, variable not present *)
      | Some address =>
          value <- (if is_param value
                    then param_value params (Z.land value 15)
                    else Ok value) ;;
          match size_type (line_size l) value with
          | None => AssertFail
          | Some (type, v) =>
              Ok (Some (cstr "set {" ++ type ++ cstr "}0x" ++ fmt_x address
                        ++ cstr " " ++ operstr ++ cstr " 0x" ++ fmt_x v ++ cstr "\n"),
                  st)
          end
      end
  end.

(** Successive calls of [bmscript_line_fmt] with the same arguments: the
    results of [n] calls, in order, and the state after them. *)
Fixpoint run_fmt (n : nat) (name : option cstring) (params : option (list Z))
    (st : session) : outcome (list (option cstring) * session) :=
  match n with
  | O => Ok ([], st)
  | S n' =>
      '(r, st) <- bmscript_line_fmt name params st ;;
      '(rs, st) <- run_fmt n' name params st ;;
      Ok (r :: rs, st)
  end.


(** Successive calls of [bmscript_line] with the same name. *)
Fixpoint run_line (n : nat) (name : option cstring) (st : session)
  : outcome (list (option SCRIPTLINE) * session) :=
  match n with
  | O => Ok ([], st)
  | S n' =>
      '(r, st) <- bmscript_line name st ;;
      '(rs, st) <- run_line n' name st ;;
      Ok (r :: rs, st)
  end.

(** * Definitions for the statements *)

(** ** Words for the statements about the iterator *)

(** The session with the cursor on the script [n], at instruction [i]. *)

Definition at_cursor (n : cstring) (lines : list SCRIPTLINE) (i : nat) (st : session)
  : session :=
  set_cache {| cache_name := Some n; cache_lines := lines; cache_index := i |} st.

(** A call that continues on the cached script: no name, or exactly the name
    in the cache. *)
Definition continues (name : option cstring) (n : cstring) : Prop :=
  name = None \/ name = Some n.

(** A call that looks the script up: the cache is clear, or holds another
    name (a name that differs in case is another name). *)
Definition looks_up (name : cstring) (st : session) : Prop :=
  match cache_name (cache st) with
  | None => True
  | Some n => name <> n
  end.

(** Scripts added one after the other, the first of the list first. *)
Definition inserts (ss : list SCRIPT) (st : session) : session :=
  fold_left (fun st s => add_script s st) ss st.

(** Two names that are equal except for the case of their letters. *)
Definition differ_in_case_only (a b : cstring) : Prop :=
  a <> b /\ map tolower a = map tolower b.

(** The name is spelled exactly as the name of the script that the search
    finds for it (or the search finds none). *)
Definition exact_name (name : cstring) (st : session) : Prop :=
  forall s, find_script name st = Some s -> script_name s = name.

(** The number of calls after which the script named [name] is at its end:
    one call per instruction and the call that reports the end. *)
Definition calls_to_end (name : cstring) (st : session) : nat :=
  match find_script name st with
  | Some s => S (script_count s)
  | None => 1
  end.

(** ** Widths, operators and the rendered command *)

(** The operators of a compiled instruction, by the character that encodes
    them in [oper]. *)
Inductive operator : Type := Store | Or | And | AndNot.

Definition operator_of (oper : ascii) : option operator :=
  if ceqb oper "="%char then Some Store
  else if ceqb oper "|"%char then Some Or
  else if ceqb oper "&"%char then Some And
  else if ceqb oper "~"%char then Some AndNot
  else None.

(** The command as the specification words it. *)
Definition operator_symbol (o : operator) : cstring :=
  match o with
  | Store => cstr "="
  | Or => cstr "|="
  | And => cstr "&="
  | AndNot => cstr "&= ~"
  end.

Definition type_name (width : Z) : cstring :=
  if (width =? 1)%Z then cstr "char"
  else if (width =? 2)%Z then cstr "short"
  else cstr "int".

Definition width_mask (width : Z) : Z := (Z.shiftl 1 (8 * width) - 1)%Z.

(** The line [set {<type>}0x<addr> <op> 0x<value>] with its line feed, for
    the four texts that it has between the fixed ones. *)
Definition command_line (type addr op value : cstring) : cstring :=
  cstr "set {" ++ type ++ cstr "}0x" ++ addr ++ cstr " " ++ op ++ cstr " 0x"
  ++ value ++ cstr "\n".

(** A hexadecimal numeral as a reader of the command takes it: one or more
    of the digits [0] to [9] and [a] to [f], the first one the most
    significant. A text that is empty or has another character is no
    numeral. *)
Fixpoint digit_place (c : ascii) (digits : cstring) (d : Z) : option Z :=
  match digits with
  | [] => None
  | x :: rest => if ceqb c x then Some d else digit_place c rest (d + 1)%Z
  end.

Definition hex_digit_value (c : ascii) : option Z :=
  digit_place c (cstr "0123456789abcdef") 0.

Fixpoint hex_numeral_from (acc : Z) (s : cstring) : option Z :=
  match s with
  | [] => Some acc
  | c :: rest =>
      match hex_digit_value c with
      | Some d => hex_numeral_from (16 * acc + d) rest
      | None => None
      end
  end.

Definition hex_numeral (s : cstring) : option Z :=
  match s with
  | [] => None
  | _ :: _ => hex_numeral_from 0 s
  end.

Definition width_ok (w : Z) : Prop := (w = 1 \/ w = 2 \/ w = 4)%Z.

Definition compiled (l : SCRIPTLINE) : Prop :=
  width_ok (line_size l) /\ operator_of (line_oper l) <> None.

(** Every instruction in the store and under the cursor is a compiled one. *)
Definition session_compiled (st : session) : Prop :=
  Forall (fun s => Forall compiled (script_lines s)) (scripts st) /\
  Forall compiled (cache_lines (cache st)).

(** An address or a value with its parameter reference replaced. *)
Definition resolve (params : option (list Z)) (x : Z) : outcome Z :=
  if is_param x then param_value params (Z.land x 15) else Ok x.


(** ** Lines of the form DEST OP= SRC *)

(** The pointer behind the operator, its optional [=] and the white space
    that follows. *)
Definition after_operator (line : cstring) : cstring :=
  let l := tl (skipleading line) in
  skipleading (if ceqb (deref l) "="%char then tl l else l).



(** ** The matcher as the specification describes it *)

(** The architecture suffix is stripped from the family, the list is cut at
    its commas into tokens with the white space trimmed, and the tokens are
    tried in two passes. *)

(** White space trimmed from both ends. *)
Definition trim_end (t : cstring) : cstring := rev (skipleading (rev t)).
Definition trim (t : cstring) : cstring := trim_end (skipleading t).

Fixpoint split_commas (s : cstring) : list cstring :=
  match s with
  | [] => [[]]
  | c :: s' =>
      if ceqb c ","%char then [] :: split_commas s'
      else match split_commas s' with
           | t :: ts => (c :: t) :: ts
           | [] => [[c]]
           end
  end.

Definition tokens (mcu_list : cstring) : list cstring :=
  map trim (split_commas mcu_list).

(** A suffix of the shape [ M<digit>...] that holds no further space. *)
Definition is_arch_suffix (s : cstring) : bool :=
  match s with
  | sp :: m :: d :: rest =>
      ceqb sp " "%char && ceqb m "M"%char && isdigit d
      && negb (existsb (fun c => ceqb c " "%char) (m :: d :: rest))
  | _ => false
  end.

Fixpoint before_arch_suffix (family : cstring) : cstring :=
  match family with
  | [] => []
  | c :: family' =>
      if is_arch_suffix family then [] else c :: before_arch_suffix family'
  end.

Definition strip_arch_suffix (family : cstring) : cstring :=
  let base := before_arch_suffix family in
  if length base <? length family then trim_end base else family.

(** A character of a token against a character of the family: case is
    ignored, and a lower case [x] in the token matches any character. *)
Definition char_matches (t f : ascii) : bool :=
  ceqb t "x"%char || ceqb (toupper t) (toupper f).

Definition chars_match (tok fam : cstring) : bool :=
  forallb (fun p => char_matches (fst p) (snd p)) (combine tok fam).

Definition has_star (tok : cstring) : bool := existsb (fun c => ceqb c "*"%char) tok.

(** Pass 1: a token with no [*], as long as the family, that matches it. *)
Definition exact_accepts (family tok : cstring) : bool :=
  negb (has_star tok) && (length tok =? length family) && chars_match tok family.

(** Pass 2: a token whose [*] is its last character; [*] alone matches every
    family, any other token a family that is longer than the prefix before
    the [*] and starts with a match of it. *)
Definition prefix_accepts (family tok : cstring) : bool :=
  match strchr tok "*"%char with
  | Some i =>
      (S i =? length tok)
      && ((i =? 0)
          || ((i <? length family) && chars_match (firstn i tok) (firstn i family)))
  | None => false
  end.

Definition spec_matches (mcu_family list : cstring) : bool :=
  let family := strip_arch_suffix mcu_family in
  if existsb (exact_accepts family) (tokens list) then true
  else existsb (prefix_accepts family) (tokens list).

(** The conditions under which the function is called: the family is not
    empty and has no white space at either end. *)
Definition family_ok (mcufamily : cstring) : bool :=
  (0 <? length mcufamily) && gt_space (char_at mcufamily 0)
  && gt_space (char_at mcufamily (length mcufamily - 1)).

(** A name of ASCII characters: no byte from 0x80 on. *)
Definition ascii_only (s : cstring) : Prop :=
  Forall (fun c => code c < 128) s.

(** A list of printable ASCII characters in which a [*] is the last character
    of its token. *)
Definition printable (mcu_list : cstring) : Prop :=
  Forall (fun c => 32 <= code c < 128) mcu_list.

Definition star_last (tok : cstring) : Prop :=
  forall i, strchr tok "*"%char = Some i -> S i = length tok.

(** The two conditions on the list, as checks that compute. *)
Definition printable_check (mcu_list : cstring) : bool :=
  forallb (fun c => (32 <=? code c) && (code c <? 128)) mcu_list.

Definition star_last_check (tok : cstring) : bool :=
  match strchr tok "*"%char with
  | Some i => S i =? length tok
  | None => true
  end.

(** ** What the loops of the matcher see and test *)

(** The item in front of the first comma and the list behind that comma. *)

Fixpoint before_comma (l : cstring) : cstring :=
  match l with
  | [] => []
  | c :: l' => if ceqb c ","%char then [] else c :: before_comma l'
  end.

Fixpoint after_comma (l : cstring) : option cstring :=
  match l with
  | [] => None
  | c :: l' => if ceqb c ","%char then Some l' else after_comma l'
  end.

(** The text from the first comma on. *)
Definition from_comma (l : cstring) : cstring :=
  match after_comma l with
  | Some r => ","%char :: r
  | None => []
  end.

(** What the first loop tests on a token. *)
Definition code_exact (mcufamily : cstring) (namelen : nat) (tok : cstring) : bool :=
  (length tok =? namelen) && (length tok <? matchname_size)
  && architecture_match tok mcufamily.

(** What the second loop tests on a token. *)
Definition code_prefix (mcufamily : cstring) (namelen : nat) (tok : cstring) : bool :=
  match strchr tok "*"%char with
  | Some w =>
      (w =? 0)
      || ((w <? namelen) && (w <? matchname_size)
          && architecture_match (firstn w tok) (firstn w mcufamily))
  | None => false
  end.

(** The offset at which [mcu_match] cuts the name, if it does. *)
Definition code_strip_index (f : cstring) : option nat :=
  match strrchr f " "%char with
  | Some i =>
      if ceqb (char_at f (i + 1)) "M"%char && isdigit (char_at f (i + 2))
      then Some i else None
  | None => None
  end.

(** ** Sessions and inputs of the examples *)

(** The session after [bmscript_load("STM32F407", "M4")] and the session
    after [bmscript_load("LPC1114", "M0")], each from the initial state. *)
Definition stm32f407_session : session :=
  Eval vm_compute in
    match bmscript_load (cstr "STM32F407") (Some (cstr "M4")) session_init with
    | Ok (_, st) => st
    | _ => session_init
    end.

Definition lpc1114_session : session :=
  Eval vm_compute in
    match bmscript_load (cstr "LPC1114") (Some (cstr "M0")) session_init with
    | Ok (_, st) => st
    | _ => session_init
    end.

(** The script [swo_generic] as it is compiled for every MCU. *)
Definition swo_generic_script : SCRIPT :=
  Eval vm_compute in
    match find_script (cstr "swo_generic") stm32f407_session with
    | Some s => s
    | None => {| script_name := []; script_lines := [] |}
    end.

Definition swo_params : option (list Z) := Some [2; 15; 115200; 4294967295]%Z.

(** The eight commands of [swo_generic] for the parameters [swo_params]. *)
Definition swo_generic_commands : list cstring := [
  cstr "set {int}0xe000edfc = 0x1000000\n";
  cstr "set {int}0xe0040004 = 0x1\n";
  cstr "set {int}0xe00400f0 = 0x2\n";
  cstr "set {int}0xe0040010 = 0xf\n";
  cstr "set {int}0xe0040304 = 0x0\n";
  cstr "set {int}0xe0000fb0 = 0xc5acce55\n";
  cstr "set {int}0xe0000e80 = 0x11\n";
  cstr "set {int}0xe0000e40 = 0x0\n"
].

(** The register table that [bmscript_load] builds for STM32F407. *)
Definition stm32f407_registers : list REG_DEF :=
  Eval vm_compute in
    match load_registers (cstr "STM32F407") register_defaults with
    | Ok regs => regs
    | _ => []
    end.


Definition fifty_letters : cstring := repeat "A"%char 50.

(** A session with one script, of a byte-wide AndNot and a 16-bit Or. *)
Definition demo_session : session :=
  add_script
    {| script_name := cstr "demo";
       script_lines :=
         [ {| line_address := 256; line_value := 4660; line_size := 1;
              line_oper := "~"%char |};
           {| line_address := 258; line_value := 74565; line_size := 2;
              line_oper := "|"%char |} ] |}
    session_init.

(** ** Notions for the properties of the matcher, the parser and the cursor *)

(** A change of case: a function on characters that [toupper] does not see,
    and that neither makes nor removes a space or a character [<= ' ']. *)
Definition case_change (g : ascii -> ascii) : Prop :=
  (forall c, toupper (g c) = toupper c) /\
  (forall c, gt_space (g c) = gt_space c) /\
  (forall c, ceqb (g c) " "%char = ceqb c " "%char) /\
  g NUL = NUL.

(** A pointer into the string [s]: [s + k] for a [k] up to its length. *)
Definition points_into (p s : cstring) : Prop := exists k, p = skipn k s.

(** The text [0x] and the digits of [sprintf("%x", v)]. *)
Definition hex_text (v : Z) : cstring := cstr "0x" ++ fmt_x v.

(** A character that ends a number: no digit of any base. *)
Definition ends_number (rest : cstring) : bool :=
  match digit_val (deref rest) with
  | Some _ => false
  | None => true
  end.

(** The operator and the value that the parser gives the text of an
    operator of the formatter: [&= ~] is read as [&] with the value
    inverted. *)
Definition parsed_oper (o : operator) : ascii :=
  match o with
  | Store => "="%char
  | Or => "|"%char
  | And | AndNot => "&"%char
  end.

Definition parsed_value (o : operator) (v : Z) : Z :=
  match o with
  | AndNot => not32 v
  | _ => wrap32 v
  end.

(** What the first call for the script [s] returns and the session it leaves:
    the first instruction, if the script has one, and the cursor behind it. *)
Definition first_call (s : SCRIPT) (st : session) : option SCRIPTLINE * session :=
  (nth_error (script_lines s) 0,
   at_cursor (script_name s) (script_lines s) (Nat.min 1 (script_count s)) st).

(** ** The hard-coded tables for an arbitrary MCU *)

(** What [mcu_match] returns for a name and a list that it accepts, by the
    tokens of the list. *)
Definition match_tokens (f l : cstring) : bool :=
  existsb (code_exact f (length (strip_arch_suffix f))) (tokens l)
  || existsb (code_prefix f (length (strip_arch_suffix f))) (tokens l).

Definition list_checked (l : cstring) : bool :=
  printable_check l && forallb star_last_check (tokens l).

Definition reg_list (d : REG_DEF) : cstring :=
  match reg_mcu_list d with Some l => l | None => [] end.

(** The loops of [bmscript_load] over the two tables, with the results of
    [mcu_match] given by functions on the lists: [m] for the MCU name, [a]
    for the MCU name or the architecture. *)
Fixpoint registers_with (m : cstring -> bool) (defaults : list REG_DEF) : list REG_DEF :=
  match defaults with
  | [] => []
  | d :: defaults' =>
      let rest := registers_with m defaults' in
      if m (reg_list d)
      then {| reg_name := reg_name d; reg_address := reg_address d;
              reg_size := reg_size d; reg_mcu_list := None |} :: rest
      else rest
  end.

Fixpoint scripts_with (a : cstring -> bool) (registers : list REG_DEF)
    (defaults : list SCRIPT_DEF) (st : session) : outcome session :=
  match defaults with
  | [] => Ok st
  | d :: defaults' =>
      st' <- (if a (def_mcu_list d) then
                let head := skipleading (def_script d) in
                lines <- parse_script (length head) head registers ;;
                Ok (add_script {| script_name := def_name d; script_lines := lines |} st)
              else Ok st) ;;
      scripts_with a registers defaults' st'
  end.

Definition load_with (m a : cstring -> bool) : outcome session :=
  scripts_with a (registers_with m register_defaults) script_defaults session_init.

(** The lists of the two tables, each once. *)
Definition table_lists : list cstring :=
  Eval vm_compute in
    nodup (list_eq_dec ascii_dec)
      (map reg_list register_defaults ++ map def_mcu_list script_defaults).

(** A function on the lists of the tables, from its values in the order of
    [table_lists]. *)
Definition by_table (bs : list bool) (l : cstring) : bool :=
  match find (fun p => streq (fst p) l) (combine table_lists bs) with
  | Some p => snd p
  | None => false
  end.

(** Every token of [l1] is a token of [l2]. *)
Definition tokens_subset (l1 l2 : cstring) : bool :=
  forallb (fun t => existsb (streq t) (tokens l2)) (tokens l1).

(** The characters of a token in front of its [*]. *)
Fixpoint before_star (tok : cstring) : cstring :=
  match tok with
  | [] => []
  | c :: tok' => if ceqb c "*"%char then [] else c :: before_star tok'
  end.

(** Two tokens that no name matches both: at some place both have a
    character other than the wildcard [x], and the two differ by more than
    case. *)
Definition clash (t1 t2 : cstring) : bool :=
  existsb (fun p => negb (ceqb (fst p) "x"%char) && negb (ceqb (snd p) "x"%char)
                    && negb (ceqb (toupper (fst p)) (toupper (snd p))))
          (combine (before_star t1) (before_star t2)).

Definition lists_clash (l1 l2 : cstring) : bool :=
  forallb (fun t1 => forallb (clash t1) (tokens l2)) (tokens l1).

(** The places in [table_lists] of the list [*], of the pairs of lists of
    which the first has no token that the second has not, and of the pairs
    of lists whose tokens clash. *)
Definition table_places : list nat := seq 0 (length table_lists).

Definition table_list (i : nat) : cstring := nth i table_lists [].

Definition star_places : list nat :=
  Eval vm_compute in filter (fun i => streq (table_list i) (cstr "*")) table_places.

Definition subset_places : list (nat * nat) :=
  Eval vm_compute in
    filter (fun p => tokens_subset (table_list (fst p)) (table_list (snd p)))
           (list_prod table_places table_places).

Definition clash_places : list (nat * nat) :=
  Eval vm_compute in
    filter (fun p => lists_clash (table_list (fst p)) (table_list (snd p)))
           (list_prod table_places table_places).

(** The values that [mcu_match] can give the lists of the tables for one
    name, in the order of [table_lists]: the list [*] matches, a list matches
    when a list of some of its tokens does, and two lists whose tokens clash
    do not both match. *)
Definition consistent (bs : list bool) : bool :=
  forallb (fun i => nth i bs false) star_places
  && forallb (fun p => implb (nth (fst p) bs false) (nth (snd p) bs false)) subset_places
  && forallb (fun p => negb (nth (fst p) bs false && nth (snd p) bs false)) clash_places.

Fixpoint all_vectors (n : nat) : list (list bool) :=
  match n with
  | O => [[]]
  | S n' => map (cons false) (all_vectors n') ++ map (cons true) (all_vectors n')
  end.

Definition line_eqb (x y : SCRIPTLINE) : bool :=
  (line_address x =? line_address y)%Z && (line_value x =? line_value y)%Z
  && (line_size x =? line_size y)%Z && ceqb (line_oper x) (line_oper y).

Fixpoint lines_eqb (xs ys : list SCRIPTLINE) : bool :=
  match xs, ys with
  | [], [] => true
  | x :: xs', y :: ys' => line_eqb x y && lines_eqb xs' ys'
  | _, _ => false
  end.

(** The search for [name] finds a script, with the given instructions where
    some are given. *)
Definition finds (name : cstring) (lines : option (list SCRIPTLINE)) (st : session)
  : bool :=
  match find_script name st, lines with
  | Some s, Some ls => lines_eqb (script_lines s) ls
  | Some _, None => true
  | None, _ => false
  end.

(** The instruction [$d = $s]. *)
Definition copy_parameter (d s : Z) : SCRIPTLINE :=
  {| line_address := SCRIPT_MAGIC + d; line_value := SCRIPT_MAGIC + s;
     line_size := 4; line_oper := "="%char |}.

(** The scripts of [script_defaults] for the Cortex M0. *)
Definition m0_list : cstring := cstr "[M0]".

(** What is checked of a load: the list has the two generic scripts, and
    where the list [[M0]] matches, the scripts for the Cortex M0 are in front
    of them. *)
Definition session_checked (m0 : bool) (st : session) : bool :=
  (2 <=? length (scripts st))
  && finds (cstr "swo_generic") None st
  && finds (cstr "swo_channels") None st
  && implb m0
       (finds (cstr "swo_generic") (Some [copy_parameter 3 2]) st
        && finds (cstr "swo_channels") (Some [copy_parameter 1 0]) st).

(** The results for the MCU name with, for the architecture, a match of the
    list [[M0]] or none. *)
Definition with_arch (m : cstring -> bool) (am0 : bool) (l : cstring) : bool :=
  m l || (am0 && streq l m0_list).

Definition load_checked (m : cstring -> bool) (am0 : bool) : bool :=
  match load_with m (with_arch m am0) with
  | Ok st => session_checked (with_arch m am0 m0_list) st
  | _ => false
  end.

Definition both_checked (bs : list bool) : bool :=
  load_checked (by_table bs) false && load_checked (by_table bs) true.


(** The lists of the tables that a name in brackets can match: [*] and
    [[M0]]. The tokens of the others clash with the bracket. *)
Definition bracket_checked (l : cstring) : bool :=
  streq l (cstr "*") || streq l m0_list || forallb (clash (cstr "[")) (tokens l).

(** The characters in front of the [*] of a token that matches are matched by
    the name, one by one. *)
Definition lit_match (lit f : cstring) : bool :=
  (length lit <=? length f) && chars_match lit f.

(** The name that [bmscript_load] makes of the architecture. *)
Definition arch_name_of (arch : option cstring) : cstring :=
  match arch with
  | Some ((_ :: _) as a) => cstr "[" ++ a ++ cstr "]"
  | _ => []
  end.

Definition arch_matches (arch_name l : cstring) : bool :=
  match arch_name with
  | [] => false
  | _ :: _ => match_tokens arch_name l
  end.

(** The session [demo_session] with the cursor in its script, at instruction
    [i]. *)
Definition demo_running (i : nat) : session :=
  at_cursor (cstr "demo")
    [ {| line_address := 256; line_value := 4660; line_size := 1;
         line_oper := "~"%char |};
      {| line_address := 258; line_value := 74565; line_size := 2;
         line_oper := "|"%char |} ] i demo_session.

(** * Properties *)

Arguments le_space : simpl never.
Arguments gt_space : simpl never.
Arguments isdigit : simpl never.
Arguments isalnum : simpl never.
Arguments toupper : simpl never.
Arguments tolower : simpl never.

(** ** String comparison *)

Lemma ceqb_eq (a b : ascii) : ceqb a b = true <-> a = b.
Proof. apply Ascii.eqb_eq. Qed.

Lemma ceqb_refl (a : ascii) : ceqb a a = true.
Proof. apply Ascii.eqb_refl. Qed.

Lemma ceqb_neq (a b : ascii) : ceqb a b = false <-> a <> b.
Proof. apply Ascii.eqb_neq. Qed.

Lemma streq_eq (a b : cstring) : streq a b = true <-> a = b.
Proof.
  revert b; induction a as [|x a IH]; intros [|y b]; simpl; try (split; congruence).
  rewrite andb_true_iff, ceqb_eq, IH. split.
  - intros [-> ->]; reflexivity.
  - intros H; injection H; auto.
Qed.

Lemma streq_refl (a : cstring) : streq a a = true.
Proof. apply streq_eq; reflexivity. Qed.

Lemma strieq_map (a b : cstring) :
  strieq a b = true <-> map tolower a = map tolower b.
Proof.
  revert b; induction a as [|x a IH]; intros [|y b]; simpl; try (split; congruence).
  rewrite andb_true_iff, ceqb_eq, IH. split.
  - intros [-> ->]; reflexivity.
  - intros H; injection H; auto.
Qed.

Lemma strieq_refl (a : cstring) : strieq a a = true.
Proof. apply strieq_map; reflexivity. Qed.

(** Names that agree up to case are looked up alike. *)
Lemma strieq_trans_eq (a b c : cstring) :
  strieq a b = true -> strieq a c = strieq b c.
Proof.
  intros H. apply strieq_map in H.
  destruct (strieq a c) eqn:Ha, (strieq b c) eqn:Hb; try reflexivity.
  - apply strieq_map in Ha. rewrite H in Ha. apply strieq_map in Ha. congruence.
  - apply strieq_map in Hb. rewrite <- H in Hb. apply strieq_map in Hb. congruence.
Qed.

(** ** The iterator *)

Lemma line_continue (name : option cstring) (n : cstring) (lines : list SCRIPTLINE)
    (i : nat) (st : session) :
  continues name n ->
  bmscript_line name (at_cursor n lines i st) =
    match nth_error lines i with
    | Some l => Ok (Some l, at_cursor n lines (i + 1) st)
    | None => if i =? length lines then Ok (None, at_cursor n lines i st) else AssertFail
    end.
Proof.
  intros Hc.
  assert (E : bmscript_line name (at_cursor n lines i st)
              = bmscript_line (Some n) (at_cursor n lines i st)).
  { destruct Hc as [-> | ->]; reflexivity. }
  rewrite E. unfold bmscript_line, at_cursor; simpl.
  rewrite streq_refl; simpl. unfold cache_count; simpl.
  destruct (nth_error lines i) as [l|] eqn:Hn.
  - assert (Hi : i < length lines) by (apply nth_error_Some; congruence).
    replace (i <=? length lines) with true by (symmetry; apply Nat.leb_le; lia).
    replace (i =? length lines) with false by (symmetry; apply Nat.eqb_neq; lia).
    reflexivity.
  - apply nth_error_None in Hn.
    destruct (i =? length lines) eqn:He.
    + apply Nat.eqb_eq in He. subst i. rewrite Nat.leb_refl. reflexivity.
    + apply Nat.eqb_neq in He.
      replace (i <=? length lines) with false by (symmetry; apply Nat.leb_gt; lia).
      reflexivity.
Qed.

Lemma line_lookup (name : cstring) (st : session) :
  looks_up name st ->
  bmscript_line (Some name) st =
    match find_script name st with
    | None => Ok (None, st)
    | Some s =>
        match script_lines s with
        | [] => Ok (None, at_cursor (script_name s) [] 0 st)
        | l :: _ => Ok (Some l, at_cursor (script_name s) (script_lines s) 1 st)
        end
    end.
Proof.
  unfold looks_up, bmscript_line. intros H; cbn -[find_script].
  assert (E : match cache_name (cache st) with
              | None => true
              | Some n => negb (streq name n)
              end = true).
  { destruct (cache_name (cache st)) as [n|]; [|reflexivity].
    destruct (streq name n) eqn:Hs; [|reflexivity].
    apply streq_eq in Hs. contradiction. }
  rewrite E. destruct (find_script name st) as [s|]; [|reflexivity].
  cbn. unfold cache_count; cbn. destruct (script_lines s) as [|l ls] eqn:Hl; reflexivity.
Qed.

Lemma find_script_set_cache (name : cstring) (c : REG_CACHE) (st : session) :
  find_script name (set_cache c st) = find_script name st.
Proof. reflexivity. Qed.

Lemma at_cursor_twice n lines i n' lines' i' st :
  at_cursor n lines i (at_cursor n' lines' i' st) = at_cursor n lines i st.
Proof. reflexivity. Qed.

Lemma at_cursor_clearcache n lines i st :
  at_cursor n lines i (bmscript_clearcache st) = at_cursor n lines i st.
Proof. reflexivity. Qed.

(** From the cursor at [i], [k] continuing calls yield the next instructions,
    and [None] from the end of the script on, where the cursor stays. *)
Lemma run_line_continue (name : option cstring) (n : cstring) (lines : list SCRIPTLINE) :
  continues name n ->
  forall k i st, i <= length lines ->
    run_line k name (at_cursor n lines i st) =
      Ok (map Some (firstn k (skipn i lines)) ++ repeat None (k - (length lines - i)),
          at_cursor n lines (Nat.min (i + k) (length lines)) st).
Proof.
  intros Hc. induction k as [|k IH]; intros i st Hi.
  - simpl. rewrite Nat.add_0_r, Nat.min_l by lia. reflexivity.
  - simpl. rewrite (line_continue name n lines i st Hc).
    destruct (nth_error lines i) as [l|] eqn:Hn.
    + assert (Hlt : i < length lines) by (apply nth_error_Some; congruence).
      cbn [bind]. rewrite (IH (i + 1) st) by lia. cbn [bind].
      assert (Hs : skipn i lines = l :: skipn (i + 1) lines).
      { clear -Hn. revert i Hn. induction lines as [|a lines IHl]; intros [|i] Hn;
          simpl in *; try discriminate.
        - injection Hn as ->. reflexivity.
        - apply IHl in Hn. exact Hn. }
      rewrite Hs. simpl.
      replace (k - (length lines - (i + 1))) with (S k - (length lines - i)) by lia.
      replace (Nat.min (i + 1 + k) (length lines)) with (Nat.min (i + S k) (length lines))
        by (f_equal; lia).
      reflexivity.
    + apply nth_error_None in Hn. assert (i = length lines) by lia. subst i.
      rewrite Nat.eqb_refl. cbn [bind].
      rewrite (IH (length lines) st) by lia. cbn [bind].
      rewrite skipn_all, !firstn_nil, !Nat.sub_diag, !Nat.sub_0_r.
      rewrite !Nat.min_r by lia. reflexivity.
Qed.

(** From a clear cache, calls with the exact name of the script that the
    search finds walk that script front to back. *)
Lemma run_line_fresh (st : session) (s : SCRIPT) :
  find_script (script_name s) st = Some s ->
  forall k,
    run_line (S k) (Some (script_name s)) (bmscript_clearcache st) =
      Ok (map Some (firstn (S k) (script_lines s)) ++ repeat None (S k - script_count s),
          at_cursor (script_name s) (script_lines s) (Nat.min (S k) (script_count s)) st).
Proof.
  intros Hf k. unfold script_count.
  cbn [run_line]. rewrite line_lookup by exact I.
  change (find_script (script_name s) (bmscript_clearcache st))
    with (find_script (script_name s) st).
  rewrite Hf. destruct (script_lines s) as [|l ls] eqn:Hl.
  - cbn [bind]. rewrite at_cursor_clearcache.
    rewrite (run_line_continue (Some (script_name s)) (script_name s) []
               (or_intror eq_refl)) by (simpl; lia).
    cbn [bind]. simpl. rewrite firstn_nil, Nat.sub_0_r, Nat.min_0_r. reflexivity.
  - cbn [bind]. rewrite at_cursor_clearcache.
    rewrite (run_line_continue (Some (script_name s)) (script_name s) (l :: ls)
               (or_intror eq_refl)) by (simpl; lia).
    cbn [bind]. simpl. rewrite Nat.sub_0_r. reflexivity.
Qed.

(** What a successful step of the iterator did: it returned the instruction
    under the cursor and moved the cursor by one. *)
Lemma line_some_inv (name : option cstring) (st st' : session) (l : SCRIPTLINE) :
  bmscript_line name st = Ok (Some l, st') ->
  exists n lines i,
    st' = at_cursor n lines (i + 1) st /\ nth_error lines i = Some l.
Proof.
  unfold bmscript_line. intros H.
  destruct (match name with
            | Some n => Ok n
            | None => match cache_name (cache st) with
                      | Some n => Ok n
                      | None => AssertFail
                      end
            end) as [nm| | |]; cbn [bind] in H; try discriminate.
  set (found := if match cache_name (cache st) with
                   | None => true
                   | Some n => negb (streq nm n)
                   end
                then match find_script nm st with
                     | None => None
                     | Some script =>
                         Some (set_cache {| cache_name := Some (script_name script);
                                            cache_lines := script_lines script;
                                            cache_index := 0 |} st)
                     end
                else Some st) in H.
  assert (Hst : forall st0, found = Some st0 ->
                 exists n, cache_name (cache st0) = Some n /\
                           root_name st0 = root_name st /\ scripts st0 = scripts st).
  { subst found. intros st0.
    destruct (cache_name (cache st)) as [n|] eqn:Hc.
    - destruct (negb (streq nm n)).
      + destruct (find_script nm st); [|discriminate].
        intros E; injection E as <-. eexists; repeat split.
      + intros E; injection E as <-. eauto.
    - destruct (find_script nm st); [|discriminate].
      intros E; injection E as <-. eexists; repeat split. }
  destruct found as [st0|]; [|discriminate].
  destruct (Hst st0 eq_refl) as (n & Hn & Hr & Hs).
  destruct (assert (cache_index (cache st0) <=? cache_count (cache st0)));
    cbn [bind] in H; try discriminate.
  destruct (cache_index (cache st0) =? cache_count (cache st0)); [discriminate|].
  destruct (nth_error (cache_lines (cache st0)) (cache_index (cache st0))) as [l0|] eqn:Hl;
    [|discriminate].
  injection H as <- <-.
  exists n, (cache_lines (cache st0)), (cache_index (cache st0)).
  split; [|exact Hl].
  unfold at_cursor, set_cache. rewrite Hn, Hr, Hs. reflexivity.
Qed.

(** The formatter moves the cursor exactly as the iterator does. *)
Lemma fmt_line_state (name : option cstring) (params : option (list Z))
    (st st' : session) (r : option cstring) :
  bmscript_line_fmt name params st = Ok (r, st') ->
  exists next, bmscript_line name st = Ok (next, st').
Proof.
  unfold bmscript_line_fmt. intros H.
  destruct (bmscript_line name st) as [[next st0]| | |]; cbn [bind] in H; try discriminate.
  exists next. f_equal. f_equal.
  destruct next as [l|]; [|congruence].
  destruct (operator_text (line_oper l)); cbn [bind] in H; try discriminate.
  destruct (is_param (line_address l)).
  - destruct (param_value params (Z.land (line_address l) 15)) as [a| | |];
      cbn [bind] in H; try discriminate.
    destruct (a =? 4294967295)%Z; [congruence|].
    destruct (is_param (line_value l)).
    + destruct (param_value params (Z.land (line_value l) 15)) as [v| | |];
        cbn [bind] in H; try discriminate.
      destruct (size_type (line_size l) v) as [[ty v']|]; congruence.
    + cbn [bind] in H.
      destruct (size_type (line_size l) (line_value l)) as [[ty v']|]; congruence.
  - cbn [bind] in H. destruct (is_param (line_value l)).
    + destruct (param_value params (Z.land (line_value l) 15)) as [v| | |];
        cbn [bind] in H; try discriminate.
      destruct (size_type (line_size l) v) as [[ty v']|]; congruence.
    + cbn [bind] in H.
      destruct (size_type (line_size l) (line_value l)) as [[ty v']|]; congruence.
Qed.

Lemma run_fmt_line_state (n : nat) (name : option cstring) (params : option (list Z)) :
  forall st st' r,
    run_fmt n name params st = Ok (r, st') ->
    exists ls, run_line n name st = Ok (ls, st').
Proof.
  induction n as [|n IH]; intros st st' r H; simpl in *.
  - injection H as <- <-. eauto.
  - destruct (bmscript_line_fmt name params st) as [[r0 st0]| | |] eqn:Hf;
      cbn [bind] in H; try discriminate.
    destruct (run_fmt n name params st0) as [[rs st1]| | |] eqn:Hr;
      cbn [bind] in H; try discriminate.
    injection H as <- <-.
    destruct (fmt_line_state _ _ _ _ _ Hf) as [next Hn].
    destruct (IH _ _ _ Hr) as [ls Hls].
    rewrite Hn. cbn [bind]. rewrite Hls. cbn [bind]. eauto.
Qed.

(** When the iterator is at its end, so is the formatter. *)
Lemma fmt_none (name : option cstring) (params : option (list Z)) (st : session) :
  bmscript_line name st = Ok (None, st) ->
  forall k, run_fmt k name params st = Ok (repeat None k, st).
Proof.
  intros H. induction k as [|k IH]; [reflexivity|].
  cbn [run_fmt]. unfold bmscript_line_fmt. rewrite H. cbn [bind].
  rewrite IH. reflexivity.
Qed.

Lemma run_fmt_add (a b : nat) (name : option cstring) (params : option (list Z)) :
  forall st r1 st1 r2 st2,
    run_fmt a name params st = Ok (r1, st1) ->
    run_fmt b name params st1 = Ok (r2, st2) ->
    run_fmt (a + b) name params st = Ok (r1 ++ r2, st2).
Proof.
  induction a as [|a IH]; intros st r1 st1 r2 st2 Ha Hb; simpl in *.
  - injection Ha as <- <-. exact Hb.
  - destruct (bmscript_line_fmt name params st) as [[r0 st0]| | |];
      cbn [bind] in *; try discriminate.
    destruct (run_fmt a name params st0) as [[rs st']| | |] eqn:Hr;
      cbn [bind] in *; try discriminate.
    injection Ha as <- <-.
    rewrite (IH _ _ _ _ _ Hr Hb). reflexivity.
Qed.

(** ** The script store *)

Lemma scripts_inserts (ss : list SCRIPT) (st : session) :
  scripts (inserts ss st) = rev ss ++ scripts st.
Proof.
  revert st; induction ss as [|s ss IH]; intros st; simpl; [reflexivity|].
  unfold inserts in IH. rewrite IH. simpl. rewrite <- app_assoc. reflexivity.
Qed.

Lemma find_skips_others {A : Type} (p : A -> bool) (pre rest : list A) :
  Forall (fun a => p a = false) pre ->
  find p (pre ++ rest) = find p rest.
Proof.
  induction 1 as [|a pre Ha _ IH]; simpl; [reflexivity|].
  rewrite Ha. exact IH.
Qed.

Lemma find_same_test {A : Type} (p q : A -> bool) (l : list A) :
  (forall a, p a = q a) -> find p l = find q l.
Proof.
  intros H. induction l as [|a l IH]; simpl; [reflexivity|].
  rewrite H, IH. reflexivity.
Qed.

(** C5. The store keeps the scripts in the order of insertion, the most
    recent first, and an insertion changes no earlier entry. When [s] is
    added after [s'] under the same name (and no script of that name is added
    after [s]), the iterator, started from a clear cursor with that name,
    yields the instructions of [s] from the first to the last, and nothing
    after them. *)
Theorem later_script_shadows_earlier :
  forall (st : session) (s' s : SCRIPT) (mid later : list SCRIPT),
    script_name s' = script_name s ->
    Forall (fun t => strieq (script_name s) (script_name t) = false) later ->
    let st1 := inserts later (add_script s (inserts mid (add_script s' st))) in
    scripts st1 = rev later ++ s :: rev mid ++ s' :: scripts st /\
    find_script (script_name s) st1 = Some s /\
    forall k, exists st2,
      run_line (script_count s + k) (Some (script_name s)) (bmscript_clearcache st1)
      = Ok (map Some (script_lines s) ++ repeat None k, st2).
Proof.
  intros st s' s mid later Hname Hlater st1.
  assert (Hs : scripts st1 = rev later ++ s :: rev mid ++ s' :: scripts st).
  { subst st1. rewrite scripts_inserts. cbn [add_script scripts].
    rewrite scripts_inserts. reflexivity. }
  assert (Hf : find_script (script_name s) st1 = Some s).
  { unfold find_script. rewrite Hs.
    rewrite find_skips_others by (apply Forall_rev; exact Hlater).
    simpl. rewrite strieq_refl. reflexivity. }
  split; [exact Hs|]. split; [exact Hf|].
  intros k. destruct (script_count s + k) as [|m] eqn:Hm.
  - assert (Hc : script_count s = 0) by lia. assert (k = 0) by lia. subst k.
    unfold script_count in Hc. apply length_zero_iff_nil in Hc. rewrite Hc.
    eexists. reflexivity.
  - rewrite (run_line_fresh st1 s Hf m). eexists. f_equal. f_equal.
    unfold script_count in *.
    rewrite <- Hm. rewrite firstn_all2 by lia. f_equal. f_equal. lia.
Qed.

Lemma later_script_shadows_earlier_witness :
  let old := {| script_name := cstr "memremap";
                script_lines := [ {| line_address := 1074036736; line_value := 2;
                                     line_size := 4; line_oper := "="%char |} ] |} in
  let new := {| script_name := cstr "memremap";
                script_lines := [ {| line_address := 1074036736; line_value := 5;
                                     line_size := 4; line_oper := "="%char |} ] |} in
  let other := {| script_name := cstr "swo_device"; script_lines := [] |} in
  let st1 := inserts [other] (add_script new (inserts [] (add_script old session_init))) in
  scripts st1 = rev [other] ++ new :: rev [] ++ old :: scripts session_init /\
  find_script (script_name new) st1 = Some new /\
  forall k, exists st2,
    run_line (script_count new + k) (Some (script_name new)) (bmscript_clearcache st1)
    = Ok (map Some (script_lines new) ++ repeat None k, st2).
Proof.
  intros old new other.
  apply (later_script_shadows_earlier session_init old new [] [other]).
  - reflexivity.
  - repeat constructor.
Defined.

(** ** The cursor and names that differ in case *)

(** C10. The cursor is on the script [s], somewhere between its first and its
    last instruction. A call with a name that differs from the script's name
    only in letter case looks the script up again, finds the same script and
    starts over: it returns the first instruction and leaves the cursor
    behind it. A call with exactly the script's name, or with no name,
    returns the instruction under the cursor and moves the cursor by one. *)
Theorem cursor_compares_name_case_sensitively :
  forall (st : session) (s : SCRIPT) (i : nat) (name' : cstring),
    find_script (script_name s) st = Some s ->
    cache st = {| cache_name := Some (script_name s); cache_lines := script_lines s;
                  cache_index := i |} ->
    0 < i < script_count s ->
    differ_in_case_only name' (script_name s) ->
    (find_script name' st = Some s /\
     bmscript_line (Some name') st
     = Ok (nth_error (script_lines s) 0,
           at_cursor (script_name s) (script_lines s) 1 st)) /\
    (forall name, continues name (script_name s) ->
       bmscript_line name st
       = Ok (nth_error (script_lines s) i,
             at_cursor (script_name s) (script_lines s) (i + 1) st)) /\
    nth_error (script_lines s) 0 <> None /\ nth_error (script_lines s) i <> None.
Proof.
  intros st s i name' Hf Hc Hi [Hne Hcase].
  assert (Hst : st = at_cursor (script_name s) (script_lines s) i st).
  { destruct st as [r ss c]. unfold at_cursor, set_cache; simpl in *. congruence. }
  assert (Hfind : find_script name' st = Some s).
  { rewrite <- Hf. unfold find_script. apply find_same_test. intros t.
    apply strieq_trans_eq. apply strieq_map. exact Hcase. }
  unfold script_count in Hi.
  split; [split; [exact Hfind|]|split; [|split]].
  - rewrite line_lookup.
    + rewrite Hfind. destruct (script_lines s) as [|l ls]; [simpl in Hi; lia|reflexivity].
    + unfold looks_up. rewrite Hc. simpl. exact Hne.
  - intros name Hcont. rewrite Hst at 1. rewrite line_continue by exact Hcont.
    destruct (nth_error (script_lines s) i) eqn:Hn; [reflexivity|].
    apply nth_error_None in Hn. lia.
  - intros Hn. apply nth_error_None in Hn. lia.
  - intros Hn. apply nth_error_None in Hn. lia.
Qed.

Lemma stm32f407_loaded :
  bmscript_load (cstr "STM32F407") (Some (cstr "M4")) session_init
  = Ok (3, stm32f407_session).
Proof. vm_compute. reflexivity. Qed.

Lemma lpc1114_loaded :
  bmscript_load (cstr "LPC1114") (Some (cstr "M0")) session_init
  = Ok (4, lpc1114_session).
Proof. vm_compute. reflexivity. Qed.

Lemma cursor_compares_name_case_sensitively_witness :
  let st := at_cursor (cstr "swo_generic") (script_lines swo_generic_script) 3
              stm32f407_session in
  (find_script (cstr "SWO_GENERIC") st = Some swo_generic_script /\
   bmscript_line (Some (cstr "SWO_GENERIC")) st
   = Ok (nth_error (script_lines swo_generic_script) 0,
         at_cursor (script_name swo_generic_script)
                   (script_lines swo_generic_script) 1 st)) /\
  (forall name, continues name (script_name swo_generic_script) ->
     bmscript_line name st
     = Ok (nth_error (script_lines swo_generic_script) 3,
           at_cursor (script_name swo_generic_script)
                     (script_lines swo_generic_script) (3 + 1) st)) /\
  nth_error (script_lines swo_generic_script) 0 <> None /\
  nth_error (script_lines swo_generic_script) 3 <> None.
Proof.
  intros st.
  apply (cursor_compares_name_case_sensitively st swo_generic_script 3
           (cstr "SWO_GENERIC")).
  - vm_compute. reflexivity.
  - reflexivity.
  - vm_compute. split; repeat constructor.
  - split; [discriminate | reflexivity].
Defined.

(** ** Missing parameters *)

(** C6. The iterator hands the formatter an instruction whose address is a
    parameter reference, and the parameter holds the marker 0xFFFFFFFF. Then
    the formatter returns nothing (result 0, no text), and the cursor is
    behind that instruction: a continuing call returns the instruction that
    follows, or the end of the script. *)
Theorem missing_parameter_skips_instruction :
  forall (name : option cstring) (params : option (list Z)) (st st' : session)
         (l : SCRIPTLINE),
    bmscript_line name st = Ok (Some l, st') ->
    operator_text (line_oper l) <> None ->
    is_param (line_address l) = true ->
    param_value params (Z.land (line_address l) 15) = Ok 4294967295%Z ->
    bmscript_line_fmt name params st = Ok (None, st') /\
    exists n lines i,
      nth_error lines i = Some l /\
      st' = at_cursor n lines (i + 1) st /\
      forall name', continues name' n ->
        bmscript_line name' st' =
          match nth_error lines (i + 1) with
          | Some l' => Ok (Some l', at_cursor n lines (i + 2) st)
          | None => Ok (None, st')
          end.
Proof.
  intros name params st st' l Hline Hop Hpar Hval. split.
  - unfold bmscript_line_fmt. rewrite Hline. cbn [bind].
    destruct (operator_text (line_oper l)); [|contradiction]. cbn [bind].
    rewrite Hpar, Hval. reflexivity.
  - destruct (line_some_inv _ _ _ _ Hline) as (n & lines & i & -> & Hn).
    exists n, lines, i. split; [exact Hn|]. split; [reflexivity|].
    intros name' Hc.
    rewrite (line_continue name' n lines (i + 1) st Hc).
    assert (Hi : i < length lines) by (apply nth_error_Some; congruence).
    destruct (nth_error lines (i + 1)) eqn:Hn1.
    + replace (i + 1 + 1) with (i + 2) by lia. reflexivity.
    + apply nth_error_None in Hn1.
      replace (i + 1 =? length lines) with true by (symmetry; apply Nat.eqb_eq; lia).
      reflexivity.
Qed.

Lemma missing_parameter_skips_instruction_witness :
  let name := Some (cstr "swo_generic") in
  let params := Some [2; 15; 115200; 4294967295]%Z in
  let l := {| line_address := 4294967283; line_value := 4294967282;
              line_size := 4; line_oper := "="%char |} in
  let st' := at_cursor (cstr "swo_generic") [l] 1 lpc1114_session in
  bmscript_line_fmt name params lpc1114_session = Ok (None, st') /\
  exists n lines i,
    nth_error lines i = Some l /\
    st' = at_cursor n lines (i + 1) lpc1114_session /\
    forall name', continues name' n ->
      bmscript_line name' st' =
        match nth_error lines (i + 1) with
        | Some l' => Ok (Some l', at_cursor n lines (i + 2) lpc1114_session)
        | None => Ok (None, st')
        end.
Proof.
  intros name params l st'.
  apply (missing_parameter_skips_instruction name params lpc1114_session st' l).
  - vm_compute. reflexivity.
  - discriminate.
  - vm_compute. reflexivity.
  - vm_compute. reflexivity.
Defined.

(** ** Running a script to its end and again *)

Lemma clearcache_at_cursor n lines i st :
  bmscript_clearcache (at_cursor n lines i st) = bmscript_clearcache st.
Proof. reflexivity. Qed.

Lemma clearcache_twice st :
  bmscript_clearcache (bmscript_clearcache st) = bmscript_clearcache st.
Proof. reflexivity. Qed.

(** The state in which a run to the end leaves the session, and the
    iterator's answer there. *)
Lemma run_to_end_state (name : cstring) (st st1 : session)
    (ls : list (option SCRIPTLINE)) :
  exact_name name st ->
  run_line (calls_to_end name st) (Some name) (bmscript_clearcache st) = Ok (ls, st1) ->
  bmscript_line (Some name) st1 = Ok (None, st1) /\
  bmscript_clearcache st1 = bmscript_clearcache st.
Proof.
  unfold exact_name, calls_to_end. intros Hex Hrun.
  destruct (find_script name st) as [s|] eqn:Hf.
  - assert (Hn : script_name s = name) by (apply Hex; reflexivity). subst name.
    rewrite (run_line_fresh st s Hf) in Hrun.
    assert (E : st1 = at_cursor (script_name s) (script_lines s)
                        (Nat.min (S (script_count s)) (script_count s)) st)
      by congruence.
    rewrite Nat.min_r in E by lia. subst st1. clear Hrun.
    split; [|reflexivity].
    rewrite (line_continue _ _ _ _ _ (or_intror eq_refl)).
    unfold script_count.
    replace (nth_error (script_lines s) (length (script_lines s))) with (@None SCRIPTLINE)
      by (symmetry; apply nth_error_None; lia).
    rewrite Nat.eqb_refl. reflexivity.
  - cbn [run_line] in Hrun. rewrite line_lookup in Hrun by exact I.
    change (find_script name (bmscript_clearcache st)) with (find_script name st) in Hrun.
    rewrite Hf in Hrun. cbn [bind] in Hrun. injection Hrun as _ <-.
    split; [|reflexivity].
    rewrite line_lookup by exact I.
    change (find_script name (bmscript_clearcache st)) with (find_script name st).
    rewrite Hf. reflexivity.
Qed.

(** For a name spelled exactly as the stored script's name, and any
    parameters: when the formatter is called from a clear cursor until the
    script is at its end, every further call returns nothing and leaves the
    cursor where it is. *)
Lemma format_ends_for_exact_name :
  forall (st : session) (name : cstring) (params : option (list Z))
         (r : list (option cstring)) (st1 : session),
    exact_name name st ->
    run_fmt (calls_to_end name st) (Some name) params (bmscript_clearcache st)
      = Ok (r, st1) ->
    (forall k, run_fmt k (Some name) params st1 = Ok (repeat None k, st1)) /\
    bmscript_line (Some name) st1 = Ok (None, st1).
Proof.
  intros st name params r st1 Hex Hrun.
  destruct (run_fmt_line_state _ _ _ _ _ _ Hrun) as [ls Hls].
  destruct (run_to_end_state name st st1 ls Hex Hls) as [Hend Hclear].
  split; [|exact Hend].
  intros k. apply fmt_none. exact Hend.
Qed.

(** The iterator changes nothing but the cursor. *)
Lemma line_keeps_store (name : option cstring) (st st' : session)
    (next : option SCRIPTLINE) :
  bmscript_line name st = Ok (next, st') ->
  bmscript_clearcache st' = bmscript_clearcache st.
Proof.
  unfold bmscript_line. intros H.
  destruct (match name with
            | Some n => Ok n
            | None => match cache_name (cache st) with
                      | Some n => Ok n
                      | None => AssertFail
                      end
            end) as [nm| | |]; cbn [bind] in H; try discriminate.
  set (found := if match cache_name (cache st) with
                   | None => true
                   | Some n => negb (streq nm n)
                   end
                then match find_script nm st with
                     | None => None
                     | Some script =>
                         Some (set_cache {| cache_name := Some (script_name script);
                                            cache_lines := script_lines script;
                                            cache_index := 0 |} st)
                     end
                else Some st) in H.
  assert (Hfound : forall st0, found = Some st0 ->
                               bmscript_clearcache st0 = bmscript_clearcache st).
  { subst found. intros st0.
    destruct (match cache_name (cache st) with
              | None => true
              | Some n => negb (streq nm n)
              end).
    - destruct (find_script nm st) as [s|]; [|discriminate].
      intros E; injection E as <-. reflexivity.
    - intros E; injection E as <-. reflexivity. }
  destruct found as [st0|].
  - specialize (Hfound st0 eq_refl).
    destruct (assert (cache_index (cache st0) <=? cache_count (cache st0)));
      cbn [bind] in H; try discriminate.
    destruct (cache_index (cache st0) =? cache_count (cache st0)).
    + injection H as _ <-. exact Hfound.
    + destruct (nth_error (cache_lines (cache st0)) (cache_index (cache st0)));
        [|discriminate].
      injection H as _ <-. exact Hfound.
  - injection H as _ <-. reflexivity.
Qed.

Lemma run_fmt_keeps_store (n : nat) (name : option cstring) (params : option (list Z)) :
  forall st st' r,
    run_fmt n name params st = Ok (r, st') ->
    bmscript_clearcache st' = bmscript_clearcache st.
Proof.
  induction n as [|n IH]; intros st st' r H; cbn [run_fmt] in H.
  - injection H as _ <-. reflexivity.
  - destruct (bmscript_line_fmt name params st) as [[r0 st0]| | |] eqn:Hf;
      cbn [bind] in H; try discriminate.
    destruct (run_fmt n name params st0) as [[rs st1]| | |] eqn:Hr;
      cbn [bind] in H; try discriminate.
    injection H as _ <-.
    destruct (fmt_line_state _ _ _ _ _ Hf) as [next Hn].
    rewrite (IH _ _ _ Hr). exact (line_keeps_store _ _ _ _ Hn).
Qed.

(** What holds of the replay for every name, with or without the letter case
    of the stored name, for every parameter vector and every number of calls:
    after [bmscript_clearcache] the same calls return the same results in the
    same order and leave the same cursor. *)
Lemma format_replays_after_clearcache :
  forall (st : session) (name : option cstring) (params : option (list Z)) (n : nat)
         (r : list (option cstring)) (st1 : session),
    run_fmt n name params (bmscript_clearcache st) = Ok (r, st1) ->
    run_fmt n name params (bmscript_clearcache st1) = Ok (r, st1).
Proof.
  intros st name params n r st1 Hrun.
  rewrite (run_fmt_keeps_store _ _ _ _ _ _ Hrun). exact Hrun.
Qed.

Lemma upper_case_call_restarts (st : session) (i : nat) :
  let c := at_cursor (cstr "swo_generic") (script_lines swo_generic_script) i
             stm32f407_session in
  st = bmscript_clearcache stm32f407_session \/ st = c ->
  bmscript_line_fmt (Some (cstr "SWO_GENERIC")) swo_params st
  = Ok (Some (cstr "set {int}0xe000edfc = 0x1000000\n"),
        at_cursor (cstr "swo_generic") (script_lines swo_generic_script) 1
          stm32f407_session).
Proof.
  intros c H. unfold bmscript_line_fmt.
  rewrite line_lookup.
  - replace (find_script (cstr "SWO_GENERIC") st) with (Some swo_generic_script)
      by (destruct H as [-> | ->]; vm_compute; reflexivity).
    destruct H as [-> | ->]; vm_compute; reflexivity.
  - destruct H as [-> | ->]; [exact I|]. simpl. discriminate.
Qed.

(** C9. The test that keeps the cursor compares the name with [strcmp],
    while the search for the script compares it with [stricmp]. After
    [bmscript_load("STM32F407", "M4")] the name SWO_GENERIC finds the script
    swo_generic, of eight instructions. With the name swo_generic nine calls
    of the formatter from a clear cursor return the eight commands and then
    nothing. With the name SWO_GENERIC the second call of [bmscript_line]
    with the same arguments returns the first instruction again, not the
    next one, and however many calls of the formatter are made, each returns
    the first command of the script: the script never completes, and there
    is no run to exhaustion to repeat after [bmscript_clearcache]. *)
Theorem format_upper_case_name_repeats_first_command :
  bmscript_load (cstr "STM32F407") (Some (cstr "M4")) session_init
    = Ok (3, stm32f407_session) /\
  find_script (cstr "SWO_GENERIC") stm32f407_session = Some swo_generic_script /\
  script_count swo_generic_script = 8 /\
  run_fmt 9 (Some (cstr "swo_generic")) swo_params
    (bmscript_clearcache stm32f407_session)
  = Ok (map Some swo_generic_commands ++ [None],
        at_cursor (cstr "swo_generic") (script_lines swo_generic_script) 8
          stm32f407_session) /\
  bmscript_line (Some (cstr "SWO_GENERIC")) (bmscript_clearcache stm32f407_session)
  = Ok (Some {| line_address := 3758157308; line_value := 16777216;
                line_size := 4; line_oper := "="%char |},
        at_cursor (cstr "swo_generic") (script_lines swo_generic_script) 1
          stm32f407_session) /\
  bmscript_line (Some (cstr "SWO_GENERIC"))
    (at_cursor (cstr "swo_generic") (script_lines swo_generic_script) 1
       stm32f407_session)
  = Ok (Some {| line_address := 3758157308; line_value := 16777216;
                line_size := 4; line_oper := "="%char |},
        at_cursor (cstr "swo_generic") (script_lines swo_generic_script) 1
          stm32f407_session) /\
  forall n, exists st',
    run_fmt n (Some (cstr "SWO_GENERIC")) swo_params
      (bmscript_clearcache stm32f407_session)
    = Ok (repeat (Some (cstr "set {int}0xe000edfc = 0x1000000\n")) n, st').
Proof.
  split; [exact stm32f407_loaded|].
  split; [vm_compute; reflexivity|].
  split; [reflexivity|].
  split; [vm_compute; reflexivity|].
  split; [vm_compute; reflexivity|].
  split; [vm_compute; reflexivity|].
  assert (G : forall n st i,
             st = bmscript_clearcache stm32f407_session \/
             st = at_cursor (cstr "swo_generic") (script_lines swo_generic_script) i
                    stm32f407_session ->
             exists st',
               run_fmt n (Some (cstr "SWO_GENERIC")) swo_params st
               = Ok (repeat (Some (cstr "set {int}0xe000edfc = 0x1000000\n")) n, st')).
  { induction n as [|n IH]; intros st i H.
    - eexists. reflexivity.
    - cbn [run_fmt]. rewrite (upper_case_call_restarts st i H). cbn [bind].
      destruct (IH _ 1 (or_intror eq_refl)) as [st' Hst']. rewrite Hst'.
      eexists. reflexivity. }
  intros n. apply (G n _ 0). left. reflexivity.
Qed.

(** ** The commands of swo_generic *)

Lemma load_from_unnamed_root (mcu : cstring) (arch : option cstring) (st : session) :
  root_name st = None ->
  bmscript_load mcu arch st = bmscript_load mcu arch session_init.
Proof. unfold bmscript_load. intros ->. reflexivity. Qed.

(** C1 (amended). After [bmscript_load("STM32F407", "M4")] with no support
    file, successive calls of the formatter for swo_generic with the
    parameters 2, 15, 115200 and 0xFFFFFFFF return the eight commands of
    [swo_generic_commands], one per call and in this order, and no command
    after them. The addresses are printed by [%x], in lower case. *)
Theorem swo_generic_for_stm32f407 :
  forall st0 : session,
    root_name st0 = None ->
    exists st,
      bmscript_load (cstr "STM32F407") (Some (cstr "M4")) st0 = Ok (3, st) /\
      forall k, exists st',
        run_fmt (8 + k) (Some (cstr "swo_generic"))
          (Some [2; 15; 115200; 4294967295]%Z) st
        = Ok (map Some swo_generic_commands ++ repeat None k, st').
Proof.
  intros st0 H0. exists stm32f407_session. split.
  - rewrite (load_from_unnamed_root _ _ _ H0). exact stm32f407_loaded.
  - intros k.
    exists (at_cursor (cstr "swo_generic") (script_lines swo_generic_script) 8
              stm32f407_session).
    apply run_fmt_add with
      (st1 := at_cursor (cstr "swo_generic") (script_lines swo_generic_script) 8
                stm32f407_session).
    + vm_compute. reflexivity.
    + apply fmt_none. vm_compute. reflexivity.
Qed.

Lemma swo_generic_for_stm32f407_witness :
  exists st,
    bmscript_load (cstr "STM32F407") (Some (cstr "M4")) session_init = Ok (3, st) /\
    forall k, exists st',
      run_fmt (8 + k) (Some (cstr "swo_generic"))
        (Some [2; 15; 115200; 4294967295]%Z) st
      = Ok (map Some swo_generic_commands ++ repeat None k, st').
Proof.
  apply (swo_generic_for_stm32f407 session_init). reflexivity.
Defined.

(** C1, counterexample. The first call returns the address of SCB_DEMCR in
    lower case, not in upper case as the specification writes it. *)
Lemma swo_generic_first_command_lower_case :
  exists st',
    bmscript_load (cstr "STM32F407") (Some (cstr "M4")) session_init
      = Ok (3, stm32f407_session) /\
    bmscript_line_fmt (Some (cstr "swo_generic"))
      (Some [2; 15; 115200; 4294967295]%Z) stm32f407_session
      = Ok (Some (cstr "set {int}0xe000edfc = 0x1000000\n"), st') /\
    cstr "set {int}0xe000edfc = 0x1000000\n"
      <> cstr "set {int}0xE000EDFC = 0x1000000\n".
Proof.
  eexists. split; [exact stm32f407_loaded|]. split.
  - vm_compute. reflexivity.
  - discriminate.
Qed.

(** ** Register names *)

(** C3. The register lookup of the parser compares the identifier with the
    start of each name, not with the whole name. For STM32F407 no register is
    named GPIOB, and yet the line [GPIOB |= 1] is parsed without an error:
    the identifier resolves to GPIOB_MODER, the first register whose name
    starts with it. *)
Theorem identifier_resolves_by_prefix :
  load_registers (cstr "STM32F407") register_defaults = Ok stm32f407_registers /\
  (forall r, In r stm32f407_registers -> reg_name r <> cstr "GPIOB") /\
  parseline (cstr "GPIOB |= 1") stm32f407_registers
  = Ok ([], {| line_address := 1073873920; line_value := 1; line_size := 4;
               line_oper := "|"%char |}) /\
  lookup_register (cstr "GPIOB_MODER") 11 stm32f407_registers
  = Some {| reg_name := cstr "GPIOB_MODER"; reg_address := 1073873920;
            reg_size := 4; reg_mcu_list := None |}.
Proof.
  split; [vm_compute; reflexivity|].
  split; [|split; vm_compute; reflexivity].
  intros r Hr. unfold stm32f407_registers in Hr. simpl in Hr.
  repeat (destruct Hr as [<- | Hr]; [vm_compute; discriminate|]).
  contradiction.
Qed.

(** ** Loading twice *)

Lemma load_scripts_root (mcu arch_name : cstring) (registers : list REG_DEF) :
  forall defaults st st',
    load_scripts mcu arch_name registers defaults st = Ok st' ->
    root_name st' = root_name st.
Proof.
  induction defaults as [|d defaults IH]; intros st st' H; simpl in H.
  - injection H as <-. reflexivity.
  - destruct (script_applies mcu arch_name (def_mcu_list d)) as [a| | |];
      cbn [bind] in H; try discriminate.
    destruct a.
    + destruct (parse_script _ _ registers) as [lines| | |];
        cbn [bind] in H; try discriminate.
      rewrite (IH _ _ H). reflexivity.
    + cbn [bind] in H. exact (IH _ _ H).
Qed.

(** No call of [bmscript_load] gives the root a name: from the initial
    session on, the name in the root is NULL. *)
Lemma load_leaves_root_unnamed (mcu : cstring) (arch : option cstring)
    (st st' : session) (n : nat) :
  root_name st = None ->
  bmscript_load mcu arch st = Ok (n, st') ->
  root_name st' = None.
Proof.
  unfold bmscript_load. intros Hr. rewrite Hr.
  destruct (load_registers mcu register_defaults) as [registers| | |];
    cbn [bind]; try discriminate.
  match goal with
  | |- context [bind ?m _] => destruct m as [arch_name| | |]
  end; cbn [bind]; try discriminate.
  destruct (load_scripts mcu arch_name registers script_defaults (bmscript_clear st))
    as [st2| | |] eqn:Hl; cbn [bind]; try discriminate.
  intros H; injection H as _ <-.
  rewrite (load_scripts_root _ _ _ _ _ _ Hl). reflexivity.
Qed.

(** C8. [bmscript_load] never stores the MCU name in the root, so a second
    call for the same MCU does not return early: it clears the session and
    builds it again.
    - After the load for LPC1114 with the architecture M0 (4 scripts), a
      second load for LPC1114 with the architecture M4 returns 2 and leaves
      another list of scripts.
    - After the load for STM32F407 and one step of the iterator, which puts
      the cursor behind the first instruction of swo_generic, a second load
      with the same arguments leaves the session with a clear cursor, not
      the session it was called in. *)
Theorem second_load_builds_session_again :
  (bmscript_load (cstr "LPC1114") (Some (cstr "M0")) session_init
     = Ok (4, lpc1114_session) /\
   root_name lpc1114_session = None /\
   exists st2,
     bmscript_load (cstr "LPC1114") (Some (cstr "M4")) lpc1114_session = Ok (2, st2) /\
     scripts st2 <> scripts lpc1114_session) /\
  (exists (l : SCRIPTLINE) (st2 : session),
     bmscript_load (cstr "STM32F407") (Some (cstr "M4")) session_init
       = Ok (3, stm32f407_session) /\
     root_name stm32f407_session = None /\
     bmscript_line (Some (cstr "swo_generic")) stm32f407_session = Ok (Some l, st2) /\
     cache_index (cache st2) = 1 /\
     bmscript_load (cstr "STM32F407") (Some (cstr "M4")) st2
       = Ok (3, stm32f407_session) /\
     cache stm32f407_session = cache_clear /\
     st2 <> stm32f407_session).
Proof.
  split.
  - split; [exact lpc1114_loaded|]. split; [reflexivity|].
    eexists. split; [vm_compute; reflexivity | discriminate].
  - eexists. eexists. split; [exact stm32f407_loaded|].
    split; [reflexivity|]. split; [vm_compute; reflexivity|].
    split; [reflexivity|]. split; [vm_compute; reflexivity|].
    split; [reflexivity|]. discriminate.
Qed.

(** ** Widths, operators and the rendered command *)

Lemma session_init_compiled : session_compiled session_init.
Proof. split; constructor. Qed.

(** The operation part, with the [invert] flag written as the exclusive or
    of its two sources. *)
Lemma parse_operation_eq (line : cstring) :
  parse_operation line =
    let op := deref (skipleading line) in
    let l3 := after_operator line in
    let tilde := ceqb (deref l3) "~"%char in
    if is_operator op then
      Ok (if ceqb op "~"%char then "&"%char else op,
          xorb (ceqb op "~"%char) tilde,
          if tilde then skipleading (tl l3) else l3)
    else AssertFail.
Proof.
  unfold parse_operation, after_operator. cbv zeta.
  destruct (is_operator (deref (skipleading line))); cbn [assert bind]; [|reflexivity].
  destruct (ceqb (deref (tl (skipleading line))) "="%char);
    destruct (ceqb (deref (skipleading line)) "~"%char);
    match goal with
    | |- context [ceqb (deref ?l) "~"%char] => destruct (ceqb (deref l) "~"%char)
    end; reflexivity.
Qed.

Lemma parse_operation_oper (line : cstring) (oper : ascii) (invert : bool)
    (rest : cstring) :
  parse_operation line = Ok (oper, invert, rest) ->
  oper = "="%char \/ oper = "|"%char \/ oper = "&"%char.
Proof.
  rewrite parse_operation_eq. cbv zeta. unfold is_operator.
  destruct (ceqb (deref (skipleading line)) "="%char) eqn:E1;
    [apply ceqb_eq in E1; rewrite E1; cbn; intros H; injection H as <- _ _; auto|].
  destruct (ceqb (deref (skipleading line)) "|"%char) eqn:E2;
    [apply ceqb_eq in E2; rewrite E2; cbn; intros H; injection H as <- _ _; auto|].
  destruct (ceqb (deref (skipleading line)) "&"%char) eqn:E3;
    [apply ceqb_eq in E3; rewrite E3; cbn; intros H; injection H as <- _ _; auto|].
  destruct (ceqb (deref (skipleading line)) "~"%char) eqn:E4;
    [cbn; intros H; injection H as <- _ _; auto|].
  cbn. discriminate.
Qed.

Lemma parse_source_oper (oper : ascii) (invert : bool) (line rest : cstring)
    (oper' : ascii) (v : Z) :
  oper = "="%char \/ oper = "|"%char \/ oper = "&"%char ->
  parse_source oper invert line = Ok (oper', v, rest) ->
  operator_of oper' <> None.
Proof.
  unfold parse_source. intros Hop.
  destruct (ceqb (deref line) "$"%char).
  - destruct (param_ref line) as [[p r]| | |]; cbn [bind]; try discriminate.
    destruct (assert (negb invert || ceqb oper "&"%char)); cbn [bind]; try discriminate.
    intros H; injection H as <- _ _.
    destruct Hop as [-> | [-> | ->]]; destruct invert; discriminate.
  - destruct (strtoul line) as [v0 r]. intros H; injection H as <- _ _.
    destruct Hop as [-> | [-> | ->]]; discriminate.
Qed.

Lemma parse_destination_size (line rest : cstring) (registers : list REG_DEF)
    (a sz : Z) :
  Forall (fun r => width_ok (reg_size r)) registers ->
  parse_destination line registers = Ok (a, sz, rest) ->
  width_ok sz.
Proof.
  unfold parse_destination, width_ok. intros Hregs.
  destruct (isdigit (deref line)).
  - destruct (strtoul line) as [v r]. intros H; injection H as _ <- _. auto.
  - destruct (ceqb (deref line) "$"%char).
    + destruct (param_ref line) as [[p r]| | |]; cbn [bind]; try discriminate.
      intros H; injection H as _ <- _. auto.
    + destruct (lookup_register line (ident_len line) registers) as [r|] eqn:Hl;
        [|discriminate].
      intros H; injection H as _ <- _.
      apply find_some in Hl. destruct Hl as [Hin _].
      rewrite Forall_forall in Hregs. exact (Hregs r Hin).
Qed.

(** What the parser returns is a compiled instruction. *)
Lemma parseline_compiled (line rest : cstring) (registers : list REG_DEF)
    (l : SCRIPTLINE) :
  Forall (fun r => width_ok (reg_size r)) registers ->
  parseline line registers = Ok (rest, l) ->
  compiled l.
Proof.
  unfold parseline. cbv zeta. intros Hregs.
  match goal with
  | |- context [parse_destination ?l0 registers] =>
      destruct (parse_destination l0 registers) as [[[a sz] l1]| | |] eqn:Hd
  end; cbn [bind]; try discriminate.
  destruct (parse_operation l1) as [[[op inv] l2]| | |] eqn:Ho;
    cbn [bind]; try discriminate.
  destruct (parse_source op inv l2) as [[[op' v] l3]| | |] eqn:Hs;
    cbn [bind]; try discriminate.
  match goal with
  | |- context [assert ?b] => destruct (assert b)
  end; cbn [bind]; try discriminate.
  intros H; injection H as _ <-. split; cbn.
  - exact (parse_destination_size _ _ _ _ _ Hregs Hd).
  - exact (parse_source_oper _ _ _ _ _ _ (parse_operation_oper _ _ _ _ Ho) Hs).
Qed.

Lemma parse_script_compiled (registers : list REG_DEF) :
  Forall (fun r => width_ok (reg_size r)) registers ->
  forall fuel head lines,
    parse_script fuel head registers = Ok lines -> Forall compiled lines.
Proof.
  intros Hregs. induction fuel as [|fuel IH]; intros head lines H.
  - destruct head; simpl in H; [injection H as <-; constructor | discriminate].
  - destruct head as [|c head]; simpl in H; [injection H as <-; constructor|].
    destruct (parseline (c :: head) registers) as [[head' l]| | |] eqn:Hp;
      cbn [bind] in H; try discriminate.
    destruct (parse_script fuel head' registers) as [rest| | |] eqn:Hr;
      cbn [bind] in H; try discriminate.
    injection H as <-. constructor.
    + exact (parseline_compiled _ _ _ _ Hregs Hp).
    + exact (IH _ _ Hr).
Qed.

Lemma load_registers_sizes (mcu : cstring) :
  forall defaults registers,
    Forall (fun r => width_ok (reg_size r)) defaults ->
    load_registers mcu defaults = Ok registers ->
    Forall (fun r => width_ok (reg_size r)) registers.
Proof.
  induction defaults as [|d defaults IH]; intros registers Hd H; simpl in H.
  - injection H as <-. constructor.
  - inversion Hd as [|? ? Hd1 Hd2]; subst.
    destruct (mcu_match mcu _) as [m| | |]; cbn [bind] in H; try discriminate.
    destruct (load_registers mcu defaults) as [rest| | |]; cbn [bind] in H;
      try discriminate.
    injection H as <-. specialize (IH rest Hd2 eq_refl).
    destruct m; [constructor; [exact Hd1 | exact IH] | exact IH].
Qed.

Lemma register_defaults_sizes :
  Forall (fun r => width_ok (reg_size r)) register_defaults.
Proof.
  assert (H : forallb (fun r => (reg_size r =? 4)%Z) register_defaults = true)
    by (vm_compute; reflexivity).
  rewrite forallb_forall in H. apply Forall_forall. intros r Hr.
  specialize (H r Hr). apply Z.eqb_eq in H. right; right. exact H.
Qed.

Lemma load_scripts_compiled (mcu arch_name : cstring) (registers : list REG_DEF) :
  Forall (fun r => width_ok (reg_size r)) registers ->
  forall defaults st st',
    session_compiled st ->
    load_scripts mcu arch_name registers defaults st = Ok st' ->
    session_compiled st'.
Proof.
  intros Hregs. induction defaults as [|d defaults IH]; intros st st' Hst H; simpl in H.
  - injection H as <-. exact Hst.
  - destruct (script_applies mcu arch_name (def_mcu_list d)) as [a| | |];
      cbn [bind] in H; try discriminate.
    destruct a.
    + destruct (parse_script _ _ registers) as [lines| | |] eqn:Hp;
        cbn [bind] in H; try discriminate.
      apply (IH _ _) in H; [exact H|].
      split; [|exact (proj2 Hst)]. cbn [add_script scripts].
      constructor; [|exact (proj1 Hst)].
      exact (parse_script_compiled _ Hregs _ _ _ Hp).
    + cbn [bind] in H. exact (IH _ _ Hst H).
Qed.

Lemma bmscript_load_compiled (mcu : cstring) (arch : option cstring)
    (st st' : session) (n : nat) :
  session_compiled st ->
  bmscript_load mcu arch st = Ok (n, st') ->
  session_compiled st'.
Proof.
  unfold bmscript_load. intros Hst.
  destruct (match root_name st with Some n0 => streq n0 mcu | None => false end).
  - intros H; injection H as _ <-. exact Hst.
  - destruct (load_registers mcu register_defaults) as [registers| | |] eqn:Hr;
      cbn [bind]; try discriminate.
    match goal with
    | |- context [bind ?m _] => destruct m as [arch_name| | |]
    end; cbn [bind]; try discriminate.
    destruct (load_scripts mcu arch_name registers script_defaults (bmscript_clear st))
      as [st2| | |] eqn:Hl; cbn [bind]; try discriminate.
    intros H; injection H as _ <-.
    apply (load_scripts_compiled mcu arch_name registers
             (load_registers_sizes _ _ _ register_defaults_sizes Hr)
             script_defaults (bmscript_clear st) st2); [|exact Hl].
    split; constructor.
Qed.

(** A step of the iterator keeps the store, and the cursor it leaves is on
    the lines it had or on the lines of a script of the store. *)
Lemma bmscript_line_compiled (name : option cstring) (st st' : session)
    (next : option SCRIPTLINE) :
  session_compiled st ->
  bmscript_line name st = Ok (next, st') ->
  session_compiled st' /\ forall l, next = Some l -> compiled l.
Proof.
  unfold bmscript_line. intros [Hs Hc] H.
  destruct (match name with
            | Some n => Ok n
            | None => match cache_name (cache st) with
                      | Some n => Ok n
                      | None => AssertFail
                      end
            end) as [nm| | |]; cbn [bind] in H; try discriminate.
  set (found := if match cache_name (cache st) with
                   | None => true
                   | Some n => negb (streq nm n)
                   end
                then match find_script nm st with
                     | None => None
                     | Some script =>
                         Some (set_cache {| cache_name := Some (script_name script);
                                            cache_lines := script_lines script;
                                            cache_index := 0 |} st)
                     end
                else Some st) in H.
  assert (Hfound : forall st0, found = Some st0 -> session_compiled st0).
  { subst found. intros st0.
    destruct (match cache_name (cache st) with
              | None => true
              | Some n => negb (streq nm n)
              end).
    - destruct (find_script nm st) as [s|] eqn:Hf; [|discriminate].
      intros E; injection E as <-. split; [exact Hs|]. cbn.
      apply find_some in Hf. destruct Hf as [Hin _].
      rewrite Forall_forall in Hs. exact (Hs s Hin).
    - intros E; injection E as <-. split; assumption. }
  destruct found as [st0|].
  - destruct (Hfound st0 eq_refl) as [Hs0 Hc0].
    destruct (assert (cache_index (cache st0) <=? cache_count (cache st0)));
      cbn [bind] in H; try discriminate.
    destruct (cache_index (cache st0) =? cache_count (cache st0)).
    + injection H as <- <-. split; [split; assumption | discriminate].
    + destruct (nth_error (cache_lines (cache st0)) (cache_index (cache st0)))
        as [l0|] eqn:Hl; [|discriminate].
      injection H as <- <-. split; [split; assumption|].
      intros l E; injection E as <-.
      rewrite Forall_forall in Hc0. apply Hc0. exact (nth_error_In _ _ Hl).
  - injection H as <- <-. split; [split; assumption | discriminate].
Qed.

Lemma hex_digit_value_hex_digit (d : Z) :
  (0 <= d < 16)%Z -> hex_digit_value (hex_digit d) = Some d.
Proof.
  intros H.
  assert (E : (d = 0 \/ d = 1 \/ d = 2 \/ d = 3 \/ d = 4 \/ d = 5 \/ d = 6 \/ d = 7 \/
               d = 8 \/ d = 9 \/ d = 10 \/ d = 11 \/ d = 12 \/ d = 13 \/ d = 14 \/
               d = 15)%Z) by lia.
  repeat (destruct E as [-> | E]; [vm_compute; reflexivity|]).
  subst d. vm_compute. reflexivity.
Qed.

(** The digits that the loop of [%x] puts before [acc] are read as the
    digits of [v]. *)
Lemma hex_numeral_loop (fuel : nat) :
  forall v acc a,
    (0 <= v < 16 ^ Z.of_nat fuel)%Z ->
    exists k, (0 <= k)%Z /\
      hex_numeral_from a (hex_loop fuel v acc) = hex_numeral_from (a * 16 ^ k + v) acc.
Proof.
  induction fuel as [|fuel IH]; intros v acc a Hv.
  - exists 0%Z. split; [lia|]. cbn [hex_loop]. f_equal.
    change (16 ^ Z.of_nat 0)%Z with 1%Z in Hv. lia.
  - cbn [hex_loop]. destruct (v =? 0)%Z eqn:E.
    + apply Z.eqb_eq in E. subst v. exists 0%Z. split; [lia|]. f_equal. lia.
    + apply Z.eqb_neq in E.
      assert (Hq : (0 <= v / 16 < 16 ^ Z.of_nat fuel)%Z).
      { rewrite Nat2Z.inj_succ, Z.pow_succ_r in Hv by lia.
        split; [apply Z.div_pos; lia|]. apply Z.div_lt_upper_bound; lia. }
      destruct (IH (v / 16)%Z (hex_digit (v mod 16) :: acc) a Hq) as (k & Hk & ->).
      exists (k + 1)%Z. split; [lia|]. cbn [hex_numeral_from].
      rewrite hex_digit_value_hex_digit by (apply Z.mod_pos_bound; lia).
      f_equal. rewrite Z.pow_add_r by lia.
      pose proof (Z.div_mod v 16 ltac:(lia)). lia.
Qed.

Lemma hex_loop_keeps (fuel : nat) :
  forall v acc, acc <> [] -> hex_loop fuel v acc <> [].
Proof.
  induction fuel as [|fuel IH]; intros v acc H; cbn [hex_loop]; [exact H|].
  destruct (v =? 0)%Z; [exact H|]. apply IH. discriminate.
Qed.

Lemma hex_loop_not_empty (fuel : nat) (v : Z) (acc : cstring) :
  (0 < v)%Z -> hex_loop (S fuel) v acc <> [].
Proof.
  intros Hv. cbn [hex_loop].
  replace (v =? 0)%Z with false by (symmetry; apply Z.eqb_neq; lia).
  apply hex_loop_keeps. discriminate.
Qed.

(** What [%x] prints is the numeral of the value as an [unsigned int]. *)
Lemma hex_numeral_fmt_x (v : Z) : hex_numeral (fmt_x v) = Some (wrap32 v).
Proof.
  unfold fmt_x. cbv zeta.
  assert (Hr : (0 <= wrap32 v < 4294967296)%Z)
    by (unfold wrap32; apply Z.mod_pos_bound; lia).
  set (w := wrap32 v) in *.
  destruct (w =? 0)%Z eqn:E.
  - apply Z.eqb_eq in E. rewrite E. reflexivity.
  - apply Z.eqb_neq in E.
    pose proof (hex_loop_not_empty 7 w [] ltac:(lia)) as Hne.
    destruct (hex_numeral_loop 8 w [] 0%Z) as (k & _ & Hk).
    { change (16 ^ Z.of_nat 8)%Z with 4294967296%Z. lia. }
    unfold hex_numeral. destruct (hex_loop 8 w []) as [|c r];
      [contradiction Hne; reflexivity|].
    rewrite Hk. cbn [hex_numeral_from]. f_equal; lia.
Qed.

Lemma wrap32_mask (v : Z) : wrap32 v = Z.land v (width_mask 4).
Proof.
  unfold wrap32. change (width_mask 4) with (Z.ones 32).
  rewrite Z.land_ones by lia. reflexivity.
Qed.

Lemma wrap32_byte (v : Z) : wrap32 (Z.land v 255) = Z.land v (width_mask 1).
Proof.
  change (width_mask 1) with (Z.ones 8). change 255%Z with (Z.ones 8).
  rewrite Z.land_ones by lia. unfold wrap32.
  pose proof (Z.mod_pos_bound v (2 ^ 8) ltac:(lia)).
  apply Z.mod_small. change (2 ^ 8)%Z with 256%Z in *. lia.
Qed.

Lemma wrap32_short (v : Z) : wrap32 (Z.land v 65535) = Z.land v (width_mask 2).
Proof.
  change (width_mask 2) with (Z.ones 16). change 65535%Z with (Z.ones 16).
  rewrite Z.land_ones by lia. unfold wrap32.
  pose proof (Z.mod_pos_bound v (2 ^ 16) ltac:(lia)).
  apply Z.mod_small. change (2 ^ 16)%Z with 65536%Z in *. lia.
Qed.

Lemma demo_running_compiled (i : nat) : session_compiled (demo_running i).
Proof.
  assert (H : Forall compiled (cache_lines (cache (demo_running i)))).
  { repeat constructor; cbn; try lia; discriminate. }
  split; [|exact H]. constructor; [exact H | constructor].
Qed.

Lemma demo_session_compiled : session_compiled demo_session.
Proof.
  split; [exact (proj1 (demo_running_compiled 0)) | constructor].
Qed.

(** C7. In a session whose instructions are compiled ones (the initial
    session is, and [bmscript_load] and the iterator keep it so), every
    instruction has width 1, 2 or 4; and for an instruction that is not
    skipped the formatter writes the one line
    [set {<type>}0x<addr> <op> 0x<value>] with a line feed, where the type is
    char, short or int for the widths 1, 2 and 4, the operator text is [=],
    [|=], [&=] or [&= ~] for Store, Or, And and AndNot, [<addr>] is a
    hexadecimal numeral of the address as the [uint32_t] it is, and [<value>]
    is a hexadecimal numeral of the value masked to the width,
    [value & ((1 << (8 * width)) - 1)]. *)
Theorem compiled_instruction_renders_one_command :
  forall st : session,
    session_compiled st ->
    (forall mcu arch n st',
        bmscript_load mcu arch st = Ok (n, st') -> session_compiled st') /\
    (forall name next st',
        bmscript_line name st = Ok (next, st') ->
        session_compiled st' /\
        forall l, next = Some l ->
                  width_ok (line_size l) /\ operator_of (line_oper l) <> None) /\
    (forall name params l st' o a v,
        bmscript_line name st = Ok (Some l, st') ->
        operator_of (line_oper l) = Some o ->
        resolve params (line_address l) = Ok a ->
        (is_param (line_address l) = true -> a <> 4294967295%Z) ->
        resolve params (line_value l) = Ok v ->
        exists addr value : cstring,
          bmscript_line_fmt name params st
          = Ok (Some (command_line (type_name (line_size l)) addr
                        (operator_symbol o) value), st') /\
          hex_numeral addr = Some (wrap32 a) /\
          hex_numeral value = Some (Z.land v (width_mask (line_size l)))).
Proof.
  intros st Hst. split; [|split].
  - intros mcu arch n st'. apply bmscript_load_compiled. exact Hst.
  - intros name next st' H. exact (bmscript_line_compiled _ _ _ _ Hst H).
  - intros name params l st' o a v Hline Hop Ha Hskip Hv.
    destruct (bmscript_line_compiled _ _ _ _ Hst Hline) as [_ Hl].
    destruct (Hl l eq_refl) as [Hw _].
    unfold bmscript_line_fmt. rewrite Hline. cbn [bind].
    assert (Ht : operator_text (line_oper l) = Some (operator_symbol o)).
    { unfold operator_of in Hop. unfold operator_text.
      destruct (ceqb (line_oper l) "="%char); [injection Hop as <-; reflexivity|].
      destruct (ceqb (line_oper l) "|"%char); [injection Hop as <-; reflexivity|].
      destruct (ceqb (line_oper l) "&"%char); [injection Hop as <-; reflexivity|].
      destruct (ceqb (line_oper l) "~"%char); [injection Hop as <-; reflexivity|].
      discriminate. }
    rewrite Ht. cbn [bind]. unfold resolve in Ha, Hv.
    assert (Hres : (if is_param (line_address l)
                    then a0 <- param_value params (Z.land (line_address l) 15) ;;
                         Ok (if (a0 =? 4294967295)%Z then None else Some a0)
                    else Ok (Some (line_address l))) = Ok (Some a)).
    { destruct (is_param (line_address l)).
      - rewrite Ha. cbn [bind].
        destruct (a =? 4294967295)%Z eqn:E; [|reflexivity].
        apply Z.eqb_eq in E. exfalso. exact (Hskip eq_refl E).
      - congruence. }
    rewrite Hres. cbn [bind]. rewrite Hv. cbn [bind].
    unfold size_type, type_name, command_line.
    destruct Hw as [-> | [-> | ->]]; cbn [Z.eqb Pos.eqb]; eexists; eexists;
      (split; [reflexivity|]); (split; [apply hex_numeral_fmt_x|]);
      rewrite hex_numeral_fmt_x; f_equal.
    + apply wrap32_byte.
    + apply wrap32_short.
    + apply wrap32_mask.
Qed.

(** The three widths at work: a byte-wide AndNot and a 16-bit Or of
    [demo_session], whose values are cut to 8 and to 16 bits, and the first
    instruction of [swo_generic], 32 bits wide. *)
Lemma compiled_instruction_renders_one_command_witness :
  ((exists addr value : cstring,
       bmscript_line_fmt (Some (cstr "demo")) None demo_session
       = Ok (Some (command_line (cstr "char") addr (cstr "&= ~") value),
             demo_running 1) /\
       hex_numeral addr = Some 256%Z /\ hex_numeral value = Some 52%Z) /\
   bmscript_line_fmt (Some (cstr "demo")) None demo_session
   = Ok (Some (cstr "set {char}0x100 &= ~ 0x34\n"), demo_running 1)) /\
  ((exists addr value : cstring,
       bmscript_line_fmt None None (demo_running 1)
       = Ok (Some (command_line (cstr "short") addr (cstr "|=") value),
             demo_running 2) /\
       hex_numeral addr = Some 258%Z /\ hex_numeral value = Some 9029%Z) /\
   bmscript_line_fmt None None (demo_running 1)
   = Ok (Some (cstr "set {short}0x102 |= 0x2345\n"), demo_running 2)) /\
  ((exists addr value : cstring,
       bmscript_line_fmt (Some (cstr "swo_generic")) swo_params stm32f407_session
       = Ok (Some (command_line (cstr "int") addr (cstr "=") value),
             at_cursor (script_name swo_generic_script)
               (script_lines swo_generic_script) 1 stm32f407_session) /\
       hex_numeral addr = Some 3758157308%Z /\
       hex_numeral value = Some 16777216%Z) /\
   bmscript_line_fmt (Some (cstr "swo_generic")) swo_params stm32f407_session
   = Ok (Some (cstr "set {int}0xe000edfc = 0x1000000\n"),
         at_cursor (script_name swo_generic_script)
           (script_lines swo_generic_script) 1 stm32f407_session)).
Proof.
  split; [|split]; (split; [|vm_compute; reflexivity]).
  - apply (proj2 (proj2 (compiled_instruction_renders_one_command demo_session
                           demo_session_compiled))
             (Some (cstr "demo")) None
             {| line_address := 256; line_value := 4660; line_size := 1;
                line_oper := "~"%char |}
             (demo_running 1) AndNot 256%Z 4660%Z).
    + vm_compute. reflexivity.
    + reflexivity.
    + reflexivity.
    + discriminate.
    + reflexivity.
  - apply (proj2 (proj2 (compiled_instruction_renders_one_command (demo_running 1)
                           (demo_running_compiled 1)))
             None None
             {| line_address := 258; line_value := 74565; line_size := 2;
                line_oper := "|"%char |}
             (demo_running 2) Or 258%Z 74565%Z).
    + vm_compute. reflexivity.
    + reflexivity.
    + reflexivity.
    + discriminate.
    + reflexivity.
  - apply (proj2 (proj2 (compiled_instruction_renders_one_command stm32f407_session
                           (bmscript_load_compiled _ _ _ _ _ session_init_compiled
                              stm32f407_loaded)))
             (Some (cstr "swo_generic")) swo_params
             {| line_address := 3758157308; line_value := 16777216; line_size := 4;
                line_oper := "="%char |}
             (at_cursor (script_name swo_generic_script)
                (script_lines swo_generic_script) 1 stm32f407_session)
             Store 3758157308%Z 16777216%Z).
    + vm_compute. reflexivity.
    + reflexivity.
    + reflexivity.
    + discriminate.
    + reflexivity.
Defined.

(** ** Inversion of the source *)







Lemma skipn_length_app {A : Type} (a r : list A) : skipn (length a) (a ++ r) = r.
Proof. induction a as [|x a IH]; simpl; [reflexivity | exact IH]. Qed.











(** ** The matcher against its description *)

(** *** Cutting the list at its first comma *)

Lemma cut_at_comma (l : cstring) : l = before_comma l ++ from_comma l.
Proof.
  unfold from_comma. induction l as [|c l IH]; simpl; [reflexivity|].
  destruct (ceqb c ","%char) eqn:E.
  - apply ceqb_eq in E. subst c. reflexivity.
  - simpl. f_equal. exact IH.
Qed.

Lemma before_comma_no_comma (l : cstring) : strchr (before_comma l) ","%char = None.
Proof.
  induction l as [|c l IH]; simpl; [reflexivity|].
  destruct (ceqb c ","%char) eqn:E; simpl; [reflexivity|].
  rewrite E, IH. reflexivity.
Qed.

Lemma after_comma_shorter (l r : cstring) :
  after_comma l = Some r -> length r < length l.
Proof.
  revert r; induction l as [|c l IH]; intros r; simpl; [discriminate|].
  destruct (ceqb c ","%char).
  - intros H; injection H as <-. lia.
  - intros H. apply IH in H. lia.
Qed.

Lemma split_commas_cut (l : cstring) :
  split_commas l = before_comma l :: match after_comma l with
                                     | Some r => split_commas r
                                     | None => []
                                     end.
Proof.
  induction l as [|c l IH]; simpl; [reflexivity|].
  destruct (ceqb c ","%char); [reflexivity|].
  rewrite IH. reflexivity.
Qed.

Lemma tokens_cut (l : cstring) :
  tokens l = trim (before_comma l) :: match after_comma l with
                                      | Some r => tokens r
                                      | None => []
                                      end.
Proof.
  unfold tokens. rewrite split_commas_cut at 1. simpl.
  destruct (after_comma l); reflexivity.
Qed.

(** *** White space *)

Lemma skipleading_app (t r : cstring) :
  le_space (deref r) = false ->
  skipleading (t ++ r) = skipleading t ++ r.
Proof.
  intros H. induction t as [|c t IH]; simpl.
  - destruct r as [|a r]; [reflexivity|]. simpl in *. rewrite H. reflexivity.
  - destruct (le_space c); [exact IH | reflexivity].
Qed.

Lemma from_comma_start (l : cstring) : le_space (deref (from_comma l)) = false \/ from_comma l = [].
Proof.
  unfold from_comma. destruct (after_comma l); [left; reflexivity | right; reflexivity].
Qed.

Lemma skipleading_cut (l : cstring) :
  skipleading l = skipleading (before_comma l) ++ from_comma l.
Proof.
  rewrite (cut_at_comma l) at 1.
  destruct (from_comma_start l) as [H | H].
  - apply skipleading_app. exact H.
  - rewrite H, !app_nil_r. reflexivity.
Qed.

Lemma skipleading_no_comma (t : cstring) :
  strchr t ","%char = None -> strchr (skipleading t) ","%char = None.
Proof.
  induction t as [|c t IH]; simpl; [reflexivity|].
  destruct (ceqb c ","%char) eqn:E; [discriminate|].
  destruct (strchr t ","%char) eqn:Hs; [discriminate|]. intros _.
  destruct (le_space c); [apply IH; reflexivity|].
  simpl. rewrite E, Hs. reflexivity.
Qed.

Lemma strchr_app_found (u r : cstring) (c : ascii) :
  strchr u c = None -> strchr (u ++ c :: r) c = Some (length u).
Proof.
  induction u as [|a u IH]; simpl.
  - rewrite ceqb_refl. reflexivity.
  - destruct (ceqb a c); [discriminate|].
    destruct (strchr u c); [discriminate|]. intros _. rewrite IH by reflexivity.
    reflexivity.
Qed.

Lemma char_at_app_l (u z : cstring) (i : nat) :
  i < length u -> char_at (u ++ z) i = char_at u i.
Proof. intros H. unfold char_at. apply app_nth1. exact H. Qed.

Lemma skiptrailing_app (u z : cstring) (e : nat) :
  e <= length u -> skiptrailing (u ++ z) e = skiptrailing u e.
Proof.
  induction e as [|e IH]; intros H; simpl; [reflexivity|].
  rewrite char_at_app_l by lia. rewrite IH by lia. reflexivity.
Qed.

Lemma skiptrailing_le (s : cstring) (e : nat) : skiptrailing s e <= e.
Proof.
  induction e as [|e IH]; simpl; [lia|].
  destruct (le_space (char_at s e)); lia.
Qed.

Lemma firstn_succ_char (s : cstring) (e : nat) :
  e < length s -> firstn (S e) s = firstn e s ++ [char_at s e].
Proof.
  revert e; induction s as [|a s IH]; intros e H; simpl in H; [lia|].
  destruct e as [|e]; [reflexivity|].
  simpl. f_equal. apply IH. lia.
Qed.

Lemma trim_end_snoc (x : cstring) (c : ascii) :
  trim_end (x ++ [c]) = if le_space c then trim_end x else x ++ [c].
Proof.
  unfold trim_end. rewrite rev_app_distr. simpl.
  destruct (le_space c); [reflexivity|].
  simpl. rewrite rev_involutive. reflexivity.
Qed.

(** [skiptrailing] cuts what [trim_end] trims. *)
Lemma firstn_skiptrailing (s : cstring) (e : nat) :
  e <= length s -> firstn (skiptrailing s e) s = trim_end (firstn e s).
Proof.
  induction e as [|e IH]; intros H; [reflexivity|]. cbn [skiptrailing].
  rewrite (firstn_succ_char s e) by lia. rewrite trim_end_snoc.
  destruct (le_space (char_at s e)).
  - apply IH. lia.
  - apply firstn_succ_char. lia.
Qed.

Lemma skiptrailing_length (s : cstring) (e : nat) :
  e <= length s -> skiptrailing s e = length (trim_end (firstn e s)).
Proof.
  intros H. rewrite <- (firstn_skiptrailing s e H).
  rewrite length_firstn. pose proof (skiptrailing_le s e). lia.
Qed.

(** Below [e], [skiptrailing] stops behind a character that is no white
    space and in front of one that is. *)
Lemma skiptrailing_stop (s : cstring) (e : nat) :
  skiptrailing s e < e -> le_space (char_at s (skiptrailing s e)) = true.
Proof.
  induction e as [|e IH]; simpl; [lia|].
  destruct (le_space (char_at s e)) eqn:E; [|lia].
  intros H. pose proof (skiptrailing_le s e).
  destruct (Nat.eq_dec (skiptrailing s e) e) as [-> | Hne]; [exact E|].
  apply IH. lia.
Qed.

(** *** The item at the head of the list *)

Lemma from_comma_cases (l : cstring) :
  (after_comma l = None /\ from_comma l = []) \/
  (exists r, after_comma l = Some r /\ from_comma l = ","%char :: r).
Proof.
  unfold from_comma. destruct (after_comma l) as [r|]; [right; eauto | left; auto].
Qed.

Lemma head_no_comma (l : cstring) :
  strchr (skipleading (before_comma l)) ","%char = None.
Proof. apply skipleading_no_comma, before_comma_no_comma. Qed.

Lemma item_separator_cut (l : cstring) :
  item_separator (skipleading l) = length (skipleading (before_comma l)).
Proof.
  rewrite skipleading_cut. unfold item_separator.
  destruct (from_comma_cases l) as [[_ ->] | (r & _ & ->)].
  - rewrite app_nil_r, head_no_comma. reflexivity.
  - rewrite (strchr_app_found _ _ _ (head_no_comma l)). reflexivity.
Qed.

Lemma trim_end_length (u : cstring) : length (trim_end u) <= length u.
Proof.
  unfold trim_end. rewrite length_rev.
  assert (H : forall v, length (skipleading v) <= length v).
  { induction v as [|c v IH]; simpl; [lia|]. destruct (le_space c); simpl; lia. }
  specialize (H (rev u)). rewrite length_rev in H. exact H.
Qed.

(** What one iteration of the loops sees of the list [l] whose items are
    still to come: the length of the item, the item itself (the token), and
    the head of the next iteration. *)
Lemma item_view (l : cstring) :
  let head := skipleading l in
  let tok := trim (before_comma l) in
  skiptrailing head (item_separator head) = length tok /\
  firstn (length tok) head = tok /\
  next_item head = match after_comma l with
                   | Some r => skipleading r
                   | None => []
                   end.
Proof.
  intros head tok. subst head tok. unfold trim.
  set (u := skipleading (before_comma l)).
  rewrite item_separator_cut. fold u.
  assert (Hsk : skiptrailing (skipleading l) (length u) = length (trim_end u)).
  { rewrite skipleading_cut. fold u. rewrite skiptrailing_app by lia.
    rewrite skiptrailing_length by lia. rewrite firstn_all. reflexivity. }
  split; [exact Hsk|]. split.
  - rewrite skipleading_cut. fold u.
    rewrite firstn_app. pose proof (trim_end_length u).
    replace (length (trim_end u) - length u) with 0 by lia.
    rewrite firstn_O, app_nil_r.
    rewrite <- (firstn_all u) at 3. rewrite <- firstn_skiptrailing by lia.
    f_equal. rewrite skiptrailing_length by lia. rewrite firstn_all. reflexivity.
  - unfold next_item. rewrite item_separator_cut. fold u.
    rewrite skipleading_cut. fold u. rewrite skipn_length_app.
    unfold from_comma. destruct (after_comma l); reflexivity.
Qed.

(** A list that is blank from its start has the empty token only. *)
Lemma tokens_blank (l : cstring) : skipleading l = [] -> tokens l = [[]].
Proof.
  intros H. rewrite skipleading_cut in H. apply app_eq_nil in H. destruct H as [Hu Hz].
  rewrite tokens_cut. unfold trim. rewrite Hu.
  unfold from_comma in Hz. destruct (after_comma l); [discriminate|]. reflexivity.
Qed.

Lemma head_of_comma_list (l r : cstring) :
  after_comma l = Some r -> skipleading l <> [].
Proof.
  intros H E. rewrite skipleading_cut in E. apply app_eq_nil in E.
  destruct E as [_ E]. unfold from_comma in E. rewrite H in E. discriminate.
Qed.

(** *** The first pass *)

Lemma exact_pass_step (fuel : nat) (mcufamily : cstring) (namelen : nat)
    (head : cstring) :
  exact_pass (S fuel) mcufamily namelen head =
    match head with
    | [] => Ok false
    | _ :: _ =>
        let tail := skiptrailing head (item_separator head) in
        if (tail =? namelen) && (tail <? matchname_size)
           && architecture_match (firstn tail head) mcufamily
        then Ok true
        else exact_pass fuel mcufamily namelen (next_item head)
    end.
Proof. destruct head; reflexivity. Qed.

Lemma exact_pass_nil (fuel : nat) (mcufamily : cstring) (namelen : nat) :
  exact_pass fuel mcufamily namelen [] = Ok false.
Proof. destruct fuel; reflexivity. Qed.

Lemma exact_pass_tokens (mcufamily : cstring) (namelen : nat) :
  0 < namelen ->
  forall fuel l,
    length l < fuel ->
    exact_pass fuel mcufamily namelen (skipleading l)
    = Ok (existsb (code_exact mcufamily namelen) (tokens l)).
Proof.
  intros Hn. induction fuel as [|fuel IH]; intros l Hl; [lia|].
  destruct (skipleading l) as [|c h] eqn:Hh.
  - rewrite (tokens_blank l Hh). cbn [existsb]. unfold code_exact. cbn [length].
    replace (0 =? namelen) with false by (symmetry; apply Nat.eqb_neq; lia).
    reflexivity.
  - rewrite <- Hh. rewrite exact_pass_step.
    destruct (item_view l) as (Ht & Hf & Hnext). cbv zeta.
    rewrite Ht, Hf, Hnext. rewrite Hh. rewrite tokens_cut. cbn [existsb].
    fold (code_exact mcufamily namelen (trim (before_comma l))).
    destruct (code_exact mcufamily namelen (trim (before_comma l))); [reflexivity|].
    destruct (after_comma l) as [r|] eqn:Ha.
    + apply IH. apply after_comma_shorter in Ha. lia.
    + rewrite exact_pass_nil. reflexivity.
Qed.

(** *** The second pass *)

Lemma strchr_firstn (h : cstring) (c : ascii) (k : nat) :
  strchr (firstn k h) c =
    match strchr h c with
    | Some w => if w <? k then Some w else None
    | None => None
    end.
Proof.
  revert k; induction h as [|a h IH]; intros k.
  - rewrite firstn_nil. reflexivity.
  - destruct k as [|k]; simpl.
    + destruct (ceqb a c); [reflexivity|]. destruct (strchr h c); reflexivity.
    + destruct (ceqb a c); [reflexivity|]. rewrite IH.
      destruct (strchr h c) as [w|]; [|reflexivity].
      change (S w <? S k) with (w <? k). destruct (w <? k); reflexivity.
Qed.

Lemma printable_skipleading (v : cstring) : printable v -> printable (skipleading v).
Proof.
  unfold printable. induction 1 as [|c v Hc Hv IH]; simpl; [constructor|].
  destruct (le_space c); [exact IH | constructor; assumption].
Qed.

Lemma printable_before_comma (l : cstring) : printable l -> printable (before_comma l).
Proof.
  unfold printable. induction 1 as [|c v Hc Hv IH]; simpl; [constructor|].
  destruct (ceqb c ","%char); constructor; assumption.
Qed.

Lemma printable_after_comma (l r : cstring) :
  printable l -> after_comma l = Some r -> printable r.
Proof.
  unfold printable. induction 1 as [|c v Hc Hv IH]; simpl; [discriminate|].
  destruct (ceqb c ","%char).
  - intros H; injection H as <-. exact Hv.
  - exact IH.
Qed.

Lemma printable_blank_is_space (c : ascii) :
  32 <= code c < 128 -> le_space c = true -> c = " "%char.
Proof.
  unfold le_space, char_value, code. intros [H1 H3] H2.
  replace (nat_of_ascii c <? 128) with true in H2
    by (symmetry; apply Nat.ltb_lt; exact H3).
  apply Z.leb_le in H2.
  assert (E : nat_of_ascii c = 32) by lia.
  rewrite <- (ascii_nat_embedding c), E. reflexivity.
Qed.

(** The character behind the token is the comma, the end of the list, or,
    in a printable list, a space. *)
Lemma item_after (l : cstring) :
  printable l ->
  let a := char_at (skipleading l) (length (trim (before_comma l))) in
  ceqb a ","%char || ceqb a " "%char || ceqb a NUL = true.
Proof.
  intros Hp a. subst a. unfold trim.
  set (u := skipleading (before_comma l)).
  assert (Hu : printable u) by (apply printable_skipleading, printable_before_comma, Hp).
  rewrite skipleading_cut. fold u.
  pose proof (trim_end_length u) as Hle.
  destruct (Nat.eq_dec (length (trim_end u)) (length u)) as [E | Hne].
  - rewrite E. unfold char_at. rewrite app_nth2 by lia. rewrite Nat.sub_diag.
    destruct (from_comma_cases l) as [[_ ->] | (r & _ & ->)]; reflexivity.
  - rewrite char_at_app_l by lia.
    assert (Hs : skiptrailing u (length u) = length (trim_end u)).
    { rewrite skiptrailing_length by lia. rewrite firstn_all. reflexivity. }
    assert (Hb : le_space (char_at u (length (trim_end u))) = true).
    { rewrite <- Hs. apply skiptrailing_stop. lia. }
    assert (Hc : 32 <= code (char_at u (length (trim_end u))) < 128).
    { unfold printable in Hu. rewrite Forall_forall in Hu. apply Hu.
      unfold char_at. apply nth_In. lia. }
    rewrite (printable_blank_is_space _ Hc Hb). reflexivity.
Qed.

Lemma prefix_pass_step (fuel : nat) (mcufamily : cstring) (namelen : nat)
    (head : cstring) :
  prefix_pass (S fuel) mcufamily namelen head =
    match head with
    | [] => Ok false
    | _ :: _ =>
        let tail := skiptrailing head (item_separator head) in
        let continue := prefix_pass fuel mcufamily namelen (next_item head) in
        match strchr head "*"%char with
        | Some wildcard =>
            if wildcard <? tail then
              let after := char_at head (wildcard + 1) in
              assert (ceqb after ","%char || ceqb after " "%char || ceqb after NUL) ;;;
              if wildcard =? 0 then Ok true
              else if (wildcard <? namelen) && (wildcard <? matchname_size)
                      && architecture_match (firstn wildcard head)
                                            (firstn wildcard mcufamily)
                   then Ok true
                   else continue
            else continue
        | None => continue
        end
    end.
Proof. destruct head; reflexivity. Qed.

Lemma prefix_pass_nil (fuel : nat) (mcufamily : cstring) (namelen : nat) :
  prefix_pass fuel mcufamily namelen [] = Ok false.
Proof. destruct fuel; reflexivity. Qed.

Lemma prefix_pass_tokens (mcufamily : cstring) (namelen : nat) :
  forall fuel l,
    length l < fuel ->
    printable l ->
    Forall star_last (tokens l) ->
    prefix_pass fuel mcufamily namelen (skipleading l)
    = Ok (existsb (code_prefix mcufamily namelen) (tokens l)).
Proof.
  induction fuel as [|fuel IH]; intros l Hl Hp Hstar; [lia|].
  destruct (skipleading l) as [|c h] eqn:Hh.
  - rewrite (tokens_blank l Hh). reflexivity.
  - rewrite <- Hh. rewrite prefix_pass_step.
    destruct (item_view l) as (Ht & Hf & Hnext). cbv zeta.
    pose proof (item_after l Hp) as Hafter. cbv zeta in Hafter.
    rewrite tokens_cut in Hstar. inversion Hstar as [|? ? Hs1 Hs2]; subst.
    rewrite Ht, Hnext. rewrite Hh at 1. rewrite tokens_cut. cbn [existsb].
    set (tok := trim (before_comma l)) in *.
    assert (Hcont : prefix_pass fuel mcufamily namelen
                      match after_comma l with
                      | Some r => skipleading r
                      | None => []
                      end
                    = Ok (existsb (code_prefix mcufamily namelen)
                            match after_comma l with
                            | Some r => tokens r
                            | None => []
                            end)).
    { destruct (after_comma l) as [r|] eqn:Ha.
      - apply IH.
        + apply after_comma_shorter in Ha. lia.
        + exact (printable_after_comma _ _ Hp Ha).
        + exact Hs2.
      - apply prefix_pass_nil. }
    rewrite Hcont.
    assert (Hsc : strchr tok "*"%char
                  = match strchr (skipleading l) "*"%char with
                    | Some w => if w <? length tok then Some w else None
                    | None => None
                    end).
    { rewrite <- Hf at 1. apply strchr_firstn. }
    assert (Hcp : code_prefix mcufamily namelen tok
                  = match strchr (skipleading l) "*"%char with
                    | Some w =>
                        (w <? length tok)
                        && ((w =? 0)
                            || ((w <? namelen) && (w <? matchname_size)
                                && architecture_match (firstn w tok)
                                                      (firstn w mcufamily)))
                    | None => false
                    end).
    { unfold code_prefix. rewrite Hsc.
      destruct (strchr (skipleading l) "*"%char) as [w|]; [|reflexivity].
      destruct (w <? length tok); reflexivity. }
    rewrite Hcp.
    destruct (strchr (skipleading l) "*"%char) as [w|]; [|reflexivity].
    destruct (w <? length tok) eqn:Hw; [|reflexivity].
    apply Nat.ltb_lt in Hw.
    assert (Hlast : S w = length tok) by (apply Hs1; exact Hsc).
    replace (w + 1) with (length tok) by lia. rewrite Hafter. cbn [assert bind].
    assert (Hfw : firstn w (skipleading l) = firstn w tok).
    { transitivity (firstn w (firstn (length tok) (skipleading l))).
      - rewrite firstn_firstn. f_equal. lia.
      - rewrite Hf. reflexivity. }
    rewrite Hfw. cbn [andb].
    destruct (w =? 0); [reflexivity|]. cbn [orb].
    destruct ((w <? namelen) && (w <? matchname_size)
              && architecture_match (firstn w tok) (firstn w mcufamily));
      reflexivity.
Qed.

(** *** The architecture suffix *)

Lemma strrchr_none_no_space (f : cstring) :
  strrchr f " "%char = None -> existsb (fun c => ceqb c " "%char) f = false.
Proof.
  induction f as [|c f IH]; simpl; [reflexivity|].
  destruct (strrchr f " "%char); [discriminate|].
  destruct (ceqb c " "%char); [discriminate|]. intros _. apply IH. reflexivity.
Qed.

Lemma strrchr_some_space (f : cstring) (i : nat) :
  strrchr f " "%char = Some i -> existsb (fun c => ceqb c " "%char) f = true.
Proof.
  revert i; induction f as [|c f IH]; intros i; simpl; [discriminate|].
  destruct (strrchr f " "%char) as [j|].
  - intros _. rewrite (IH j eq_refl). apply orb_true_r.
  - destruct (ceqb c " "%char); [reflexivity | discriminate].
Qed.

Lemma strrchr_lt (f : cstring) (c : ascii) (i : nat) :
  strrchr f c = Some i -> i < length f.
Proof.
  revert i; induction f as [|a f IH]; intros i; simpl; [discriminate|].
  destruct (strrchr f c) as [j|].
  - intros H; injection H as <-. specialize (IH j eq_refl). lia.
  - destruct (ceqb a c); [|discriminate]. intros H; injection H as <-. lia.
Qed.

Lemma is_arch_suffix_space_inside (c : ascii) (f : cstring) :
  existsb (fun c => ceqb c " "%char) f = true -> is_arch_suffix (c :: f) = false.
Proof.
  intros H. unfold is_arch_suffix. destruct f as [|m [|d rest]]; try reflexivity.
  rewrite H. apply andb_false_r.
Qed.

Lemma before_arch_suffix_no_space (f : cstring) :
  existsb (fun c => ceqb c " "%char) f = false -> before_arch_suffix f = f.
Proof.
  induction f as [|c f IH]; [reflexivity|]. cbn [existsb]. intros H.
  apply orb_false_iff in H. destruct H as [Hc Hf]. cbn [before_arch_suffix].
  replace (is_arch_suffix (c :: f)) with false.
  - rewrite (IH Hf). reflexivity.
  - unfold is_arch_suffix. destruct f as [|m [|d rest]]; try reflexivity.
    rewrite Hc. reflexivity.
Qed.

(** The description and the code cut the name at the same place. *)
Lemma before_arch_suffix_code (f : cstring) :
  before_arch_suffix f = match code_strip_index f with
                         | Some i => firstn i f
                         | None => f
                         end.
Proof.
  induction f as [|c f IH]; [reflexivity|].
  unfold code_strip_index in *. cbn [strrchr before_arch_suffix].
  destruct (strrchr f " "%char) as [i|] eqn:Hs.
  - rewrite (is_arch_suffix_space_inside c f (strrchr_some_space f i Hs)).
    rewrite IH.
    change (char_at (c :: f) (S i + 1)) with (char_at f (i + 1)).
    change (char_at (c :: f) (S i + 2)) with (char_at f (i + 2)).
    destruct (ceqb (char_at f (i + 1)) "M"%char && isdigit (char_at f (i + 2)));
      reflexivity.
  - pose proof (strrchr_none_no_space f Hs) as Hno.
    destruct (ceqb c " "%char) eqn:Hc.
    + change (char_at (c :: f) (0 + 1)) with (char_at f 0).
      change (char_at (c :: f) (0 + 2)) with (char_at f 1).
      unfold is_arch_suffix. rewrite Hc.
      destruct f as [|m [|d rest]].
      * reflexivity.
      * cbn [char_at nth]. change (isdigit NUL) with false.
        rewrite andb_false_r. reflexivity.
      * cbn [char_at nth]. rewrite Hno. cbn [negb andb]. rewrite andb_true_r.
        destruct (ceqb m "M"%char && isdigit d); [reflexivity|].
        rewrite (before_arch_suffix_no_space _ Hno). reflexivity.
    + replace (is_arch_suffix (c :: f)) with false.
      * rewrite (before_arch_suffix_no_space _ Hno). reflexivity.
      * unfold is_arch_suffix. destruct f as [|m [|d rest]]; try reflexivity.
        rewrite Hc. reflexivity.
Qed.

Lemma gt_space_not_le (c : ascii) : gt_space c = negb (le_space c).
Proof.
  unfold gt_space, le_space.
  destruct (32 <? char_value c)%Z eqn:E1, (char_value c <=? 32)%Z eqn:E2;
    try reflexivity.
  - apply Z.ltb_lt in E1. apply Z.leb_le in E2. lia.
  - apply Z.ltb_ge in E1. apply Z.leb_gt in E2. lia.
Qed.

Lemma skiptrailing_pos (s : cstring) (e : nat) :
  gt_space (char_at s 0) = true -> 0 < e ->
  0 < skiptrailing s e /\ gt_space (char_at s (skiptrailing s e - 1)) = true.
Proof.
  intros H0. induction e as [|e IH]; [lia|]. intros _. cbn [skiptrailing].
  destruct (le_space (char_at s e)) eqn:E.
  - destruct e as [|e].
    + rewrite gt_space_not_le, E in H0. discriminate.
    + apply IH. lia.
  - split; [lia|]. replace (S e - 1) with e by lia.
    rewrite gt_space_not_le, E. reflexivity.
Qed.

Lemma family_ok_first (f : cstring) :
  family_ok f = true -> 0 < length f /\ gt_space (char_at f 0) = true.
Proof.
  unfold family_ok. rewrite !andb_true_iff, Nat.ltb_lt. tauto.
Qed.

(** The length that the code gives the name is the length of the stripped
    family, which is the start of the family. *)
Lemma stripped_length_spec (f : cstring) :
  family_ok f = true ->
  stripped_length f = Ok (length (strip_arch_suffix f)) /\
  strip_arch_suffix f = firstn (length (strip_arch_suffix f)) f /\
  0 < length (strip_arch_suffix f) <= length f /\
  (length (strip_arch_suffix f) = length f -> strip_arch_suffix f = f).
Proof.
  intros Hok. destruct (family_ok_first f Hok) as [Hlen H0].
  assert (Hcode : stripped_length f
                  = match code_strip_index f with
                    | Some i =>
                        assert ((0 <? skiptrailing f i)
                                && gt_space (char_at f (skiptrailing f i - 1))) ;;;
                        Ok (skiptrailing f i)
                    | None => Ok (length f)
                    end).
  { unfold stripped_length, code_strip_index.
    destruct (strrchr f " "%char) as [i|]; [|reflexivity].
    destruct (ceqb (char_at f (i + 1)) "M"%char && isdigit (char_at f (i + 2)));
      reflexivity. }
  rewrite Hcode. unfold strip_arch_suffix. rewrite before_arch_suffix_code.
  destruct (code_strip_index f) as [i|] eqn:Hi.
  - assert (Hlt : i < length f).
    { unfold code_strip_index in Hi.
      destruct (strrchr f " "%char) as [j|] eqn:Hj; [|discriminate].
      destruct (ceqb (char_at f (j + 1)) "M"%char && isdigit (char_at f (j + 2)));
        [|discriminate].
      injection Hi as <-. exact (strrchr_lt _ _ _ Hj). }
    assert (Hpos : 0 < i).
    { destruct i as [|i]; [|lia]. exfalso.
      unfold code_strip_index in Hi.
      destruct (strrchr f " "%char) as [j|] eqn:Hj; [|discriminate].
      destruct (ceqb (char_at f (j + 1)) "M"%char && isdigit (char_at f (j + 2)));
        [|discriminate].
      injection Hi as ->.
      assert (Hsp : char_at f 0 = " "%char).
      { clear -Hj. destruct f as [|a f]; [discriminate|]. simpl in Hj.
        destruct (strrchr f " "%char); [discriminate|].
        destruct (ceqb a " "%char) eqn:E; [|discriminate].
        apply ceqb_eq in E. exact E. }
      rewrite Hsp in H0. discriminate. }
    rewrite length_firstn. replace (Nat.min i (length f)) with i by lia.
    replace (i <? length f) with true by (symmetry; apply Nat.ltb_lt; lia).
    destruct (skiptrailing_pos f i H0 Hpos) as [Hp1 Hp2].
    replace (0 <? skiptrailing f i) with true by (symmetry; apply Nat.ltb_lt; lia).
    rewrite Hp2. cbn [andb assert bind].
    rewrite <- (firstn_skiptrailing f i) by lia.
    pose proof (skiptrailing_le f i) as Hle.
    rewrite length_firstn. replace (Nat.min (skiptrailing f i) (length f))
      with (skiptrailing f i) by lia.
    repeat split; try lia.
  - rewrite Nat.ltb_irrefl. rewrite firstn_all. repeat split; lia.
Qed.

(** *** The two passes against their description *)

Lemma architecture_match_chars (a b : cstring) :
  architecture_match a b = (length a =? length b) && chars_match a b.
Proof.
  unfold chars_match. revert b; induction a as [|x a IH]; intros [|y b];
    try reflexivity.
  cbn [architecture_match length combine forallb fst snd].
  change (S (length a) =? S (length b)) with (length a =? length b).
  rewrite IH. unfold char_matches.
  destruct (ceqb x "x"%char), (ceqb (toupper x) (toupper y)); cbn [negb andb orb];
    try reflexivity.
  rewrite andb_false_r. reflexivity.
Qed.

Lemma chars_match_firstn (a b : cstring) (w : nat) :
  chars_match a b = true -> chars_match (firstn w a) (firstn w b) = true.
Proof.
  unfold chars_match. rewrite <- combine_firstn.
  generalize (combine a b). intros l. revert w.
  induction l as [|p l IH]; intros [|w]; try reflexivity. cbn [forallb firstn].
  intros H. apply andb_true_iff in H. destruct H as [Hp Hl].
  rewrite Hp, (IH w Hl). reflexivity.
Qed.

Lemma has_star_strchr (tok : cstring) :
  has_star tok = true -> exists w, strchr tok "*"%char = Some w.
Proof.
  unfold has_star. induction tok as [|c tok IH]; simpl; [discriminate|].
  destruct (ceqb c "*"%char); [eauto|]. intros H.
  destruct (IH H) as [w ->]. eauto.
Qed.

Lemma strchr_lt (tok : cstring) (c : ascii) (w : nat) :
  strchr tok c = Some w -> w < length tok.
Proof.
  revert w; induction tok as [|a tok IH]; intros w; simpl; [discriminate|].
  destruct (ceqb a c).
  - intros H; injection H as <-. lia.
  - destruct (strchr tok c) as [j|]; [|discriminate].
    intros H; injection H as <-. specialize (IH j eq_refl). lia.
Qed.

Section Passes.

Variable f : cstring.
Hypothesis Hok : family_ok f = true.
Hypothesis Hshort : length (strip_arch_suffix f) < matchname_size.

Let s := strip_arch_suffix f.
Let n := length s.

(** The second pass tests what the description says. *)
Lemma code_prefix_spec (tok : cstring) :
  star_last tok -> code_prefix f n tok = prefix_accepts s tok.
Proof.
  intros Hstar. unfold code_prefix, prefix_accepts.
  destruct (strchr tok "*"%char) as [w|] eqn:Hw; [|reflexivity].
  rewrite <- (Hstar w Hw), Nat.eqb_refl. cbn [andb].
  destruct (w =? 0); [reflexivity|]. cbn [orb]. fold n.
  destruct (w <? n) eqn:Hn; [|reflexivity]. apply Nat.ltb_lt in Hn. cbn [andb].
  replace (w <? matchname_size) with true
    by (symmetry; apply Nat.ltb_lt; unfold n, s in *; lia).
  cbn [andb].
  destruct (stripped_length_spec f Hok) as (_ & Hs & Hb & _).
  pose proof (strchr_lt _ _ _ Hw) as Hwt.
  rewrite architecture_match_chars, !length_firstn.
  replace (Nat.min w (length tok)) with w by lia.
  replace (Nat.min w (length f)) with w by (fold s n in Hb; lia).
  rewrite Nat.eqb_refl. cbn [andb].
  f_equal. unfold s at 1. rewrite Hs. fold s n.
  rewrite firstn_firstn. f_equal. lia.
Qed.

(** With an architecture suffix the first pass accepts no token. *)
Lemma code_exact_suffix (tok : cstring) :
  n <> length f -> code_exact f n tok = false.
Proof.
  intros Hne. unfold code_exact. rewrite architecture_match_chars.
  destruct (length tok =? n) eqn:E1; [|reflexivity].
  destruct (length tok =? length f) eqn:E2.
  - apply Nat.eqb_eq in E1, E2. lia.
  - rewrite andb_false_r. reflexivity.
Qed.

(** Without one, it accepts the tokens of the description and, besides,
    tokens with a [*] that the second pass accepts too. *)
Lemma code_exact_plain (tok : cstring) :
  n = length f ->
  code_exact f n tok = (length tok =? length f) && chars_match tok f.
Proof.
  intros Hn. unfold code_exact. rewrite architecture_match_chars, Hn.
  destruct (length tok =? length f) eqn:E; [|reflexivity].
  apply Nat.eqb_eq in E.
  replace (length tok <? matchname_size) with true
    by (symmetry; apply Nat.ltb_lt; unfold n, s in *; lia).
  reflexivity.
Qed.

Lemma code_exact_star (tok : cstring) :
  n = length f -> star_last tok ->
  code_exact f n tok = true -> has_star tok = true ->
  prefix_accepts f tok = true.
Proof.
  intros Hn Hstar Hex Hhas. rewrite (code_exact_plain tok Hn) in Hex.
  apply andb_true_iff in Hex. destruct Hex as [Hlen Hch].
  apply Nat.eqb_eq in Hlen.
  destruct (has_star_strchr tok Hhas) as [w Hw].
  unfold prefix_accepts. rewrite Hw.
  pose proof (Hstar w Hw) as Hl. rewrite Hl, Nat.eqb_refl. cbn [andb].
  replace (w <? length f) with true by (symmetry; apply Nat.ltb_lt; lia).
  rewrite (chars_match_firstn _ _ w Hch). apply orb_true_r.
Qed.

End Passes.

Lemma existsb_same {A : Type} (p q : A -> bool) (l : list A) (P : A -> Prop) :
  Forall P l -> (forall a, P a -> p a = q a) -> existsb p l = existsb q l.
Proof.
  intros Hl H. induction Hl as [|a l Ha _ IH]; [reflexivity|].
  cbn [existsb]. rewrite (H a Ha), IH. reflexivity.
Qed.

(** What [mcu_match] returns, in terms of the tokens. *)
Lemma mcu_match_tokens (f l : cstring) :
  family_ok f = true ->
  printable l ->
  Forall star_last (tokens l) ->
  mcu_match f l
  = Ok (existsb (code_exact f (length (strip_arch_suffix f))) (tokens l)
        || existsb (code_prefix f (length (strip_arch_suffix f))) (tokens l)).
Proof.
  intros Hok Hp Hstar. unfold mcu_match. cbv zeta.
  fold (family_ok f). rewrite Hok. cbn [assert bind].
  destruct (stripped_length_spec f Hok) as (-> & _ & Hb & _). cbn [bind].
  rewrite exact_pass_tokens by lia. cbn [bind].
  destruct (existsb (code_exact f (length (strip_arch_suffix f))) (tokens l));
    [reflexivity|].
  rewrite prefix_pass_tokens by (try lia; assumption). reflexivity.
Qed.

(** For a family that has an architecture suffix, the first loop compares
    the tokens with the whole name, suffix included, and accepts none: the
    result is that of the second pass. *)
Lemma mcu_match_with_suffix (f l : cstring) :
  family_ok f = true ->
  length (strip_arch_suffix f) < matchname_size ->
  printable l ->
  Forall star_last (tokens l) ->
  strip_arch_suffix f <> f ->
  mcu_match f l = Ok (existsb (prefix_accepts (strip_arch_suffix f)) (tokens l)).
Proof.
  intros Hok Hshort Hp Hstar Hsuffix.
  rewrite (mcu_match_tokens f l Hok Hp Hstar). f_equal.
  destruct (stripped_length_spec f Hok) as (_ & _ & _ & Hfull).
  assert (Hn : length (strip_arch_suffix f) <> length f)
    by (intros E; exact (Hsuffix (Hfull E))).
  replace (existsb (code_exact f (length (strip_arch_suffix f))) (tokens l)) with false.
  - cbn [orb]. apply (existsb_same _ _ _ star_last Hstar). intros tok Ht.
    apply code_prefix_spec; assumption.
  - symmetry. apply not_true_is_false. intros HE.
    apply existsb_exists in HE. destruct HE as (tok & _ & Hex).
    exact (eq_true_false_abs _ Hex (code_exact_suffix f Hshort tok Hn)).
Qed.

(** C2 (amended). For a family of ASCII characters that the code accepts
    (not empty, no white space at its ends) and that is shorter than the 50
    characters of the code's buffers once its architecture suffix is
    stripped, and for a list of printable ASCII characters in which a [*] is
    the last character of its token: [mcu_match] returns, and
    - for a family with no architecture suffix it returns what the two
      passes of the description give: true iff some token is accepted by
      pass 1 or, failing that, by pass 2;
    - for every family, it returns true only if the description gives true
      for the stripped family;
    - for every family, it returns true whenever pass 2 of the description
      accepts a token for the stripped family.
    Nothing is said of pass 1 for a family that has an architecture suffix,
    nor of a byte from 0x80 on: as a [char] it is a negative value, below
    [' '] and no argument for [toupper]. *)
Theorem mcu_match_two_passes :
  forall mcu_family mcu_list : cstring,
    ascii_only mcu_family ->
    family_ok mcu_family = true ->
    length (strip_arch_suffix mcu_family) < matchname_size ->
    printable mcu_list ->
    Forall star_last (tokens mcu_list) ->
    (exists b, mcu_match mcu_family mcu_list = Ok b) /\
    (strip_arch_suffix mcu_family = mcu_family ->
     mcu_match mcu_family mcu_list = Ok (spec_matches mcu_family mcu_list)) /\
    (mcu_match mcu_family mcu_list = Ok true ->
     spec_matches mcu_family mcu_list = true) /\
    (existsb (prefix_accepts (strip_arch_suffix mcu_family)) (tokens mcu_list) = true ->
     mcu_match mcu_family mcu_list = Ok true).
Proof.
  intros f l _ Hok Hshort Hp Hstar.
  rewrite (mcu_match_tokens f l Hok Hp Hstar).
  set (s := strip_arch_suffix f). set (n := length s).
  assert (HP : existsb (code_prefix f n) (tokens l)
               = existsb (prefix_accepts s) (tokens l)).
  { apply (existsb_same _ _ _ star_last Hstar). intros tok Ht.
    apply code_prefix_spec; assumption. }
  rewrite HP.
  destruct (stripped_length_spec f Hok) as (_ & _ & Hb & Hfull). fold s n in Hb, Hfull.
  assert (Hsound : existsb (code_exact f n) (tokens l) = true ->
                   s = f /\
                   (existsb (exact_accepts f) (tokens l) = true \/
                    existsb (prefix_accepts f) (tokens l) = true)).
  { intros HE. apply existsb_exists in HE. destruct HE as (tok & Hin & Hex).
    destruct (Nat.eq_dec n (length f)) as [Hn | Hn].
    - split; [exact (Hfull Hn)|].
      destruct (has_star tok) eqn:Hhas.
      + right. apply existsb_exists. exists tok. split; [exact Hin|].
        apply (code_exact_star f Hshort tok Hn); try assumption.
        rewrite Forall_forall in Hstar. exact (Hstar tok Hin).
      + left. apply existsb_exists. exists tok. split; [exact Hin|].
        unfold exact_accepts. rewrite Hhas. cbn [negb andb].
        rewrite <- (code_exact_plain f Hshort tok Hn). exact Hex.
    - exfalso.
      exact (eq_true_false_abs _ Hex (code_exact_suffix f Hshort tok Hn)). }
  assert (Hplain : s = f ->
                   existsb (exact_accepts f) (tokens l) = true ->
                   existsb (code_exact f n) (tokens l) = true).
  { intros Hs HE. apply existsb_exists in HE. destruct HE as (tok & Hin & Hex).
    apply existsb_exists. exists tok. split; [exact Hin|].
    assert (Hn : n = length f) by (unfold n; rewrite Hs; reflexivity).
    change (code_exact f (length (strip_arch_suffix f)) tok = true).
    rewrite (code_exact_plain f Hshort tok Hn).
    unfold exact_accepts in Hex. rewrite !andb_true_iff in Hex.
    destruct Hex as [[_ H1] H2]. rewrite H1, H2. reflexivity. }
  unfold spec_matches. fold s.
  split; [eexists; reflexivity|]. split; [|split].
  - intros Hs. rewrite Hs in *. f_equal.
    destruct (existsb (code_exact f n) (tokens l)) eqn:HE.
    + destruct (Hsound eq_refl) as [_ [H | H]]; rewrite H.
      * reflexivity.
      * destruct (existsb (exact_accepts f) (tokens l)); reflexivity.
    + destruct (existsb (exact_accepts f) (tokens l)) eqn:HS; [|reflexivity].
      discriminate (Hplain eq_refl eq_refl).
  - intros H. injection H as H. apply orb_true_iff in H. destruct H as [HE | HPx].
    + destruct (Hsound HE) as [Hs [H | H]]; rewrite Hs; rewrite H.
      * reflexivity.
      * destruct (existsb (exact_accepts f) (tokens l)); reflexivity.
    + rewrite HPx. destruct (existsb (exact_accepts s) (tokens l)); reflexivity.
  - intros H. rewrite H, orb_true_r. reflexivity.
Qed.

Lemma printable_checked (mcu_list : cstring) :
  printable_check mcu_list = true -> printable mcu_list.
Proof.
  unfold printable_check, printable. rewrite forallb_forall, Forall_forall.
  intros H c Hc. specialize (H c Hc). apply andb_true_iff in H.
  destruct H as [H1 H2]. apply Nat.leb_le in H1. apply Nat.ltb_lt in H2. lia.
Qed.

Lemma ascii_only_checked (s : cstring) :
  forallb (fun c => code c <? 128) s = true -> ascii_only s.
Proof.
  unfold ascii_only. rewrite forallb_forall, Forall_forall.
  intros H c Hc. apply Nat.ltb_lt. exact (H c Hc).
Qed.

Lemma star_last_checked (toks : list cstring) :
  forallb star_last_check toks = true -> Forall star_last toks.
Proof.
  rewrite forallb_forall, Forall_forall. intros H tok Hin i Hi.
  specialize (H tok Hin). unfold star_last_check in H. rewrite Hi in H.
  apply Nat.eqb_eq. exact H.
Qed.

Lemma mcu_match_two_passes_witness :
  let mcu_family := cstr "LPC1343" in
  let mcu_list := cstr "LPC8xx,LPC11xx*,LPC11Uxx,LPC12xx,LPC13xx" in
  (exists b, mcu_match mcu_family mcu_list = Ok b) /\
  (strip_arch_suffix mcu_family = mcu_family ->
   mcu_match mcu_family mcu_list = Ok (spec_matches mcu_family mcu_list)) /\
  (mcu_match mcu_family mcu_list = Ok true ->
   spec_matches mcu_family mcu_list = true) /\
  (existsb (prefix_accepts (strip_arch_suffix mcu_family)) (tokens mcu_list) = true ->
   mcu_match mcu_family mcu_list = Ok true).
Proof.
  intros mcu_family mcu_list.
  apply (mcu_match_two_passes mcu_family mcu_list).
  - apply ascii_only_checked. vm_compute. reflexivity.
  - vm_compute. reflexivity.
  - vm_compute. repeat constructor.
  - apply printable_checked. vm_compute. reflexivity.
  - apply star_last_checked. vm_compute. reflexivity.
Defined.

(** C2, counterexample. Five inputs at which [mcu_match] does not return
    what the description gives: a family with an architecture suffix against
    the token that equals the stripped family; a family and an equal token of
    50 characters; a token with a [*] that is not its last character; a
    token with a [*] that a tab follows; and the empty family against the
    token [*]. *)
Lemma mcu_match_differs_from_description :
  (mcu_match (cstr "STM32F103 M3") (cstr "STM32F103") = Ok false /\
   spec_matches (cstr "STM32F103 M3") (cstr "STM32F103") = true) /\
  (mcu_match fifty_letters fifty_letters = Ok false /\
   spec_matches fifty_letters fifty_letters = true) /\
  (mcu_match (cstr "A") (cstr "B*C") = AssertFail /\
   spec_matches (cstr "A") (cstr "B*C") = false) /\
  (mcu_match (cstr "ABC") (cstr "AB*" ++ [ascii_of_nat 9]) = AssertFail /\
   spec_matches (cstr "ABC") (cstr "AB*" ++ [ascii_of_nat 9]) = true) /\
  (mcu_match [] (cstr "*") = AssertFail /\
   spec_matches [] (cstr "*") = true).
Proof. repeat split; vm_compute; reflexivity. Qed.

(** ** The bounds of the loops are large enough *)

Lemma exact_pass_fuel (mcufamily : cstring) (namelen : nat) :
  forall fuel l,
    length l < fuel ->
    exact_pass fuel mcufamily namelen (skipleading l) <> NoFuel.
Proof.
  induction fuel as [|fuel IH]; intros l Hl; [lia|].
  rewrite exact_pass_step. destruct (item_view l) as (_ & _ & Hnext). cbv zeta.
  rewrite Hnext. destruct (skipleading l); [discriminate|].
  match goal with
  | |- (if ?b then _ else _) <> _ => destruct b; [discriminate|]
  end.
  destruct (after_comma l) as [r|] eqn:Ha.
  - apply IH. apply after_comma_shorter in Ha. lia.
  - rewrite exact_pass_nil. discriminate.
Qed.

Lemma prefix_pass_fuel (mcufamily : cstring) (namelen : nat) :
  forall fuel l,
    length l < fuel ->
    prefix_pass fuel mcufamily namelen (skipleading l) <> NoFuel.
Proof.
  induction fuel as [|fuel IH]; intros l Hl; [lia|].
  rewrite prefix_pass_step. destruct (item_view l) as (_ & _ & Hnext). cbv zeta.
  rewrite Hnext.
  assert (Hc : prefix_pass fuel mcufamily namelen
                 match after_comma l with
                 | Some r => skipleading r
                 | None => []
                 end <> NoFuel).
  { destruct (after_comma l) as [r|] eqn:Ha.
    - apply IH. apply after_comma_shorter in Ha. lia.
    - rewrite prefix_pass_nil. discriminate. }
  destruct (skipleading l); [discriminate|].
  match goal with
  | |- match ?s with Some _ => _ | None => _ end <> _ => destruct s as [w|]
  end; [|exact Hc].
  match goal with
  | |- (if ?b then _ else _) <> _ => destruct b; [|exact Hc]
  end.
  match goal with
  | |- bind (assert ?b) _ <> _ => destruct b; cbn [assert bind]; [|discriminate]
  end.
  destruct (w =? 0); [discriminate|].
  match goal with
  | |- (if ?b then _ else _) <> _ => destruct b; [discriminate | exact Hc]
  end.
Qed.

(** [mcu_match] returns or fails an assertion: its loops end within the
    bound that the model gives them. *)
Lemma mcu_match_has_fuel (f l : cstring) : mcu_match f l <> NoFuel.
Proof.
  unfold mcu_match. cbv zeta. fold (family_ok f).
  destruct (family_ok f) eqn:Hok; cbn [assert bind]; [|discriminate].
  destruct (stripped_length_spec f Hok) as (-> & _ & Hb & _). cbn [bind].
  rewrite exact_pass_tokens by lia. cbn [bind].
  destruct (existsb _ (tokens l)); [discriminate|].
  apply prefix_pass_fuel. lia.
Qed.

Lemma skipleading_length (s : cstring) : length (skipleading s) <= length s.
Proof.
  induction s as [|c s IH]; simpl; [lia|]. destruct (le_space c); simpl; lia.
Qed.

Lemma skip_isspace_length (s : cstring) : length (skip_isspace s) <= length s.
Proof.
  induction s as [|c s IH]; simpl; [lia|]. destruct (isspace c); simpl; lia.
Qed.

Lemma skip_to_eol_length (s : cstring) : length (skip_to_eol s) <= length s.
Proof.
  induction s as [|c s IH]; simpl; [lia|].
  destruct (negb (ceqb c LF) && le_space c); simpl; lia.
Qed.

Lemma digits_from_length (base : Z) (s : cstring) :
  forall acc, length (snd (digits_from base acc s)) <= length s.
Proof.
  induction s as [|c s IH]; intros acc; simpl; [lia|].
  destruct (digit_in base c); [specialize (IH (acc * base + z)%Z); lia | simpl; lia].
Qed.

(** [strtoul] sets [end] inside the string. *)
Lemma strtoul_length (s : cstring) : length (snd (strtoul s)) <= length s.
Proof.
  unfold strtoul.
  pose proof (skip_isspace_length s) as H1.
  set (s1 := skip_isspace s) in *.
  set (p := match s1 with
            | [] => (false, s1)
            | c :: r => if ceqb c "-"%char then (true, r)
                        else if ceqb c "+"%char then (false, r) else (false, s1)
            end).
  assert (H2 : length (snd p) <= length s1).
  { subst p. destruct s1 as [|c r]; [simpl; lia|].
    destruct (ceqb c "-"%char); [simpl; lia|].
    destruct (ceqb c "+"%char); simpl; lia. }
  destruct p as [neg s2]. cbn [snd] in H2.
  set (q := match s2 with
            | [] => (10%Z, s2)
            | [z] => if ceqb z "0"%char then (8%Z, s2) else (10%Z, s2)
            | [z; _] => if ceqb z "0"%char then (8%Z, s2) else (10%Z, s2)
            | z :: x :: h :: r =>
                if ceqb z "0"%char && is_x x
                   && match digit_in 16 h with Some _ => true | None => false end
                then (16%Z, h :: r)
                else if ceqb z "0"%char then (8%Z, s2) else (10%Z, s2)
            end).
  assert (H3 : length (snd q) <= length s2).
  { subst q. destruct s2 as [|z [|x [|h r]]]; try (simpl; lia).
    - destruct (ceqb z "0"%char); simpl; lia.
    - destruct (ceqb z "0"%char); simpl; lia.
    - destruct (ceqb z "0"%char && is_x x
                && match digit_in 16 h with Some _ => true | None => false end);
        [simpl; lia|].
      destruct (ceqb z "0"%char); simpl; lia. }
  destruct q as [base s3]. cbn [snd] in H3.
  destruct s3 as [|c r]; [simpl; lia|].
  destruct (digit_in base c); [|simpl; lia].
  pose proof (digits_from_length base (c :: r) 0) as H4.
  destruct (digits_from base 0 (c :: r)) as [v rest]. cbn [snd] in *. lia.
Qed.

Lemma param_ref_length (line rest : cstring) (v : Z) :
  param_ref line = Ok (v, rest) -> length rest < length line.
Proof.
  unfold param_ref. destruct line as [|a [|d r]]; try discriminate.
  intros H. assert (E : rest = r) by congruence. subst rest. cbn [length]. lia.
Qed.

Lemma parse_destination_length (line rest : cstring) (registers : list REG_DEF)
    (a sz : Z) :
  parse_destination line registers = Ok (a, sz, rest) -> length rest <= length line.
Proof.
  unfold parse_destination.
  destruct (isdigit (deref line)).
  - pose proof (strtoul_length line) as H. destruct (strtoul line) as [v r].
    intros E; injection E as _ _ <-. exact H.
  - destruct (ceqb (deref line) "$"%char).
    + destruct (param_ref line) as [[p r]| | |] eqn:Hp; cbn [bind]; try discriminate.
      intros E; injection E as _ _ <-. apply param_ref_length in Hp. lia.
    + destruct (lookup_register line (ident_len line) registers); [|discriminate].
      intros E; injection E as _ _ <-. rewrite length_skipn. lia.
Qed.

Lemma parse_operation_length (line rest : cstring) (oper : ascii) (invert : bool) :
  parse_operation line = Ok (oper, invert, rest) -> length rest < length line.
Proof.
  rewrite parse_operation_eq. cbv zeta.
  destruct (is_operator (deref (skipleading line))) eqn:Hop; [|discriminate].
  intros E; injection E as _ _ <-.
  pose proof (skipleading_length line) as H1.
  assert (H2 : length (after_operator line) < length line).
  { unfold after_operator.
    destruct (skipleading line) as [|c l1]; [discriminate Hop|].
    cbn [tl length] in *.
    pose proof (skipleading_length (if ceqb (deref l1) "="%char then tl l1 else l1)).
    destruct (ceqb (deref l1) "="%char); [destruct l1; simpl in *; lia | lia]. }
  destruct (ceqb (deref (after_operator line)) "~"%char); [|exact H2].
  pose proof (skipleading_length (tl (after_operator line))).
  destruct (after_operator line); simpl in *; lia.
Qed.

Lemma parse_source_length (line rest : cstring) (oper oper' : ascii) (invert : bool)
    (v : Z) :
  parse_source oper invert line = Ok (oper', v, rest) -> length rest <= length line.
Proof.
  unfold parse_source. destruct (ceqb (deref line) "$"%char).
  - destruct (param_ref line) as [[p r]| | |] eqn:Hp; cbn [bind]; try discriminate.
    destruct (assert (negb invert || ceqb oper "&"%char)); cbn [bind]; try discriminate.
    intros E; injection E as _ _ <-. apply param_ref_length in Hp. lia.
  - pose proof (strtoul_length line) as H. destruct (strtoul line) as [v0 r].
    intros E; injection E as _ _ <-. exact H.
Qed.

(** The parser returns a pointer behind at least one character of the line. *)
Lemma parseline_length (line rest : cstring) (registers : list REG_DEF)
    (l : SCRIPTLINE) :
  parseline line registers = Ok (rest, l) -> length rest < length line.
Proof.
  unfold parseline. cbv zeta.
  set (l0 := if strneq (skipleading line) (cstr "set") 3
                && le_space (char_at (skipleading line) 3)
             then skipleading (skipn 3 (skipleading line)) else skipleading line).
  assert (H0 : length l0 <= length line).
  { subst l0. pose proof (skipleading_length line).
    pose proof (skipleading_length (skipn 3 (skipleading line))) as H3.
    rewrite length_skipn in H3.
    destruct (strneq (skipleading line) (cstr "set") 3
              && le_space (char_at (skipleading line) 3)); lia. }
  destruct (parse_destination l0 registers) as [[[a sz] l1]| | |] eqn:Hd;
    cbn [bind]; try discriminate.
  destruct (parse_operation l1) as [[[op inv] l2]| | |] eqn:Ho;
    cbn [bind]; try discriminate.
  destruct (parse_source op inv l2) as [[[op' v] l3]| | |] eqn:Hs;
    cbn [bind]; try discriminate.
  match goal with
  | |- context [assert ?b] => destruct (assert b)
  end; cbn [bind]; try discriminate.
  intros E; injection E as <- _.
  apply parse_destination_length in Hd. apply parse_operation_length in Ho.
  apply parse_source_length in Hs.
  pose proof (skip_to_eol_length l3). pose proof (skipleading_length (skip_to_eol l3)).
  lia.
Qed.

Lemma param_ref_has_fuel (line : cstring) : param_ref line <> NoFuel.
Proof. unfold param_ref. destruct line as [|a [|d r]]; discriminate. Qed.

Lemma parse_destination_has_fuel (line : cstring) (registers : list REG_DEF) :
  parse_destination line registers <> NoFuel.
Proof.
  unfold parse_destination.
  destruct (isdigit (deref line)); [destruct (strtoul line); discriminate|].
  destruct (ceqb (deref line) "$"%char).
  - pose proof (param_ref_has_fuel line) as Hp.
    destruct (param_ref line) as [[p r]| | |]; cbn [bind];
      try discriminate; contradiction.
  - destruct (lookup_register line (ident_len line) registers); discriminate.
Qed.

Lemma parse_operation_has_fuel (line : cstring) : parse_operation line <> NoFuel.
Proof.
  rewrite parse_operation_eq. cbv zeta.
  destruct (is_operator (deref (skipleading line))); discriminate.
Qed.

Lemma parse_source_has_fuel (oper : ascii) (invert : bool) (line : cstring) :
  parse_source oper invert line <> NoFuel.
Proof.
  unfold parse_source. destruct (ceqb (deref line) "$"%char).
  - pose proof (param_ref_has_fuel line) as Hp.
    destruct (param_ref line) as [[p r]| | |]; cbn [bind];
      try discriminate; try contradiction.
    destruct (negb invert || ceqb oper "&"%char); cbn [assert bind]; discriminate.
  - destruct (strtoul line). discriminate.
Qed.

Lemma parseline_has_fuel (line : cstring) (registers : list REG_DEF) :
  parseline line registers <> NoFuel.
Proof.
  unfold parseline. cbv zeta.
  match goal with
  | |- context [parse_destination ?l0 registers] =>
      pose proof (parse_destination_has_fuel l0 registers) as Hd;
      destruct (parse_destination l0 registers) as [[[a sz] l1]| | |]
  end; cbn [bind]; try discriminate; try contradiction.
  pose proof (parse_operation_has_fuel l1) as Ho.
  destruct (parse_operation l1) as [[[op inv] l2]| | |]; cbn [bind];
    try discriminate; try contradiction.
  pose proof (parse_source_has_fuel op inv l2) as Hs.
  destruct (parse_source op inv l2) as [[[op' v] l3]| | |]; cbn [bind];
    try discriminate; try contradiction.
  match goal with
  | |- context [assert ?b] => destruct b
  end; cbn [assert bind]; discriminate.
Qed.

Lemma parse_script_has_fuel (registers : list REG_DEF) :
  forall fuel head,
    length head <= fuel -> parse_script fuel head registers <> NoFuel.
Proof.
  induction fuel as [|fuel IH]; intros head Hl.
  - destruct head; [discriminate | simpl in Hl; lia].
  - destruct head as [|c head]; [discriminate|]. cbn [parse_script].
    pose proof (parseline_has_fuel (c :: head) registers) as Hp.
    destruct (parseline (c :: head) registers) as [[head' l]| | |] eqn:E;
      cbn [bind]; try discriminate; try contradiction.
    apply parseline_length in E.
    assert (Hr : parse_script fuel head' registers <> NoFuel) by (apply IH; lia).
    destruct (parse_script fuel head' registers); cbn [bind];
      try discriminate; contradiction.
Qed.

Lemma load_registers_has_fuel (mcu : cstring) (defaults : list REG_DEF) :
  load_registers mcu defaults <> NoFuel.
Proof.
  induction defaults as [|d defaults IH]; [discriminate|]. cbn [load_registers].
  match goal with
  | |- context [mcu_match mcu ?l] =>
      pose proof (mcu_match_has_fuel mcu l) as Hm; destruct (mcu_match mcu l)
  end; cbn [bind]; try discriminate; try contradiction.
  destruct (load_registers mcu defaults); cbn [bind]; try discriminate; contradiction.
Qed.

Lemma load_scripts_has_fuel (mcu arch_name : cstring) (registers : list REG_DEF) :
  forall defaults st, load_scripts mcu arch_name registers defaults st <> NoFuel.
Proof.
  induction defaults as [|d defaults IH]; intros st; [discriminate|].
  cbn [load_scripts].
  assert (Ha : script_applies mcu arch_name (def_mcu_list d) <> NoFuel).
  { unfold script_applies.
    pose proof (mcu_match_has_fuel mcu (def_mcu_list d)) as Hm.
    destruct (mcu_match mcu (def_mcu_list d)) as [m| | |]; cbn [bind];
      try discriminate; try contradiction.
    destruct m; [discriminate|]. destruct arch_name; [discriminate|].
    apply mcu_match_has_fuel. }
  destruct (script_applies mcu arch_name (def_mcu_list d)) as [a| | |]; cbn [bind];
    try discriminate; try contradiction.
  destruct a; cbn [bind]; [|apply IH].
  pose proof (parse_script_has_fuel registers
                (length (skipleading (def_script d))) (skipleading (def_script d))
                (le_n _)) as Hp.
  destruct (parse_script _ _ registers); cbn [bind];
    try discriminate; try contradiction.
  apply IH.
Qed.

(** [bmscript_load] returns, fails an assertion or reads outside a string:
    none of its loops needs more than the bound that the model gives it. *)
Lemma bmscript_load_has_fuel (mcu : cstring) (arch : option cstring) (st : session) :
  bmscript_load mcu arch st <> NoFuel.
Proof.
  unfold bmscript_load.
  destruct (match root_name st with Some n => streq n mcu | None => false end);
    [discriminate|].
  pose proof (load_registers_has_fuel mcu register_defaults) as Hr.
  destruct (load_registers mcu register_defaults) as [registers| | |]; cbn [bind];
    try discriminate; try contradiction.
  match goal with
  | |- context [bind ?m _] =>
      assert (Harch : m <> NoFuel);
      [|destruct m as [arch_name| | |]; cbn [bind];
        try discriminate; try contradiction]
  end.
  { destruct arch as [[|c a]|]; try discriminate.
    destruct (length (c :: a) <? arch_name_size - 2); cbn [assert bind]; discriminate. }
  pose proof (load_scripts_has_fuel mcu arch_name registers script_defaults
                (bmscript_clear st)) as Hl.
  destruct (load_scripts mcu arch_name registers script_defaults (bmscript_clear st));
    cbn [bind]; try discriminate; contradiction.
Qed.

(** ** Case of the letters of a name *)

Lemma toupper_toupper (c : ascii) : toupper (toupper c) = toupper c.
Proof. destruct c as [[] [] [] [] [] [] [] []]; vm_compute; reflexivity. Qed.

Lemma toupper_tolower (c : ascii) : toupper (tolower c) = toupper c.
Proof. destruct c as [[] [] [] [] [] [] [] []]; vm_compute; reflexivity. Qed.

Lemma gt_space_toupper (c : ascii) : gt_space (toupper c) = gt_space c.
Proof. destruct c as [[] [] [] [] [] [] [] []]; vm_compute; reflexivity. Qed.

Lemma gt_space_tolower (c : ascii) : gt_space (tolower c) = gt_space c.
Proof. destruct c as [[] [] [] [] [] [] [] []]; vm_compute; reflexivity. Qed.

Lemma space_toupper (c : ascii) : ceqb (toupper c) " "%char = ceqb c " "%char.
Proof. destruct c as [[] [] [] [] [] [] [] []]; vm_compute; reflexivity. Qed.

Lemma space_tolower (c : ascii) : ceqb (tolower c) " "%char = ceqb c " "%char.
Proof. destruct c as [[] [] [] [] [] [] [] []]; vm_compute; reflexivity. Qed.

Lemma case_change_toupper : case_change toupper.
Proof.
  repeat split; auto using toupper_toupper, gt_space_toupper, space_toupper.
Qed.

Lemma case_change_tolower : case_change tolower.
Proof.
  repeat split; auto using toupper_tolower, gt_space_tolower, space_tolower.
Qed.

Lemma architecture_match_case (g : ascii -> ascii) (a m : cstring) :
  case_change g -> architecture_match a (map g m) = architecture_match a m.
Proof.
  intros (Hg & _). revert m; induction a as [|x a IH]; intros [|y m]; try reflexivity.
  cbn [map architecture_match]. rewrite Hg, IH. reflexivity.
Qed.

Lemma char_at_map (g : ascii -> ascii) (f : cstring) (i : nat) :
  g NUL = NUL -> char_at (map g f) i = g (char_at f i).
Proof.
  intros H0. unfold char_at. rewrite <- H0 at 1. apply map_nth.
Qed.

Lemma strrchr_map_none (g : ascii -> ascii) (f : cstring) :
  case_change g -> strrchr f " "%char = None -> strrchr (map g f) " "%char = None.
Proof.
  intros (_ & _ & Hs & _). induction f as [|c f IH]; [reflexivity|].
  cbn [map strrchr]. destruct (strrchr f " "%char); [discriminate|].
  rewrite Hs. destruct (ceqb c " "%char); [discriminate|].
  intros _. rewrite IH; reflexivity.
Qed.

Lemma exact_pass_case (g : ascii -> ascii) (f : cstring) (n : nat) :
  case_change g ->
  forall fuel head, exact_pass fuel (map g f) n head = exact_pass fuel f n head.
Proof.
  intros Hg. induction fuel as [|fuel IH]; intros [|c head]; try reflexivity.
  cbn [exact_pass]. rewrite (architecture_match_case g _ f Hg), IH. reflexivity.
Qed.

Lemma prefix_pass_case (g : ascii -> ascii) (f : cstring) (n : nat) :
  case_change g ->
  forall fuel head, prefix_pass fuel (map g f) n head = prefix_pass fuel f n head.
Proof.
  intros Hg. induction fuel as [|fuel IH]; intros [|c head]; try reflexivity.
  cbn [prefix_pass]. rewrite IH.
  destruct (strchr (c :: head) "*"%char) as [w|]; [|reflexivity].
  rewrite firstn_map, (architecture_match_case g _ _ Hg). reflexivity.
Qed.

Lemma mcu_match_case (g : ascii -> ascii) (f l : cstring) :
  case_change g -> strrchr f " "%char = None ->
  mcu_match (map g f) l = mcu_match f l.
Proof.
  intros Hg Hsp. pose proof Hg as (_ & Hgt & _ & H0).
  unfold mcu_match, stripped_length. cbv zeta.
  rewrite (strrchr_map_none g f Hg Hsp), Hsp.
  rewrite length_map, !(char_at_map g f _ H0), !Hgt.
  cbn [bind]. rewrite (exact_pass_case g f _ Hg), (prefix_pass_case g f _ Hg).
  reflexivity.
Qed.

(** X1. [architecture_match] ignores the case of the letters of [mcufamily]:
    the result is the same for the name in upper case and in lower case. *)
Theorem architecture_match_ignores_family_case (architecture mcufamily : cstring) :
  architecture_match architecture (map toupper mcufamily)
    = architecture_match architecture mcufamily /\
  architecture_match architecture (map tolower mcufamily)
    = architecture_match architecture mcufamily.
Proof.
  split; apply architecture_match_case;
    [apply case_change_toupper | apply case_change_tolower].
Qed.

(** X2. For an MCU name of ASCII characters that holds no space,
    [mcu_match] ignores the case of its letters: with the name in upper case
    or in lower case it ends the same way, with the same result or the same
    failing assertion, whatever the list is. *)
Theorem mcu_match_ignores_case (mcufamily list : cstring) :
  ascii_only mcufamily ->
  strrchr mcufamily " "%char = None ->
  mcu_match (map toupper mcufamily) list = mcu_match mcufamily list /\
  mcu_match (map tolower mcufamily) list = mcu_match mcufamily list.
Proof.
  intros _ H.
  split; apply mcu_match_case; auto using case_change_toupper, case_change_tolower.
Qed.

Lemma mcu_match_ignores_case_witness :
  mcu_match (map toupper (cstr "stm32f103")) (cstr "STM32F1*")
    = mcu_match (cstr "stm32f103") (cstr "STM32F1*") /\
  mcu_match (map tolower (cstr "stm32f103")) (cstr "STM32F1*")
    = mcu_match (cstr "stm32f103") (cstr "STM32F1*").
Proof.
  apply (mcu_match_ignores_case (cstr "stm32f103") (cstr "STM32F1*")).
  - apply ascii_only_checked. vm_compute. reflexivity.
  - reflexivity.
Defined.

(** ** Pointers into the line *)

Lemma points_into_refl (s : cstring) : points_into s s.
Proof. exists 0. reflexivity. Qed.

Lemma points_into_trans (p q s : cstring) :
  points_into p q -> points_into q s -> points_into p s.
Proof.
  intros [k ->] [j ->]. exists (j + k). rewrite skipn_skipn.
  f_equal. lia.
Qed.

Lemma points_into_tl (s : cstring) : points_into (tl s) s.
Proof. exists 1. destruct s; reflexivity. Qed.

Lemma points_into_cons (c : ascii) (p s : cstring) :
  points_into p s -> points_into p (c :: s).
Proof. intros [k ->]. exists (S k). reflexivity. Qed.

Lemma points_into_skipleading (s : cstring) : points_into (skipleading s) s.
Proof.
  induction s as [|c s IH]; [apply points_into_refl|]. cbn [skipleading].
  destruct (le_space c); [apply points_into_cons, IH | apply points_into_refl].
Qed.

Lemma points_into_skip_isspace (s : cstring) : points_into (skip_isspace s) s.
Proof.
  induction s as [|c s IH]; [apply points_into_refl|]. cbn [skip_isspace].
  destruct (isspace c); [apply points_into_cons, IH | apply points_into_refl].
Qed.

Lemma points_into_skip_to_eol (s : cstring) : points_into (skip_to_eol s) s.
Proof.
  induction s as [|c s IH]; [apply points_into_refl|]. cbn [skip_to_eol].
  destruct (negb (ceqb c LF) && le_space c);
    [apply points_into_cons, IH | apply points_into_refl].
Qed.

Lemma points_into_digits (base : Z) (s : cstring) :
  forall acc, points_into (snd (digits_from base acc s)) s.
Proof.
  induction s as [|c s IH]; intros acc; [apply points_into_refl|].
  cbn [digits_from]. destruct (digit_in base c);
    [apply points_into_cons, IH | apply points_into_refl].
Qed.

(** [strtoul] sets [end] to a pointer into the string. *)
Lemma points_into_strtoul (s : cstring) : points_into (snd (strtoul s)) s.
Proof.
  unfold strtoul.
  pose proof (points_into_skip_isspace s) as H1.
  set (s1 := skip_isspace s) in *.
  set (p := match s1 with
            | [] => (false, s1)
            | c :: r => if ceqb c "-"%char then (true, r)
                        else if ceqb c "+"%char then (false, r) else (false, s1)
            end).
  assert (H2 : points_into (snd p) s1).
  { subst p. destruct s1 as [|c r]; [apply points_into_refl|].
    destruct (ceqb c "-"%char); [apply (points_into_tl (c :: r))|].
    destruct (ceqb c "+"%char);
      [apply (points_into_tl (c :: r)) | apply points_into_refl]. }
  destruct p as [neg s2]. cbn [snd] in H2.
  set (q := match s2 with
            | [] => (10%Z, s2)
            | [z] => if ceqb z "0"%char then (8%Z, s2) else (10%Z, s2)
            | [z; _] => if ceqb z "0"%char then (8%Z, s2) else (10%Z, s2)
            | z :: x :: h :: r =>
                if ceqb z "0"%char && is_x x
                   && match digit_in 16 h with Some _ => true | None => false end
                then (16%Z, h :: r)
                else if ceqb z "0"%char then (8%Z, s2) else (10%Z, s2)
            end).
  assert (H3 : points_into (snd q) s2).
  { subst q. destruct s2 as [|z [|x [|h r]]]; try apply points_into_refl.
    - destruct (ceqb z "0"%char); apply points_into_refl.
    - destruct (ceqb z "0"%char); apply points_into_refl.
    - destruct (ceqb z "0"%char && is_x x
                && match digit_in 16 h with Some _ => true | None => false end);
        [exists 2; reflexivity|].
      destruct (ceqb z "0"%char); apply points_into_refl. }
  destruct q as [base s3]. cbn [snd] in H3.
  destruct s3 as [|c r]; [apply points_into_refl|].
  destruct (digit_in base c); [|apply points_into_refl].
  pose proof (points_into_digits base (c :: r) 0) as H4.
  destruct (digits_from base 0 (c :: r)) as [v rest]. cbn [snd] in *.
  eauto using points_into_trans.
Qed.

Lemma points_into_param_ref (line rest : cstring) (v : Z) :
  param_ref line = Ok (v, rest) -> points_into rest line.
Proof.
  unfold param_ref. destruct line as [|a [|d r]]; try discriminate.
  intros H. assert (E : rest = r) by congruence. subst rest. exists 2. reflexivity.
Qed.

Lemma points_into_destination (line rest : cstring) (registers : list REG_DEF)
    (a sz : Z) :
  parse_destination line registers = Ok (a, sz, rest) -> points_into rest line.
Proof.
  unfold parse_destination.
  destruct (isdigit (deref line)).
  - pose proof (points_into_strtoul line) as H. destruct (strtoul line) as [v r].
    intros E; injection E as _ _ <-. exact H.
  - destruct (ceqb (deref line) "$"%char).
    + destruct (param_ref line) as [[p r]| | |] eqn:Hp; cbn [bind]; try discriminate.
      intros E; injection E as _ _ <-. exact (points_into_param_ref _ _ _ Hp).
    + destruct (lookup_register line (ident_len line) registers); [|discriminate].
      intros E; injection E as _ _ <-. eexists; reflexivity.
Qed.

Lemma points_into_operation (line rest : cstring) (oper : ascii) (invert : bool) :
  parse_operation line = Ok (oper, invert, rest) -> points_into rest line.
Proof.
  rewrite parse_operation_eq. cbv zeta.
  destruct (is_operator (deref (skipleading line))); [|discriminate].
  intros E; injection E as _ _ <-.
  assert (H2 : points_into (after_operator line) line).
  { unfold after_operator.
    eapply points_into_trans; [apply points_into_skipleading|].
    eapply points_into_trans;
      [|eapply points_into_trans; [apply points_into_tl | apply points_into_skipleading]].
    destruct (ceqb (deref (tl (skipleading line))) "="%char);
      [apply points_into_tl | apply points_into_refl]. }
  destruct (ceqb (deref (after_operator line)) "~"%char); [|exact H2].
  eapply points_into_trans; [apply points_into_skipleading|].
  eapply points_into_trans; [apply points_into_tl | exact H2].
Qed.

Lemma points_into_source (line rest : cstring) (oper oper' : ascii) (invert : bool)
    (v : Z) :
  parse_source oper invert line = Ok (oper', v, rest) -> points_into rest line.
Proof.
  unfold parse_source. destruct (ceqb (deref line) "$"%char).
  - destruct (param_ref line) as [[p r]| | |] eqn:Hp; cbn [bind]; try discriminate.
    destruct (assert (negb invert || ceqb oper "&"%char)); cbn [bind]; try discriminate.
    intros E; injection E as _ _ <-. exact (points_into_param_ref _ _ _ Hp).
  - pose proof (points_into_strtoul line) as H. destruct (strtoul line) as [v0 r].
    intros E; injection E as _ _ <-. exact H.
Qed.

Lemma points_into_parseline (line rest : cstring) (registers : list REG_DEF)
    (l : SCRIPTLINE) :
  parseline line registers = Ok (rest, l) -> points_into rest line.
Proof.
  unfold parseline. cbv zeta.
  set (l0 := if strneq (skipleading line) (cstr "set") 3
                && le_space (char_at (skipleading line) 3)
             then skipleading (skipn 3 (skipleading line)) else skipleading line).
  assert (H0 : points_into l0 line).
  { subst l0.
    destruct (strneq (skipleading line) (cstr "set") 3
              && le_space (char_at (skipleading line) 3));
      [|apply points_into_skipleading].
    eapply points_into_trans; [apply points_into_skipleading|].
    eapply points_into_trans; [eexists; reflexivity | apply points_into_skipleading]. }
  destruct (parse_destination l0 registers) as [[[a sz] l1]| | |] eqn:Hd;
    cbn [bind]; try discriminate.
  destruct (parse_operation l1) as [[[op inv] l2]| | |] eqn:Ho;
    cbn [bind]; try discriminate.
  destruct (parse_source op inv l2) as [[[op' v] l3]| | |] eqn:Hs;
    cbn [bind]; try discriminate.
  match goal with
  | |- context [assert ?b] => destruct (assert b)
  end; cbn [bind]; try discriminate.
  intros E; injection E as <- _.
  apply points_into_destination in Hd. apply points_into_operation in Ho.
  apply points_into_source in Hs.
  eapply points_into_trans; [apply points_into_skipleading|].
  eapply points_into_trans; [apply points_into_skip_to_eol|].
  eauto using points_into_trans.
Qed.

(** X3. When [parseline] returns, the pointer it returns points into the line,
    behind at least one character of it, and, for a register table of widths
    1, 2 and 4, the instruction has one of these widths and one of the four
    operator codes. *)
Theorem parseline_advances (line rest : cstring) (registers : list REG_DEF)
    (l : SCRIPTLINE) :
  Forall (fun r => width_ok (reg_size r)) registers ->
  parseline line registers = Ok (rest, l) ->
  points_into rest line /\ length rest < length line /\ compiled l.
Proof.
  intros Hw H. split; [|split].
  - exact (points_into_parseline _ _ _ _ H).
  - exact (parseline_length _ _ _ _ H).
  - exact (parseline_compiled _ _ _ _ Hw H).
Qed.

Lemma parseline_advances_witness :
  let line := cstr "GPIOB_MODER ~= 0x00c0 \nGPIOB_MODER |= 0x0080 \n" in
  let rest := cstr "GPIOB_MODER |= 0x0080 \n" in
  let l := {| line_address := 1073873920; line_value := 4294967103; line_size := 4;
              line_oper := "&"%char |} in
  points_into rest line /\ length rest < length line /\ compiled l.
Proof.
  intros line rest l.
  apply (parseline_advances line rest stm32f407_registers l).
  - apply Forall_forall. intros r Hr.
    assert (E : forallb (fun r => (reg_size r =? 4)%Z) stm32f407_registers = true)
      by (vm_compute; reflexivity).
    rewrite forallb_forall in E. specialize (E r Hr). apply Z.eqb_eq in E.
    right; right. exact E.
  - vm_compute. reflexivity.
Defined.

(** ** Numbers in hexadecimal *)

Lemma digit_in_hex_digit (d : Z) :
  (0 <= d < 16)%Z -> digit_in 16 (hex_digit d) = Some d.
Proof.
  intros H.
  assert (E : (d = 0 \/ d = 1 \/ d = 2 \/ d = 3 \/ d = 4 \/ d = 5 \/ d = 6 \/ d = 7 \/
               d = 8 \/ d = 9 \/ d = 10 \/ d = 11 \/ d = 12 \/ d = 13 \/ d = 14 \/
               d = 15)%Z) by lia.
  repeat (destruct E as [-> | E]; [vm_compute; reflexivity|]).
  subst d. vm_compute. reflexivity.
Qed.

Lemma hex_loop_zero (fuel : nat) (acc : cstring) : hex_loop fuel 0 acc = acc.
Proof. destruct fuel; reflexivity. Qed.

Lemma hex_loop_app (fuel : nat) :
  forall v acc rest, hex_loop fuel v acc ++ rest = hex_loop fuel v (acc ++ rest).
Proof.
  induction fuel as [|fuel IH]; intros v acc rest; [reflexivity|].
  cbn [hex_loop]. destruct (v =? 0)%Z; [reflexivity|]. rewrite IH. reflexivity.
Qed.

(** The digits that [%x] writes are read back to the value. *)
Lemma hex_loop_digits (fuel : nat) :
  forall v acc a,
    (0 <= v < 16 ^ Z.of_nat fuel)%Z ->
    exists k, (0 <= k)%Z /\
      digits_from 16 a (hex_loop fuel v acc) = digits_from 16 (a * 16 ^ k + v) acc.
Proof.
  induction fuel as [|fuel IH]; intros v acc a Hv.
  - exists 0%Z. split; [lia|]. cbn [hex_loop]. f_equal.
    change (16 ^ Z.of_nat 0)%Z with 1%Z in Hv. lia.
  - cbn [hex_loop]. destruct (v =? 0)%Z eqn:E.
    + apply Z.eqb_eq in E. subst v. exists 0%Z. split; [lia|]. f_equal. lia.
    + apply Z.eqb_neq in E.
      assert (Hq : (0 <= v / 16 < 16 ^ Z.of_nat fuel)%Z).
      { rewrite Nat2Z.inj_succ, Z.pow_succ_r in Hv by lia.
        split; [apply Z.div_pos; lia|]. apply Z.div_lt_upper_bound; lia. }
      destruct (IH (v / 16)%Z (hex_digit (v mod 16) :: acc) a Hq) as (k & Hk & ->).
      exists (k + 1)%Z. split; [lia|]. cbn [digits_from].
      rewrite digit_in_hex_digit by (apply Z.mod_pos_bound; lia).
      f_equal. rewrite Z.pow_add_r by lia.
      pose proof (Z.div_mod v 16 ltac:(lia)). lia.
Qed.

Lemma hex_loop_head (fuel : nat) :
  forall v acc,
    (0 < v < 16 ^ Z.of_nat fuel)%Z ->
    exists d r, hex_loop fuel v acc = hex_digit d :: r /\ (0 <= d < 16)%Z.
Proof.
  induction fuel as [|fuel IH]; intros v acc Hv.
  - change (16 ^ Z.of_nat 0)%Z with 1%Z in Hv. lia.
  - cbn [hex_loop]. replace (v =? 0)%Z with false by (symmetry; apply Z.eqb_neq; lia).
    destruct (v / 16 =? 0)%Z eqn:E.
    + apply Z.eqb_eq in E. rewrite E, hex_loop_zero.
      exists (v mod 16)%Z, acc. split; [reflexivity|]. apply Z.mod_pos_bound; lia.
    + apply Z.eqb_neq in E. apply IH.
      rewrite Nat2Z.inj_succ, Z.pow_succ_r in Hv by lia.
      assert (0 <= v / 16)%Z by (apply Z.div_pos; lia).
      split; [lia|]. apply Z.div_lt_upper_bound; lia.
Qed.

Lemma wrap32_range (v : Z) : (0 <= wrap32 v < 4294967296)%Z.
Proof. unfold wrap32. apply Z.mod_pos_bound. lia. Qed.

Lemma digits_from_end (base acc : Z) (rest : cstring) :
  ends_number rest = true -> digits_from base acc rest = (acc, rest).
Proof.
  unfold ends_number. destruct rest as [|c rest]; [reflexivity|].
  cbn [deref digits_from]. unfold digit_in.
  destruct (digit_val c); [discriminate | reflexivity].
Qed.

(** [strtoul] reads [0x] and the digits of [%x] back to the value. *)
Lemma strtoul_hex_text (v : Z) (rest : cstring) :
  ends_number rest = true ->
  strtoul (hex_text v ++ rest) = (wrap32 v, rest).
Proof.
  intros Hrest. unfold hex_text, fmt_x. cbv zeta.
  pose proof (wrap32_range v) as Hr. set (w := wrap32 v) in *.
  rewrite <- app_assoc.
  match goal with
  | |- context [?digits ++ rest] =>
      assert (Hd : exists h r, digits ++ rest = h :: r /\
                               (exists d, digit_in 16 h = Some d) /\
                               digits_from 16 0 (h :: r) = (w, rest))
  end.
  { destruct (w =? 0)%Z eqn:E.
    - apply Z.eqb_eq in E. exists "0"%char, rest. split; [reflexivity|].
      split; [exists 0%Z; reflexivity|].
      cbn [digits_from]. change (digit_in 16 "0"%char) with (Some 0%Z).
      rewrite E. apply digits_from_end. exact Hrest.
    - apply Z.eqb_neq in E.
      assert (Hw : (0 < w < 16 ^ Z.of_nat 8)%Z)
        by (change (16 ^ Z.of_nat 8)%Z with 4294967296%Z; lia).
      destruct (hex_loop_head 8 w rest Hw) as (d & r & Hh & Hdr).
      rewrite hex_loop_app. cbn [app]. rewrite Hh.
      exists (hex_digit d), r. split; [reflexivity|].
      split; [exists d; apply digit_in_hex_digit; exact Hdr|].
      rewrite <- Hh.
      destruct (hex_loop_digits 8 w rest 0%Z ltac:(lia)) as (k & _ & ->).
      replace (0 * 16 ^ k + w)%Z with w by lia.
      apply digits_from_end. exact Hrest. }
  destruct Hd as (h & r & Heq & (d & Hdig) & Hval).
  rewrite Heq.
  change (cstr "0x" ++ h :: r) with ("0"%char :: "x"%char :: h :: r).
  unfold strtoul.
  change (skip_isspace ("0"%char :: "x"%char :: h :: r))
    with ("0"%char :: "x"%char :: h :: r).
  cbv iota beta.
  change (ceqb "0" "-") with false. change (ceqb "0" "+") with false.
  cbv iota beta. change (ceqb "0" "0") with true. change (is_x "x") with true.
  rewrite Hdig. cbn [andb]. cbv iota beta. rewrite Hdig, Hval.
  replace (ULONG_MAX <? w)%Z with false
    by (symmetry; apply Z.ltb_ge; unfold ULONG_MAX; lia).
  reflexivity.
Qed.

Lemma wrap32_idem (v : Z) : wrap32 (wrap32 v) = wrap32 v.
Proof. unfold wrap32. apply Z.mod_mod. lia. Qed.

Lemma not32_wrap32 (v : Z) : not32 (wrap32 v) = not32 v.
Proof. unfold not32. rewrite wrap32_idem. reflexivity. Qed.

Lemma hex_text_cons (v : Z) : hex_text v = "0"%char :: "x"%char :: fmt_x v.
Proof. reflexivity. Qed.

Lemma parse_operation_symbol (o : operator) (v : Z) :
  parse_operation (cstr " " ++ operator_symbol o ++ cstr " " ++ hex_text v)
  = Ok (parsed_oper o, match o with AndNot => true | _ => false end, hex_text v).
Proof.
  rewrite hex_text_cons. generalize (fmt_x v). intros d.
  destruct o; vm_compute; reflexivity.
Qed.

Lemma parse_source_hex (oper : ascii) (invert : bool) (v : Z) :
  parse_source oper invert (hex_text v)
  = Ok (oper, if invert then not32 v else wrap32 v, []).
Proof.
  unfold parse_source. rewrite hex_text_cons at 1. cbn [deref].
  change (ceqb "0" "$") with false. cbv iota.
  pose proof (strtoul_hex_text v [] eq_refl) as H. rewrite app_nil_r in H.
  rewrite H. rewrite not32_wrap32, wrap32_idem. reflexivity.
Qed.

(** X4. The parser reads back what the formatter writes behind [set {int}]:
    for a 32-bit address and value in hexadecimal and each of the four
    operator texts [=], [|=], [&=] and [&= ~], [parseline] consumes the whole
    line and yields that address with the width 4, the operator and the
    value; it takes [&= ~] as [&] with the inverted value. The register table
    plays no part. *)
Theorem parseline_reads_hexadecimal_command (a v : Z) (o : operator)
    (registers : list REG_DEF) :
  parseline (hex_text a ++ cstr " " ++ operator_symbol o ++ cstr " " ++ hex_text v)
            registers
  = Ok ([], {| line_address := wrap32 a; line_value := parsed_value o v;
               line_size := 4; line_oper := parsed_oper o |}).
Proof.
  unfold parseline. cbv zeta.
  set (rest := cstr " " ++ operator_symbol o ++ cstr " " ++ hex_text v).
  assert (E0 : skipleading (hex_text a ++ rest) = hex_text a ++ rest) by reflexivity.
  rewrite E0.
  assert (E1 : strneq (hex_text a ++ rest) (cstr "set") 3 = false) by reflexivity.
  rewrite E1. cbn [andb]. cbv iota.
  unfold parse_destination.
  assert (E2 : isdigit (deref (hex_text a ++ rest)) = true) by reflexivity.
  rewrite E2. cbv iota.
  rewrite (strtoul_hex_text a rest) by reflexivity. cbv iota beta. cbn [bind].
  subst rest. rewrite parse_operation_symbol. cbn [bind]. cbv iota beta.
  rewrite parse_source_hex. cbn [bind]. cbv iota beta.
  cbn [skip_to_eol deref skipleading]. cbn [orb assert bind].
  rewrite wrap32_idem.
  destruct o; reflexivity.
Qed.

(** X5. A line with no destination in front of its operator is not refused:
    [parseline] takes the first register of the table as the destination,
    since it compares no character of an empty identifier. With an empty
    table the assertion on the register index fails. *)
Theorem line_without_destination_takes_first_register (v : Z) (o : operator)
    (r : REG_DEF) (registers : list REG_DEF) :
  parseline (operator_symbol o ++ cstr " " ++ hex_text v) (r :: registers)
  = Ok ([], {| line_address := reg_address r; line_value := parsed_value o v;
               line_size := reg_size r; line_oper := parsed_oper o |}) /\
  parseline (operator_symbol o ++ cstr " " ++ hex_text v) [] = AssertFail.
Proof.
  assert (Hop : parse_operation (operator_symbol o ++ cstr " " ++ hex_text v)
                = Ok (parsed_oper o, match o with AndNot => true | _ => false end,
                      hex_text v)).
  { rewrite hex_text_cons. generalize (fmt_x v). intros d.
    destruct o; vm_compute; reflexivity. }
  assert (Hline : forall regs,
             parseline (operator_symbol o ++ cstr " " ++ hex_text v) regs
             = ('(address, size, line) <-
                  match regs with
                  | [] => AssertFail
                  | r :: _ =>
                      Ok (reg_address r, reg_size r,
                          operator_symbol o ++ cstr " " ++ hex_text v)
                  end ;;
                '(oper, invert, line) <- parse_operation line ;;
                '(oper, value, line) <- parse_source oper invert line ;;
                let line := skip_to_eol line in
                assert (ceqb (deref line) LF
                        || match line with [] => true | _ => false end) ;;;
                Ok (skipleading line,
                    {| line_address := address; line_value := value;
                       line_size := size; line_oper := oper |}))).
  { intros regs. unfold parseline. cbv zeta.
    assert (E : forall line, line = operator_symbol o ++ cstr " " ++ hex_text v ->
               (if strneq (skipleading line) (cstr "set") 3
                   && le_space (char_at (skipleading line) 3)
                then skipleading (skipn 3 (skipleading line)) else skipleading line)
               = line /\
               parse_destination line regs
               = match regs with
                 | [] => AssertFail
                 | r :: _ => Ok (reg_address r, reg_size r, line)
                 end).
    { intros line ->. rewrite hex_text_cons. generalize (fmt_x v). intros d.
      destruct o; (split; [reflexivity|]); destruct regs; reflexivity. }
    destruct (E _ eq_refl) as [-> ->]. reflexivity. }
  split.
  - rewrite Hline. cbn [bind]. cbv iota beta. rewrite Hop. cbn [bind]. cbv iota beta.
    rewrite parse_source_hex. cbn [bind]. cbv iota beta.
    cbn [skip_to_eol deref skipleading]. cbn [orb assert bind].
    destruct o; reflexivity.
  - rewrite Hline. reflexivity.
Qed.

(** X6. The word [set] and the white space behind it are ignored in front of
    an instruction: a line that is not itself a [set] command is parsed the
    same with and without [set] before it. *)
Theorem parseline_ignores_set (line : cstring) (w : ascii) (registers : list REG_DEF) :
  le_space w = true ->
  strneq (skipleading line) (cstr "set") 3 && le_space (char_at (skipleading line) 3)
    = false ->
  parseline (cstr "set" ++ w :: line) registers = parseline line registers.
Proof.
  intros Hw Hset. unfold parseline. cbv zeta. rewrite Hset.
  assert (E : skipleading (cstr "set" ++ w :: line) = cstr "set" ++ w :: line)
    by reflexivity.
  rewrite E.
  assert (E1 : strneq (cstr "set" ++ w :: line) (cstr "set") 3 = true) by reflexivity.
  rewrite E1.
  change (char_at (cstr "set" ++ w :: line) 3) with w. rewrite Hw. cbn [andb].
  change (skipn 3 (cstr "set" ++ w :: line)) with (w :: line).
  cbn [skipleading]. rewrite Hw. reflexivity.
Qed.

Lemma parseline_ignores_set_witness :
  parseline (cstr "set TPIU_SPPR = $0 \n") stm32f407_registers
  = parseline (cstr "TPIU_SPPR = $0 \n") stm32f407_registers.
Proof.
  apply (parseline_ignores_set (cstr "TPIU_SPPR = $0 \n") " "%char stm32f407_registers);
    reflexivity.
Defined.

(** ** The loader and the cursor *)

Lemma load_scripts_cache (mcu arch_name : cstring) (registers : list REG_DEF) :
  forall defaults st st',
    load_scripts mcu arch_name registers defaults st = Ok st' ->
    cache st' = cache st.
Proof.
  induction defaults as [|d defaults IH]; intros st st' H.
  - injection H as <-. reflexivity.
  - cbn [load_scripts] in H.
    destruct (script_applies mcu arch_name (def_mcu_list d)) as [a| | |];
      cbn [bind] in H; try discriminate.
    destruct a; cbn [bind] in H.
    + destruct (parse_script _ _ registers) as [lines| | |]; cbn [bind] in H;
        try discriminate.
      apply IH in H. exact H.
    + apply IH in H. exact H.
Qed.

(** X7. [bmscript_load] (with no support file) for an MCU other than the
    one named in the root keeps nothing of the session it finds: it ends as
    it does from the initial state. When it returns, the result is the number of scripts in the list
    and the cursor is clear, so that a call of [bmscript_line] with the name
    NULL fails its assertion. *)
Theorem load_starts_from_scratch (mcu : cstring) (arch : option cstring) (st : session) :
  root_name st <> Some mcu ->
  bmscript_load mcu arch st = bmscript_load mcu arch session_init /\
  forall n st',
    bmscript_load mcu arch st = Ok (n, st') ->
    n = length (scripts st') /\ cache st' = cache_clear /\
    bmscript_line None st' = AssertFail.
Proof.
  intros Hroot.
  assert (E : match root_name st with Some n => streq n mcu | None => false end = false).
  { destruct (root_name st) as [n|]; [|reflexivity].
    destruct (streq n mcu) eqn:Hs; [|reflexivity].
    apply streq_eq in Hs. subst n. contradiction Hroot. reflexivity. }
  split.
  - unfold bmscript_load. rewrite E. reflexivity.
  - intros n st'. unfold bmscript_load. rewrite E.
    destruct (load_registers mcu register_defaults) as [registers| | |];
      cbn [bind]; try discriminate.
    match goal with
    | |- context [bind ?m _] => destruct m as [arch_name| | |]
    end; cbn [bind]; try discriminate.
    destruct (load_scripts mcu arch_name registers script_defaults (bmscript_clear st))
      as [st1| | |] eqn:Hl; cbn [bind]; try discriminate.
    intros H. injection H as <- <-.
    apply load_scripts_cache in Hl. cbn [bmscript_clear cache] in Hl.
    split; [reflexivity|]. split; [exact Hl|].
    unfold bmscript_line. rewrite Hl. reflexivity.
Qed.

Lemma load_starts_from_scratch_witness :
  bmscript_load (cstr "LPC1114") (Some (cstr "M0")) stm32f407_session
  = bmscript_load (cstr "LPC1114") (Some (cstr "M0")) session_init.
Proof.
  apply (load_starts_from_scratch (cstr "LPC1114") (Some (cstr "M0")) stm32f407_session).
  discriminate.
Defined.

(** ** Calls for another script *)

Lemma line_first (name : cstring) (s : SCRIPT) (st : session) :
  looks_up name st -> find_script name st = Some s ->
  bmscript_line (Some name) st = Ok (first_call s st).
Proof.
  intros Hl Hf. rewrite (line_lookup name st Hl), Hf. unfold first_call, script_count.
  destruct (script_lines s); reflexivity.
Qed.

(** X8. A name that no script of the list has: [bmscript_line] and
    [bmscript_line_fmt] return 0 and leave the session as it is, cursor
    included, so that the next call with the name NULL goes on in the running
    script. *)
Theorem unknown_script_keeps_cursor (other n : cstring) (lines : list SCRIPTLINE)
    (i : nat) (params : option (list Z)) (st : session) :
  find_script other st = None ->
  other <> n ->
  let running := at_cursor n lines i st in
  bmscript_line (Some other) running = Ok (None, running) /\
  bmscript_line_fmt (Some other) params running = Ok (None, running) /\
  bmscript_line None running = bmscript_line (Some n) running.
Proof.
  intros Hf Hne running.
  assert (H : bmscript_line (Some other) running = Ok (None, running)).
  { rewrite (line_lookup other running) by exact Hne.
    change (find_script other running) with (find_script other st). rewrite Hf.
    reflexivity. }
  split; [exact H|]. split; [|reflexivity].
  unfold bmscript_line_fmt. rewrite H. reflexivity.
Qed.

Lemma unknown_script_keeps_cursor_witness :
  let running := at_cursor (script_name swo_generic_script)
                   (script_lines swo_generic_script) 3 stm32f407_session in
  bmscript_line (Some (cstr "no_such_script")) running = Ok (None, running) /\
  bmscript_line_fmt (Some (cstr "no_such_script")) swo_params running
    = Ok (None, running) /\
  bmscript_line None running
    = bmscript_line (Some (script_name swo_generic_script)) running.
Proof.
  apply (unknown_script_keeps_cursor (cstr "no_such_script")
           (script_name swo_generic_script) (script_lines swo_generic_script) 3
           swo_params stm32f407_session).
  - reflexivity.
  - discriminate.
Defined.

(** X9. The iterator has one cursor for all scripts. With the cursor in the
    script [sa], a call that names another script [sb] of the list returns
    the first instruction of [sb]; the next call for [sa] then returns the
    first instruction of [sa] again, whatever the place [i] was that the
    cursor had in it. *)
Theorem interleaved_scripts_restart (a b : cstring) (sa sb : SCRIPT) (i : nat)
    (st : session) :
  find_script a st = Some sa ->
  find_script b st = Some sb ->
  b <> script_name sa ->
  a <> script_name sb ->
  bmscript_line (Some b) (at_cursor (script_name sa) (script_lines sa) i st)
    = Ok (first_call sb st) /\
  bmscript_line (Some a) (snd (first_call sb st)) = Ok (first_call sa st).
Proof.
  intros Ha Hb Hnb Hna. split.
  - exact (line_first b sb (at_cursor (script_name sa) (script_lines sa) i st) Hnb Hb).
  - exact (line_first a sa (snd (first_call sb st)) Hna Ha).
Qed.

Lemma interleaved_scripts_restart_witness :
  exists sa sb,
    bmscript_line (Some (cstr "swo_channels"))
      (at_cursor (script_name sa) (script_lines sa) 5 stm32f407_session)
      = Ok (first_call sb stm32f407_session) /\
    bmscript_line (Some (cstr "swo_generic")) (snd (first_call sb stm32f407_session))
      = Ok (first_call sa stm32f407_session).
Proof.
  destruct (find_script (cstr "swo_generic") stm32f407_session) as [sa|] eqn:Ha;
    [|discriminate Ha].
  destruct (find_script (cstr "swo_channels") stm32f407_session) as [sb|] eqn:Hb;
    [|discriminate Hb].
  exists sa, sb.
  apply (interleaved_scripts_restart (cstr "swo_generic") (cstr "swo_channels")
           sa sb 5 stm32f407_session Ha Hb).
  - vm_compute in Ha. injection Ha as <-. discriminate.
  - vm_compute in Hb. injection Hb as <-. discriminate.
Defined.

(** ** The formatter and its parameters *)

Lemma hex_loop_length (fuel : nat) :
  forall v acc, length (hex_loop fuel v acc) <= fuel + length acc.
Proof.
  induction fuel as [|fuel IH]; intros v acc; cbn [hex_loop]; [lia|].
  destruct (v =? 0)%Z; [lia|].
  specialize (IH (v / 16)%Z (hex_digit (v mod 16) :: acc)). cbn [length] in IH. lia.
Qed.

Lemma fmt_x_length (v : Z) : length (fmt_x v) <= 8.
Proof.
  unfold fmt_x. cbv zeta. destruct (wrap32 v =? 0)%Z; [simpl; lia|].
  pose proof (hex_loop_length 8 (wrap32 v) []) as H. cbn [length] in H. lia.
Qed.

(** X10. A command that [bmscript_line_fmt] writes has at most 38 characters,
    so with its terminator it fits a buffer of 39; it starts with [set {]
    and ends with a line feed. *)
Theorem formatted_command_fits (name : option cstring) (params : option (list Z))
    (st st' : session) (text : cstring) :
  bmscript_line_fmt name params st = Ok (Some text, st') ->
  length text <= 38 /\ firstn 5 text = cstr "set {" /\ last text NUL = LF.
Proof.
  unfold bmscript_line_fmt.
  destruct (bmscript_line name st) as [[next st1]| | |]; cbn [bind]; try discriminate.
  destruct next as [l|]; [|discriminate].
  assert (Hop : forall t, operator_text (line_oper l) = Some t -> length t <= 4).
  { unfold operator_text. intros t.
    repeat match goal with
           | |- context [if ?b then _ else _] => destruct b
           end; intros E; try discriminate; injection E as <-; simpl; lia. }
  destruct (operator_text (line_oper l)) as [operstr|]; cbn [bind]; [|discriminate].
  specialize (Hop operstr eq_refl).
  match goal with
  | |- context [bind ?m _] => destruct m as [[address|]| | |]
  end; cbn [bind]; try discriminate.
  match goal with
  | |- context [bind ?m _] => destruct m as [value| | |]
  end; cbn [bind]; try discriminate.
  assert (Hty : forall ty v, size_type (line_size l) value = Some (ty, v) ->
                             length ty <= 5).
  { unfold size_type. intros ty v.
    repeat match goal with
           | |- context [if ?b then _ else _] => destruct b
           end; intros E; try discriminate; injection E as <- _; simpl; lia. }
  destruct (size_type (line_size l) value) as [[ty v]|]; [|discriminate].
  specialize (Hty ty v eq_refl).
  intros E.
  match type of E with
  | Ok (Some ?t, _) = _ => assert (Et : text = t) by congruence
  end.
  subst text. clear E.
  pose proof (fmt_x_length address). pose proof (fmt_x_length v).
  split; [|split].
  - rewrite !length_app. cbn [length cstr]. lia.
  - reflexivity.
  - change (cstr "\n") with [LF]. rewrite !app_assoc. apply last_last.
Qed.

Lemma formatted_command_fits_witness :
  let text := cstr "set {char}0x100 &= ~ 0x34\n" in
  length text <= 38 /\ firstn 5 text = cstr "set {" /\ last text NUL = LF.
Proof.
  intros text.
  apply (formatted_command_fits (Some (cstr "demo")) None demo_session
           (demo_running 1) text).
  vm_compute. reflexivity.
Defined.

(** X11. The parameters are read only for an instruction that refers to one.
    For an instruction whose address and value are no parameter references
    the formatter gives the same result whatever [params] is, NULL included;
    for one that has a parameter reference, a call with [params] NULL fails
    the assertion. *)
Theorem parameters_read_on_reference_only (name : option cstring) (st st' : session)
    (l : SCRIPTLINE) :
  bmscript_line name st = Ok (Some l, st') ->
  operator_text (line_oper l) <> None ->
  if is_param (line_address l) || is_param (line_value l)
  then bmscript_line_fmt name None st = AssertFail
  else forall params, bmscript_line_fmt name params st = bmscript_line_fmt name None st.
Proof.
  intros H Hop. unfold bmscript_line_fmt. rewrite H. cbn [bind].
  destruct (operator_text (line_oper l)) as [operstr|]; [|contradiction Hop; reflexivity].
  cbn [bind].
  destruct (is_param (line_address l)); cbn [orb param_value bind]; [reflexivity|].
  destruct (is_param (line_value l)); cbn [param_value bind]; reflexivity.
Qed.

Lemma parameters_read_on_reference_only_witness :
  bmscript_line_fmt (Some (cstr "demo")) swo_params demo_session
  = bmscript_line_fmt (Some (cstr "demo")) None demo_session /\
  bmscript_line_fmt (Some (cstr "swo_generic")) None lpc1114_session = AssertFail.
Proof.
  split.
  - apply (parameters_read_on_reference_only (Some (cstr "demo")) demo_session
             (demo_running 1)
             {| line_address := 256; line_value := 4660; line_size := 1;
                line_oper := "~"%char |}).
    + vm_compute. reflexivity.
    + discriminate.
  - apply (parameters_read_on_reference_only (Some (cstr "swo_generic")) lpc1114_session
             (at_cursor (cstr "swo_generic") [copy_parameter 3 2] 1 lpc1114_session)
             (copy_parameter 3 2)).
    + vm_compute. reflexivity.
    + discriminate.
Defined.

Lemma tables_are_checked :
  forallb (fun bs => if consistent bs then both_checked bs else true)
          (all_vectors (length table_lists)) = true.
Proof. vm_compute. reflexivity. Qed.

(** ** The hard-coded tables for every MCU *)

(** *** The results of [mcu_match] as functions on the lists *)

Lemma mcu_match_checked (f l : cstring) :
  family_ok f = true -> list_checked l = true ->
  mcu_match f l = Ok (match_tokens f l).
Proof.
  intros Hok Hl. apply andb_true_iff in Hl. destruct Hl as [Hp Hs].
  apply mcu_match_tokens;
    [exact Hok | apply printable_checked; exact Hp | apply star_last_checked; exact Hs].
Qed.

Lemma load_registers_with (mcu : cstring) (m : cstring -> bool) :
  forall defaults,
    (forall d, In d defaults -> mcu_match mcu (reg_list d) = Ok (m (reg_list d))) ->
    load_registers mcu defaults = Ok (registers_with m defaults).
Proof.
  induction defaults as [|d defaults IH]; intros H; [reflexivity|].
  cbn [load_registers registers_with]. fold (reg_list d).
  rewrite (H d (or_introl eq_refl)). cbn [bind].
  rewrite IH by (intros d' Hd; apply H; right; exact Hd). reflexivity.
Qed.

Lemma load_scripts_with (mcu arch_name : cstring) (a : cstring -> bool)
    (registers : list REG_DEF) :
  forall defaults st,
    (forall d, In d defaults ->
               script_applies mcu arch_name (def_mcu_list d) = Ok (a (def_mcu_list d))) ->
    load_scripts mcu arch_name registers defaults st
    = scripts_with a registers defaults st.
Proof.
  induction defaults as [|d defaults IH]; intros st H; [reflexivity|].
  cbn [load_scripts scripts_with].
  rewrite (H d (or_introl eq_refl)). cbn [bind].
  destruct (a (def_mcu_list d)).
  - destruct (parse_script _ _ registers) as [lines| | |]; cbn [bind]; try reflexivity.
    apply IH. intros d' Hd; apply H; right; exact Hd.
  - cbn [bind]. apply IH. intros d' Hd; apply H; right; exact Hd.
Qed.

Lemma registers_with_ext (m m' : cstring -> bool) :
  forall defaults,
    (forall d, In d defaults -> m (reg_list d) = m' (reg_list d)) ->
    registers_with m defaults = registers_with m' defaults.
Proof.
  induction defaults as [|d defaults IH]; intros H; [reflexivity|].
  cbn [registers_with]. rewrite (H d (or_introl eq_refl)).
  rewrite IH by (intros d' Hd; apply H; right; exact Hd). reflexivity.
Qed.

Lemma scripts_with_ext (a a' : cstring -> bool) (registers : list REG_DEF) :
  forall defaults st,
    (forall d, In d defaults -> a (def_mcu_list d) = a' (def_mcu_list d)) ->
    scripts_with a registers defaults st = scripts_with a' registers defaults st.
Proof.
  induction defaults as [|d defaults IH]; intros st H; [reflexivity|].
  cbn [scripts_with]. rewrite (H d (or_introl eq_refl)).
  destruct (a' (def_mcu_list d)).
  - destruct (parse_script _ _ registers) as [lines| | |]; cbn [bind]; try reflexivity.
    apply IH. intros d' Hd; apply H; right; exact Hd.
  - cbn [bind]. apply IH. intros d' Hd; apply H; right; exact Hd.
Qed.

Lemma find_in_table (m : cstring -> bool) (l : cstring) :
  forall ls,
    In l ls ->
    match find (fun p => streq (fst p) l) (combine ls (map m ls)) with
    | Some p => snd p
    | None => false
    end = m l.
Proof.
  induction ls as [|x ls IH]; intros Hin; [contradiction|].
  cbn [map combine find fst]. destruct (streq x l) eqn:E.
  - apply streq_eq in E. subst x. reflexivity.
  - apply IH. destruct Hin as [->|Hin]; [|exact Hin].
    rewrite streq_refl in E. discriminate.
Qed.

Lemma by_table_map (m : cstring -> bool) (l : cstring) :
  In l table_lists -> by_table (map m table_lists) l = m l.
Proof. apply find_in_table. Qed.

Lemma nth_table_map (m : cstring -> bool) (i : nat) :
  i < length table_lists -> nth i (map m table_lists) false = m (table_list i).
Proof.
  intros Hi. unfold table_list.
  rewrite (nth_indep _ false (m [])) by (rewrite length_map; exact Hi).
  apply map_nth.
Qed.

Lemma in_all_vectors (bs : list bool) : In bs (all_vectors (length bs)).
Proof.
  induction bs as [|b bs IH]; [left; reflexivity|].
  cbn [length all_vectors]. apply in_or_app.
  destruct b; [right | left]; apply in_map; exact IH.
Qed.

(** *** Lists with common tokens, and tokens that clash *)

Lemma match_tokens_accepts (f l : cstring) :
  match_tokens f l = true <->
  exists tok, In tok (tokens l) /\
              (code_exact f (length (strip_arch_suffix f)) tok = true \/
               code_prefix f (length (strip_arch_suffix f)) tok = true).
Proof.
  unfold match_tokens. rewrite orb_true_iff, !existsb_exists. split.
  - intros [(tok & Hin & H) | (tok & Hin & H)]; exists tok; auto.
  - intros (tok & Hin & [H | H]); [left | right]; exists tok; auto.
Qed.

Lemma match_tokens_subset (f l1 l2 : cstring) :
  tokens_subset l1 l2 = true ->
  match_tokens f l1 = true -> match_tokens f l2 = true.
Proof.
  unfold tokens_subset. rewrite forallb_forall, !match_tokens_accepts.
  intros Hsub (tok & Hin & H). exists tok. split; [|exact H].
  specialize (Hsub tok Hin). apply existsb_exists in Hsub.
  destruct Hsub as (t & Ht & E). apply streq_eq in E. subst t. exact Ht.
Qed.

Lemma chars_match_cons (c y : ascii) (a b : cstring) :
  chars_match (c :: a) (y :: b) = char_matches c y && chars_match a b.
Proof. reflexivity. Qed.

Lemma before_star_length (tok : cstring) : length (before_star tok) <= length tok.
Proof.
  induction tok as [|c tok IH]; [simpl; lia|]. cbn [before_star].
  destruct (ceqb c "*"%char); cbn [length]; lia.
Qed.

Lemma before_star_chars (tok f : cstring) :
  chars_match tok f = true -> chars_match (before_star tok) f = true.
Proof.
  revert f; induction tok as [|c tok IH]; intros f H; [reflexivity|].
  cbn [before_star]. destruct (ceqb c "*"%char); [reflexivity|].
  destruct f as [|y f]; [reflexivity|]. rewrite chars_match_cons in *.
  apply andb_true_iff in H. destruct H as [H1 H2]. rewrite H1, (IH f H2). reflexivity.
Qed.

Lemma before_star_strchr (tok : cstring) (w : nat) :
  strchr tok "*"%char = Some w -> before_star tok = firstn w tok.
Proof.
  revert w; induction tok as [|c tok IH]; intros w; [discriminate|].
  cbn [strchr before_star]. destruct (ceqb c "*"%char).
  - intros H; injection H as <-. reflexivity.
  - destruct (strchr tok "*"%char) as [j|]; [|discriminate].
    intros H; injection H as <-. cbn [firstn]. rewrite (IH j eq_refl). reflexivity.
Qed.

Lemma chars_match_firstn_r (a f : cstring) :
  chars_match a (firstn (length a) f) = chars_match a f.
Proof.
  revert f; induction a as [|c a IH]; intros [|y f]; try reflexivity.
  cbn [length firstn]. rewrite !chars_match_cons, IH. reflexivity.
Qed.

Lemma accepted_lit_match (f tok : cstring) (n : nat) :
  code_exact f n tok = true \/ code_prefix f n tok = true ->
  lit_match (before_star tok) f = true.
Proof.
  unfold lit_match. intros [H | H].
  - unfold code_exact in H. rewrite architecture_match_chars in H.
    rewrite !andb_true_iff in H. destruct H as (_ & Hlen & Hch).
    apply Nat.eqb_eq in Hlen. pose proof (before_star_length tok).
    rewrite (before_star_chars _ _ Hch), andb_true_r. apply Nat.leb_le. lia.
  - unfold code_prefix in H.
    destruct (strchr tok "*"%char) as [w|] eqn:Hw; [|discriminate].
    rewrite (before_star_strchr tok w Hw).
    pose proof (strchr_lt _ _ _ Hw) as Hlt.
    destruct (w =? 0) eqn:E0.
    + apply Nat.eqb_eq in E0. subst w. reflexivity.
    + cbn [orb] in H. rewrite !andb_true_iff in H. destruct H as (_ & Ham).
      rewrite architecture_match_chars in Ham. apply andb_true_iff in Ham.
      destruct Ham as [Hlen Hch]. apply Nat.eqb_eq in Hlen.
      rewrite !length_firstn in Hlen.
      assert (Hw' : length (firstn w tok) = w) by (rewrite length_firstn; lia).
      rewrite <- Hw' in Hch at 2. rewrite chars_match_firstn_r in Hch.
      rewrite Hch, andb_true_r. apply Nat.leb_le. lia.
Qed.

Lemma lit_match_no_clash (l1 l2 f : cstring) :
  lit_match l1 f = true -> lit_match l2 f = true ->
  existsb (fun p => negb (ceqb (fst p) "x"%char) && negb (ceqb (snd p) "x"%char)
                    && negb (ceqb (toupper (fst p)) (toupper (snd p))))
          (combine l1 l2) = false.
Proof.
  unfold lit_match. revert l2 f.
  induction l1 as [|c1 l1 IH]; intros [|c2 l2] f H1 H2; try reflexivity.
  destruct f as [|y f]; [discriminate H1|].
  cbn [length] in H1, H2. rewrite chars_match_cons in H1, H2.
  change (S (length l1) <=? S (length f)) with (length l1 <=? length f) in H1.
  change (S (length l2) <=? S (length f)) with (length l2 <=? length f) in H2.
  rewrite !andb_true_iff in H1, H2.
  destruct H1 as (Hl1 & Hc1 & Hr1), H2 as (Hl2 & Hc2 & Hr2).
  cbn [combine existsb fst snd].
  rewrite (IH l2 f) by (rewrite ?Hl1, ?Hl2, ?Hr1, ?Hr2; reflexivity).
  rewrite orb_false_r. unfold char_matches in Hc1, Hc2.
  destruct (ceqb c1 "x"%char); [reflexivity|].
  destruct (ceqb c2 "x"%char); [reflexivity|].
  cbn [orb] in Hc1, Hc2. apply ceqb_eq in Hc1, Hc2.
  rewrite Hc1, Hc2, ceqb_refl. reflexivity.
Qed.

Lemma match_tokens_clash (f l1 l2 : cstring) :
  match_tokens f l1 = true -> match_tokens f l2 = true -> lists_clash l1 l2 = false.
Proof.
  rewrite !match_tokens_accepts. intros (t1 & Hin1 & H1) (t2 & Hin2 & H2).
  apply not_true_is_false. intros Hc. unfold lists_clash in Hc.
  rewrite forallb_forall in Hc. specialize (Hc t1 Hin1).
  rewrite forallb_forall in Hc. specialize (Hc t2 Hin2).
  unfold clash in Hc.
  rewrite (lit_match_no_clash _ _ f (accepted_lit_match _ _ _ H1)
             (accepted_lit_match _ _ _ H2)) in Hc.
  discriminate.
Qed.

Lemma match_tokens_star (f : cstring) : match_tokens f (cstr "*") = true.
Proof.
  apply match_tokens_accepts. exists (cstr "*"). split; [left; reflexivity|].
  right. reflexivity.
Qed.

(** A name in brackets matches no token that clashes with the bracket. *)
Lemma match_tokens_bracket (r l : cstring) :
  forallb (clash (cstr "[")) (tokens l) = true ->
  match_tokens ("["%char :: r) l = false.
Proof.
  intros Hc. apply not_true_is_false. rewrite match_tokens_accepts.
  intros (tok & Hin & H). rewrite forallb_forall in Hc. specialize (Hc tok Hin).
  unfold clash in Hc. change (before_star (cstr "[")) with (cstr "[") in Hc.
  assert (Hb : lit_match (cstr "[") ("["%char :: r) = true) by reflexivity.
  rewrite (lit_match_no_clash _ _ ("["%char :: r) Hb (accepted_lit_match _ _ _ H)) in Hc.
  discriminate.
Qed.

(** *** The load for an arbitrary MCU *)

Lemma family_ok_brackets (a : cstring) : family_ok (cstr "[" ++ a ++ cstr "]") = true.
Proof.
  unfold family_ok. change (cstr "[" ++ a ++ cstr "]") with ("["%char :: a ++ cstr "]").
  cbn [length]. rewrite Nat.sub_succ, Nat.sub_0_r.
  change (char_at ("["%char :: a ++ cstr "]") 0) with "["%char.
  unfold char_at. rewrite length_app. cbn [length cstr].
  replace (length a + 1) with (S (length a)) by lia. cbn [nth].
  rewrite app_nth2 by lia. rewrite Nat.sub_diag. reflexivity.
Qed.

Lemma in_table (l : cstring) :
  existsb (streq l) table_lists = true -> In l table_lists.
Proof.
  intros H. apply existsb_exists in H. destruct H as (x & Hx & E).
  apply streq_eq in E. subst x. exact Hx.
Qed.

Lemma register_lists_in_table (d : REG_DEF) :
  In d register_defaults -> In (reg_list d) table_lists.
Proof.
  assert (H : forallb (fun d => existsb (streq (reg_list d)) table_lists)
                      register_defaults = true) by (vm_compute; reflexivity).
  rewrite forallb_forall in H. intros Hd. apply in_table, H, Hd.
Qed.

Lemma script_lists_in_table (d : SCRIPT_DEF) :
  In d script_defaults -> In (def_mcu_list d) table_lists.
Proof.
  assert (H : forallb (fun d => existsb (streq (def_mcu_list d)) table_lists)
                      script_defaults = true) by (vm_compute; reflexivity).
  rewrite forallb_forall in H. intros Hd. apply in_table, H, Hd.
Qed.

Lemma table_lists_checked (l : cstring) :
  In l table_lists -> list_checked l = true /\ bracket_checked l = true.
Proof.
  assert (H : forallb (fun l => list_checked l && bracket_checked l) table_lists = true)
    by (vm_compute; reflexivity).
  rewrite forallb_forall in H. intros Hl. apply andb_true_iff, H, Hl.
Qed.

Lemma m0_list_in_table : In m0_list table_lists.
Proof. apply in_table. vm_compute. reflexivity. Qed.

Lemma consistent_map (f : cstring) : consistent (map (match_tokens f) table_lists) = true.
Proof.
  assert (Hs : forallb (fun i => (i <? length table_lists)
                                 && streq (table_list i) (cstr "*")) star_places = true)
    by (vm_compute; reflexivity).
  assert (Hi : forallb (fun p => (fst p <? length table_lists)
                                 && (snd p <? length table_lists)
                                 && tokens_subset (table_list (fst p)) (table_list (snd p)))
                       subset_places = true)
    by (vm_compute; reflexivity).
  assert (Hc : forallb (fun p => (fst p <? length table_lists)
                                 && (snd p <? length table_lists)
                                 && lists_clash (table_list (fst p)) (table_list (snd p)))
                       clash_places = true)
    by (vm_compute; reflexivity).
  rewrite forallb_forall in Hs, Hi, Hc.
  unfold consistent. rewrite !andb_true_iff, !forallb_forall. repeat split.
  - intros i Hin. specialize (Hs i Hin). apply andb_true_iff in Hs.
    destruct Hs as [Hlt Hstar]. apply Nat.ltb_lt in Hlt. apply streq_eq in Hstar.
    rewrite nth_table_map by exact Hlt. rewrite Hstar. apply match_tokens_star.
  - intros p Hin. specialize (Hi p Hin). rewrite !andb_true_iff in Hi.
    destruct Hi as ((H1 & H2) & Hsub). apply Nat.ltb_lt in H1, H2.
    rewrite !nth_table_map by assumption.
    destruct (match_tokens f (table_list (fst p))) eqn:E; [|reflexivity].
    rewrite (match_tokens_subset f _ _ Hsub E). reflexivity.
  - intros p Hin. specialize (Hc p Hin). rewrite !andb_true_iff in Hc.
    destruct Hc as ((H1 & H2) & Hcl). apply Nat.ltb_lt in H1, H2.
    rewrite !nth_table_map by assumption.
    destruct (match_tokens f (table_list (fst p))) eqn:E1; [|reflexivity].
    destruct (match_tokens f (table_list (snd p))) eqn:E2; [|reflexivity].
    rewrite (match_tokens_clash f _ _ E1 E2) in Hcl. discriminate.
Qed.

Lemma script_applies_checked (mcu arch_name l : cstring) :
  family_ok mcu = true ->
  (arch_name = [] \/ family_ok arch_name = true) ->
  list_checked l = true ->
  script_applies mcu arch_name l
  = Ok (match_tokens mcu l || arch_matches arch_name l).
Proof.
  intros Hm Ha Hl. unfold script_applies.
  rewrite (mcu_match_checked mcu l Hm Hl). cbn [bind].
  destruct (match_tokens mcu l); [reflexivity|]. cbn [orb].
  destruct arch_name as [|c r]; [reflexivity|].
  destruct Ha as [Ha | Ha]; [discriminate|].
  apply (mcu_match_checked _ l Ha Hl).
Qed.

Lemma arch_only_m0 (mcu arch_name l : cstring) :
  (arch_name = [] \/ exists r, arch_name = "["%char :: r) ->
  bracket_checked l = true ->
  match_tokens mcu l || arch_matches arch_name l
  = with_arch (match_tokens mcu) (arch_matches arch_name m0_list) l.
Proof.
  intros Ha Hb. unfold with_arch.
  destruct (streq l m0_list) eqn:E0.
  - apply streq_eq in E0. subst l. rewrite andb_true_r. reflexivity.
  - rewrite andb_false_r, orb_false_r.
    destruct Ha as [-> | (r & ->)]; [apply orb_false_r|].
    unfold bracket_checked in Hb. rewrite E0, orb_false_r in Hb.
    apply orb_true_iff in Hb. destruct Hb as [Hs | Hc].
    + apply streq_eq in Hs. subst l. rewrite match_tokens_star. reflexivity.
    + unfold arch_matches. rewrite (match_tokens_bracket r l Hc). apply orb_false_r.
Qed.

(** The two loops of [bmscript_load] over the tables, for every name that
    [mcu_match] accepts and every architecture. *)

Lemma in_all_vectors_map (g : cstring -> bool) (ls : list cstring) :
  In (map g ls) (all_vectors (length ls)).
Proof.
  pose proof (in_all_vectors (map g ls)) as H. rewrite length_map in H. exact H.
Qed.

Lemma forallb_guarded {A : Type} (c g : A -> bool) (l : list A) (x : A) :
  forallb (fun y => if c y then g y else true) l = true ->
  In x l -> c x = true -> g x = true.
Proof.
  intros H Hin Hc. rewrite forallb_forall in H. specialize (H x Hin).
  cbv beta in H. rewrite Hc in H. exact H.
Qed.

Lemma both_checked_inv (bs : list bool) :
  both_checked bs = true ->
  load_checked (by_table bs) false = true /\ load_checked (by_table bs) true = true.
Proof. unfold both_checked. apply andb_true_iff. Qed.

Lemma tables_vector (f : cstring) :
  load_checked (by_table (map (match_tokens f) table_lists)) false = true /\
  load_checked (by_table (map (match_tokens f) table_lists)) true = true.
Proof.
  apply both_checked_inv.
  exact (forallb_guarded consistent both_checked
           (all_vectors (length table_lists)) (map (match_tokens f) table_lists)
           tables_are_checked (in_all_vectors_map (match_tokens f) table_lists)
           (consistent_map f)).
Qed.

Lemma load_checked_inv (m : cstring -> bool) (am0 : bool) :
  load_checked m am0 = true ->
  exists st, load_with m (with_arch m am0) = Ok st /\
             session_checked (with_arch m am0 m0_list) st = true.
Proof.
  unfold load_checked. destruct (load_with m (with_arch m am0)) as [st| | |];
    try discriminate.
  intros H. exists st. split; [reflexivity | exact H].
Qed.

Lemma with_arch_m0 (m : cstring -> bool) (am0 : bool) :
  with_arch m am0 m0_list = m m0_list || am0.
Proof. unfold with_arch. rewrite streq_refl, andb_true_r. reflexivity. Qed.

Lemma load_scripts_by_table (mcu arch_name : cstring) :
  family_ok mcu = true ->
  (arch_name = [] \/ exists r, arch_name = "["%char :: r /\ family_ok arch_name = true) ->
  load_registers mcu register_defaults
  = Ok (registers_with (match_tokens mcu) register_defaults) /\
  load_scripts mcu arch_name (registers_with (match_tokens mcu) register_defaults)
    script_defaults session_init
  = load_with (by_table (map (match_tokens mcu) table_lists))
      (with_arch (by_table (map (match_tokens mcu) table_lists))
         (arch_matches arch_name m0_list)).
Proof.
  intros Hm Ha.
  assert (Ha1 : arch_name = [] \/ family_ok arch_name = true)
    by (destruct Ha as [-> | (r & _ & H)]; auto).
  assert (Ha2 : arch_name = [] \/ exists r, arch_name = "["%char :: r)
    by (destruct Ha as [-> | (r & H & _)]; eauto).
  split.
  - apply load_registers_with. intros d Hd.
    apply mcu_match_checked; [exact Hm|].
    apply table_lists_checked, register_lists_in_table, Hd.
  - rewrite (load_scripts_with mcu arch_name
               (fun l => match_tokens mcu l || arch_matches arch_name l)).
    + unfold load_with.
      rewrite (registers_with_ext (by_table (map (match_tokens mcu) table_lists))
                 (match_tokens mcu)).
      * apply scripts_with_ext. intros d Hd.
        pose proof (script_lists_in_table d Hd) as Hin.
        rewrite (arch_only_m0 mcu arch_name _ Ha2)
          by (apply table_lists_checked; exact Hin).
        unfold with_arch. rewrite by_table_map by exact Hin.
        reflexivity.
      * intros d Hd. apply by_table_map, register_lists_in_table, Hd.
    + intros d Hd. apply script_applies_checked; [exact Hm | exact Ha1 |].
      apply table_lists_checked, script_lists_in_table, Hd.
Qed.

Lemma tables_load (mcu arch_name : cstring) :
  family_ok mcu = true ->
  (arch_name = [] \/ exists r, arch_name = "["%char :: r /\ family_ok arch_name = true) ->
  exists registers st,
    load_registers mcu register_defaults = Ok registers /\
    load_scripts mcu arch_name registers script_defaults session_init = Ok st /\
    session_checked (match_tokens mcu m0_list || arch_matches arch_name m0_list) st = true.
Proof.
  intros Hm Ha.
  destruct (load_scripts_by_table mcu arch_name Hm Ha) as [Hreg Hscr].
  destruct (tables_vector mcu) as [Hf Ht].
  assert (Hchk : load_checked (by_table (map (match_tokens mcu) table_lists))
                   (arch_matches arch_name m0_list) = true)
    by (destruct (arch_matches arch_name m0_list); assumption).
  destruct (load_checked_inv _ _ Hchk) as (st & Hst & Hc).
  exists (registers_with (match_tokens mcu) register_defaults), st.
  split; [exact Hreg|]. split; [exact (eq_trans Hscr Hst)|].
  rewrite with_arch_m0 in Hc.
  rewrite (by_table_map _ _ m0_list_in_table) in Hc. exact Hc.
Qed.

Lemma bmscript_load_checked (mcu : cstring) (arch : option cstring) (st : session) :
  family_ok mcu = true ->
  (forall a, arch = Some a -> length a < arch_name_size - 2) ->
  root_name st <> Some mcu ->
  exists st',
    bmscript_load mcu arch st = Ok (length (scripts st'), st') /\
    session_checked (match_tokens mcu m0_list
                     || arch_matches (arch_name_of arch) m0_list) st' = true.
Proof.
  intros Hm Hlen Hroot.
  assert (Ha : arch_name_of arch = [] \/
               exists r, arch_name_of arch = "["%char :: r /\
                         family_ok (arch_name_of arch) = true).
  { destruct arch as [[|c a]|]; [left; reflexivity | | left; reflexivity].
    right. exists ((c :: a) ++ cstr "]"). split; [reflexivity|].
    apply family_ok_brackets. }
  destruct (tables_load mcu (arch_name_of arch) Hm Ha) as (registers & st' & Hr & Hs & Hc).
  exists st'. split; [|exact Hc].
  unfold bmscript_load.
  assert (E : match root_name st with Some n => streq n mcu | None => false end = false).
  { destruct (root_name st) as [n|]; [|reflexivity].
    destruct (streq n mcu) eqn:Hn; [|reflexivity].
    apply streq_eq in Hn. subst n. contradiction Hroot. reflexivity. }
  rewrite E, Hr. cbn [bind].
  assert (Harch : match arch with
                  | Some ((_ :: _) as a) =>
                      assert (length a <? arch_name_size - 2) ;;;
                      Ok (cstr "[" ++ a ++ cstr "]")
                  | _ => Ok []
                  end = Ok (arch_name_of arch)).
  { destruct arch as [[|c a]|]; try reflexivity.
    specialize (Hlen (c :: a) eq_refl). apply Nat.ltb_lt in Hlen.
    rewrite Hlen. reflexivity. }
  rewrite Harch. cbn [bind].
  change (bmscript_clear st) with session_init. rewrite Hs. reflexivity.
Qed.

Lemma line_eqb_eq (x y : SCRIPTLINE) : line_eqb x y = true -> x = y.
Proof.
  unfold line_eqb. rewrite !andb_true_iff, !Z.eqb_eq, ceqb_eq.
  destruct x, y; cbn. intros (((-> & ->) & ->) & ->). reflexivity.
Qed.

Lemma lines_eqb_eq (xs ys : list SCRIPTLINE) : lines_eqb xs ys = true -> xs = ys.
Proof.
  revert ys; induction xs as [|x xs IH]; intros [|y ys]; cbn [lines_eqb];
    try discriminate; [reflexivity|].
  rewrite andb_true_iff. intros [H1 H2].
  rewrite (line_eqb_eq _ _ H1), (IH _ H2). reflexivity.
Qed.

Lemma finds_some (name : cstring) (st : session) :
  finds name None st = true -> exists s, find_script name st = Some s.
Proof.
  unfold finds. destruct (find_script name st) as [s|]; [eauto | discriminate].
Qed.

Lemma finds_lines (name : cstring) (ls : list SCRIPTLINE) (st : session) :
  finds name (Some ls) st = true ->
  exists s, find_script name st = Some s /\ script_lines s = ls.
Proof.
  unfold finds. destruct (find_script name st) as [s|]; [|discriminate].
  intros H. exists s. split; [reflexivity | apply lines_eqb_eq; exact H].
Qed.

(** X12. For every MCU name of ASCII characters that [mcu_match] accepts
    (not empty, no white space at its ends) and every architecture name of
    ASCII characters that is short enough for the buffer, [bmscript_load]
    (with no support file) returns: no script of the table refers to a register that the table does
    not give the same MCU, and no assertion fails. The list then holds at
    least two scripts, and [swo_generic] and [swo_channels] are among
    them. *)
Theorem hard_coded_scripts_load_for_every_mcu (mcu : cstring) (arch : option cstring)
    (st : session) :
  ascii_only mcu ->
  family_ok mcu = true ->
  (forall a, arch = Some a -> ascii_only a /\ length a < arch_name_size - 2) ->
  root_name st <> Some mcu ->
  exists n st',
    bmscript_load mcu arch st = Ok (n, st') /\
    2 <= n /\
    (exists s, find_script (cstr "swo_generic") st' = Some s) /\
    (exists s, find_script (cstr "swo_channels") st' = Some s).
Proof.
  intros _ Hm Hlen Hroot.
  assert (Hlen' : forall a, arch = Some a -> length a < arch_name_size - 2)
    by (intros a E; exact (proj2 (Hlen a E))).
  destruct (bmscript_load_checked mcu arch st Hm Hlen' Hroot) as (st' & Hl & Hc).
  exists (length (scripts st')), st'. split; [exact Hl|].
  unfold session_checked in Hc. rewrite !andb_true_iff in Hc.
  destruct Hc as (((Hn & Hg) & Hch) & _).
  split; [apply Nat.leb_le; exact Hn|].
  split; [apply finds_some; exact Hg | apply finds_some; exact Hch].
Qed.

Lemma hard_coded_scripts_load_for_every_mcu_witness :
  exists n st',
    bmscript_load (cstr "nRF52832 M4") (Some (cstr "M4")) session_init = Ok (n, st') /\
    2 <= n /\
    (exists s, find_script (cstr "swo_generic") st' = Some s) /\
    (exists s, find_script (cstr "swo_channels") st' = Some s).
Proof.
  apply (hard_coded_scripts_load_for_every_mcu (cstr "nRF52832 M4") (Some (cstr "M4"))
           session_init).
  - apply ascii_only_checked. vm_compute. reflexivity.
  - reflexivity.
  - intros a E. injection E as <-.
    split; [apply ascii_only_checked; vm_compute; reflexivity | vm_compute; lia].
  - discriminate.
Defined.

(** X13. For the architecture [M0], and every MCU name of ASCII characters
    that [mcu_match] accepts, the scripts that [bmscript_line] finds under the names
    [swo_generic] and [swo_channels] are the ones of the list [[M0]]: the
    single instructions [$3 = $2] and [$1 = $0]. They come later in the table
    than the generic scripts and so stand in front of them in the list. *)
Theorem cortex_m0_scripts_overrule_generic (mcu : cstring) (st : session) :
  ascii_only mcu ->
  family_ok mcu = true ->
  root_name st <> Some mcu ->
  exists n st' generic channels,
    bmscript_load mcu (Some (cstr "M0")) st = Ok (n, st') /\
    find_script (cstr "swo_generic") st' = Some generic /\
    script_lines generic = [copy_parameter 3 2] /\
    find_script (cstr "swo_channels") st' = Some channels /\
    script_lines channels = [copy_parameter 1 0].
Proof.
  intros _ Hm Hroot.
  assert (Hlen : forall a, Some (cstr "M0") = Some a -> length a < arch_name_size - 2).
  { intros a E. injection E as <-. vm_compute. lia. }
  destruct (bmscript_load_checked mcu (Some (cstr "M0")) st Hm Hlen Hroot)
    as (st' & Hl & Hc).
  assert (E : arch_matches (arch_name_of (Some (cstr "M0"))) m0_list = true)
    by (vm_compute; reflexivity).
  rewrite E, orb_true_r in Hc.
  unfold session_checked in Hc. cbn [implb] in Hc. rewrite !andb_true_iff in Hc.
  destruct Hc as (_ & Hg & Hch).
  destruct (finds_lines _ _ _ Hg) as (g & Hg1 & Hg2).
  destruct (finds_lines _ _ _ Hch) as (c & Hc1 & Hc2).
  exists (length (scripts st')), st', g, c. auto.
Qed.

Lemma cortex_m0_scripts_overrule_generic_witness :
  exists n st' generic channels,
    bmscript_load (cstr "LPC1114") (Some (cstr "M0")) session_init = Ok (n, st') /\
    find_script (cstr "swo_generic") st' = Some generic /\
    script_lines generic = [copy_parameter 3 2] /\
    find_script (cstr "swo_channels") st' = Some channels /\
    script_lines channels = [copy_parameter 1 0].
Proof.
  apply (cortex_m0_scripts_overrule_generic (cstr "LPC1114") session_init).
  - apply ascii_only_checked. vm_compute. reflexivity.
  - reflexivity.
  - discriminate.
Defined.

(** X14. The list [*] matches every MCU name of ASCII characters that
    [mcu_match] accepts, whatever its length and with or without an
    architecture suffix: a register or a script with this list is there for
    every MCU. *)
Theorem star_list_matches_every_mcu (mcu : cstring) :
  ascii_only mcu ->
  family_ok mcu = true ->
  mcu_match mcu (cstr "*") = Ok true.
Proof.
  intros _ Hm. rewrite (mcu_match_checked mcu (cstr "*") Hm eq_refl).
  rewrite match_tokens_star. reflexivity.
Qed.

Lemma star_list_matches_every_mcu_witness :
  mcu_match (cstr "STM32F407 M4") (cstr "*") = Ok true.
Proof.
  apply (star_list_matches_every_mcu (cstr "STM32F407 M4")).
  - apply ascii_only_checked. vm_compute. reflexivity.
  - reflexivity.
Defined.
